(** * GitHub repository analyzer: the analysis route and the repository model

    A shallow embedding of the server side of the analyzer
    (routes/github.js and models/Repository.js): the URL parser, the
    depth clamp, the table of active analyses with its cancel and
    progress handlers, the depth-bounded cancellable crawl, the count
    reconciler and the saved-repository store.

    Conventions.
    - A JavaScript string is a [string]; one [ascii] stands for one code
      unit in the range 0..255.
    - A JavaScript integer-valued number is a [Z]; [NaN] is kept apart
      where the code can produce it.
    - Crawl depths are [nat]: the route only ever passes an integer
      between 1 and 20 and the recursion starts at 0.
    - [async] code runs in a state-and-exception monad over a [World];
      every [await] on the network is a suspension point at which the
      requests of other clients that arrive meanwhile are served. *)

From Stdlib Require Import String Ascii List Bool Arith ZArith QArith Qround Qminmax Lia.
From Stdlib Require Import DecimalString.
From Stdlib Require Import Sorted.
Import ListNotations.

Set Warnings "-register-all".

Local Open Scope string_scope.
Local Open Scope Z_scope.

(** ** JavaScript primitives used by the routes *)

Module Js.

Definition code (c : ascii) : nat := nat_of_ascii c.

Definition between (lo hi : nat) (c : ascii) : bool :=
  (lo <=? code c)%nat && (code c <=? hi)%nat.

(** The class [\s], also what [trim] and [parseInt] strip. *)
Definition isWhiteSpace (c : ascii) : bool :=
  between 9 13 c || (code c =? 32)%nat || (code c =? 160)%nat.

Definition isDigit (c : ascii) : bool := between 48 57 c.
Definition isUpper (c : ascii) : bool := between 65 90 c.
Definition isLower (c : ascii) : bool := between 97 122 c.
Definition isAlnum (c : ascii) : bool := isLower c || isUpper c || isDigit c.

(** [.] of a regular expression: anything but a line terminator. *)
Definition isLineTerminator (c : ascii) : bool :=
  (code c =? 10)%nat || (code c =? 13)%nat.

Fixpoint trimStart (s : string) : string :=
  match s with
  | String c s' => if isWhiteSpace c then trimStart s' else s
  | EmptyString => EmptyString
  end.

Fixpoint trimEnd (s : string) : string :=
  match s with
  | String c s' =>
      let t := trimEnd s' in
      if isWhiteSpace c && (t =? "")%string then "" else String c t
  | EmptyString => EmptyString
  end.

Definition trim (s : string) : string := trimEnd (trimStart s).

(** [s.replace(/suf$/, '')] for a literal [suf]. *)
Fixpoint removeSuffix (suf s : string) : string :=
  if (s =? suf)%string then ""
  else match s with
       | String c s' => String c (removeSuffix suf s')
       | EmptyString => EmptyString
       end.

Fixpoint stripPrefix (p s : string) : option string :=
  match p, s with
  | EmptyString, _ => Some s
  | String a p', String b s' => if (a =? b)%char then stripPrefix p' s' else None
  | String _ _, EmptyString => None
  end.

Definition startsWith (s p : string) : bool :=
  match stripPrefix p s with Some _ => true | None => false end.

Fixpoint includes (s sub : string) : bool :=
  startsWith s sub ||
  match s with
  | String _ s' => includes s' sub
  | EmptyString => false
  end.

(** Longest prefix of characters satisfying [p], and the rest. *)
Fixpoint span (p : ascii -> bool) (s : string) : string * string :=
  match s with
  | String c s' =>
      if p c then let (a, b) := span p s' in (String c a, b) else ("", s)
  | EmptyString => ("", "")
  end.

(** [s.split('/')] *)
Fixpoint split (sep : ascii) (s : string) : list string :=
  match s with
  | EmptyString => [""]
  | String c s' =>
      if (c =? sep)%char then "" :: split sep s'
      else match split sep s' with
           | seg :: segs => String c seg :: segs
           | [] => [String c ""]
           end
  end.

(** [s.split('/').pop()] *)
Definition lastSegment (s : string) : string := last (split "/" s) "".

(** *** parseInt

    [None] is NaN.  The argument is the string the value converts to.
    For more than twenty significant digits an engine may round; the
    exact integer is kept here. *)

Definition digitValue (radix : Z) (c : ascii) : option Z :=
  let v := if isDigit c then Some (Z.of_nat (code c) - 48)
           else if between 97 122 c then Some (Z.of_nat (code c) - 87)
           else if between 65 90 c then Some (Z.of_nat (code c) - 55)
           else None in
  match v with
  | Some d => if d <? radix then Some d else None
  | None => None
  end.

Fixpoint digits (radix : Z) (acc : option Z) (s : string) : option Z :=
  match s with
  | String c s' =>
      match digitValue radix c with
      | Some d => digits radix (Some (match acc with Some a => a * radix + d | None => d end)) s'
      | None => acc
      end
  | EmptyString => acc
  end.

Definition parseInt (input : string) : option Z :=
  let s := trimStart input in
  let (sign, s1) :=
    match s with
    | String "-" r => (-1, r)
    | String "+" r => (1, r)
    | _ => (1, s)
    end in
  let (radix, s2) :=
    match s1 with
    | String "0" (String "x" r) => (16, r)
    | String "0" (String "X" r) => (16, r)
    | _ => (10, s1)
    end in
  match digits radix None s2 with
  | Some n => Some (sign * n)
  | None => None
  end.

(** [x || d] on a number: NaN and 0 are falsy. *)
Definition orElse (x : option Z) (d : Z) : Z :=
  match x with
  | Some 0 => d
  | Some n => n
  | None => d
  end.

End Js.

(** ** The URL parser *)

Module Parser.
Import Js.

Definition marker : string := "github.com/".

(** [[^\/\s]] *)
Definition isSegChar (c : ascii) : bool :=
  negb (c =? "/")%char && negb (isWhiteSpace c).

(** The pattern [github\.com\/([^\/\s]+)\/([^\/\s]+)] tried at the
    start of [s]: both groups are greedy, and the first one has to stop
    at a slash. *)
Definition matchHere (s : string) : option (string * string) :=
  match stripPrefix marker s with
  | None => None
  | Some rest =>
      let (owner, rest1) := span isSegChar rest in
      if (owner =? "")%string then None
      else match rest1 with
           | String "/" rest2 =>
               let (repo, _) := span isSegChar rest2 in
               if (repo =? "")%string then None else Some (owner, repo)
           | _ => None
           end
  end.

(** [cleanUrl.match(regex)]: the leftmost position where it matches. *)
Fixpoint regexMatch (s : string) : option (string * string) :=
  match matchHere s with
  | Some m => Some m
  | None =>
      match s with
      | String _ s' => regexMatch s'
      | EmptyString => None
      end
  end.

Definition isOwnerChar (c : ascii) : bool :=
  isAlnum c || (c =? "-")%char || (c =? ".")%char.

Definition isRepoChar (c : ascii) : bool :=
  isOwnerChar c || (c =? "_")%char.

(** [([mid]*[a-zA-Z0-9])] up to the end of the string. *)
Fixpoint middleThenAlnum (mid : ascii -> bool) (s : string) : bool :=
  match s with
  | EmptyString => false
  | String c EmptyString => isAlnum c
  | String c s' => mid c && middleThenAlnum mid s'
  end.

(** [/^[a-zA-Z0-9]([mid]*[a-zA-Z0-9])?$/.test(s)] *)
Definition testIdent (mid : ascii -> bool) (s : string) : bool :=
  match s with
  | EmptyString => false
  | String c rest =>
      isAlnum c &&
      match rest with
      | EmptyString => true
      | _ => middleThenAlnum mid rest
      end
  end.

Definition validOwnerPattern : string -> bool := testIdent isOwnerChar.
Definition validRepoPattern : string -> bool := testIdent isRepoChar.

Definition cleanUrl (url : string) : string :=
  removeSuffix ".git" (removeSuffix "/" (trim url)).

(** [null] is [None]. *)
Definition parseGitHubUrl (url : string) : option (string * string) :=
  match regexMatch (cleanUrl url) with
  | None => None
  | Some (owner, repo) =>
      if (owner =? "")%string || (repo =? "")%string then None
      else if negb (validOwnerPattern owner) || negb (validRepoPattern repo) then None
      else Some (owner, repo)
  end.

End Parser.

(** ** The depth clamp of the analyze route *)

Module Depth.
Import Js.

(** [const { maxDepth = 15 } = req.body] followed by
    [Math.min(Math.max(parseInt(maxDepth) || 15, 1), 20)].
    The field is given by the string it converts to, [None] when it is
    missing. *)
Definition clampDepth (maxDepth : option string) : Z :=
  let field := match maxDepth with Some v => v | None => "15" end in
  Z.min (Z.max (orElse (parseInt field) 15) 1) 20.

End Depth.

(** ** The table of active analyses and its two polling handlers *)

Module Store.
Import Js.

(** A progress value: [Math.round] of a division can be NaN. *)
Inductive num := Fin (z : Z) | NaN.

(** [x || 0] *)
Definition orZero (x : num) : Z :=
  match x with Fin z => z | NaN => 0 end.

(** One entry of [activeAnalyses].  A field the object does not carry
    is held as the value every read of it falls back to
    ([false], [0], the empty string). *)
Record Analysis := {
  cancelled : bool;
  progress : num;
  currentDepth : nat;
  currentPath : string;
  maxDepth : nat
}.

Definition emptyAnalysis : Analysis :=
  {| cancelled := false; progress := Fin 0; currentDepth := 0;
     currentPath := ""; maxDepth := 0 |}.

(** A [Map]: unique keys, iterated in insertion order. *)
Definition Table := list (string * Analysis).

Fixpoint get (id : string) (t : Table) : option Analysis :=
  match t with
  | (k, a) :: r => if (k =? id)%string then Some a else get id r
  | [] => None
  end.

Fixpoint set (id : string) (v : Analysis) (t : Table) : Table :=
  match t with
  | (k, a) :: r => if (k =? id)%string then (k, v) :: r else (k, a) :: set id v r
  | [] => [(id, v)]
  end.

Fixpoint delete (id : string) (t : Table) : Table :=
  match t with
  | (k, a) :: r => if (k =? id)%string then r else (k, a) :: delete id r
  | [] => []
  end.

Definition markCancelled (a : Analysis) : Analysis :=
  {| cancelled := true; progress := progress a; currentDepth := currentDepth a;
     currentPath := currentPath a; maxDepth := maxDepth a |}.

(** The requests of other clients that touch the table while an
    analysis runs: a cancel request, a progress poll, and an analyze
    request of [user] that fails, of which the others see the cleanup
    loop of its [catch]. *)
Inductive Request :=
| CancelRequest (user : string) (analysisId : option string)
| ProgressRequest (user : string)
| FailedAnalyzeRequest (user : string).

Inductive Reply :=
| CancelReply (message : string) (cancelled : bool)
| ProgressReply (progress : Z) (currentDepth : nat) (currentPath : string) (cancelled : bool)
| InactiveReply.

(** [router.post('/analyze/cancel')]: the loop over the entries. *)
Fixpoint cancelLoop (user : string) (t : Table) (found : bool) : Table * bool :=
  match t with
  | (id, analysis) :: r =>
      if startsWith id user
      then let (r', c) := cancelLoop user r true in ((id, markCancelled analysis) :: r', c)
      else let (r', c) := cancelLoop user r found in ((id, analysis) :: r', c)
  | [] => ([], found)
  end.

Definition cancelAnalysis (user : string) (analysisId : option string) (t : Table)
  : Table * Reply :=
  let (t', cancelled) := cancelLoop user t false in
  (t', CancelReply (if cancelled then "Analysis cancellation requested"
                    else "No active analysis found") cancelled).

(** [router.get('/analyze/progress')]: the first entry of the user. *)
Fixpoint analysisProgress (user : string) (t : Table) : Reply :=
  match t with
  | (id, analysis) :: r =>
      if startsWith id user
      then ProgressReply (orZero (progress analysis)) (currentDepth analysis)
                         (currentPath analysis) (cancelled analysis)
      else analysisProgress user r
  | [] => InactiveReply
  end.

(** The cleanup loop of the analyze route's [catch]: the first entry
    of the user is deleted, whichever analysis it belongs to. *)
Fixpoint deleteFirstOf (user : string) (t : Table) : Table :=
  match t with
  | (id, analysis) :: r =>
      if startsWith id user then r else (id, analysis) :: deleteFirstOf user r
  | [] => []
  end.

End Store.

(** ** Trees *)

Module Tree.

Inductive Kind := folder | file.

(** A node of the file tree.  The objects the crawler builds carry
    different fields; an absent one is [None].  [truncated] is only
    ever [true] or absent, [children] is absent on a file: both are
    held as what a read of the absent field amounts to. *)
Inductive TreeNode := Node {
  name : string;
  type : Kind;
  path : option string;
  children : list TreeNode;
  download_url : option string;
  size : option Z;
  depth : option nat;
  actualDepth : option nat;
  maxDepth : option nat;
  truncated : bool;
  message : option string;
  error : option string
}.

(** Every node of a tree, the root first. *)
Fixpoint nodes (t : TreeNode) : list TreeNode :=
  t :: flat_map nodes (children t).

(** [countAnalyzed] (and [countFromTree], which is the same function). *)
Fixpoint countNode (isRoot : bool) (t : TreeNode) : Z * Z :=
  match type t with
  | file => (1, 0)
  | folder =>
      fold_left (fun acc child =>
                   let (f, d) := countNode false child in (fst acc + f, snd acc + d))
                (children t) (0, if isRoot then 0 else 1)
  end.

Definition countAnalyzed (root : TreeNode) : Z * Z := countNode true root.

(** [calculateActualDepth] *)
Fixpoint calculateActualDepth (currentDepth : Z) (t : TreeNode) : Z :=
  fold_left (fun m child => Z.max m (calculateActualDepth (currentDepth + 1) child))
            (children t) currentDepth.

(** [calculateTotalSize] *)
Fixpoint calculateTotalSize (t : TreeNode) : Z :=
  fold_left (fun acc child => acc + calculateTotalSize child) (children t)
            (match type t, size t with
             | file, Some n => n
             | _, _ => 0
             end).

End Tree.

(** ** Saved repositories (models/Repository.js over config/database.js) *)

Module Repository.
Import Js.

(** [repo_stats], as the analyze route fills it in; the descriptive
    fields copied from the repository metadata (visibility, language,
    description, stars, forks, date) are not carried. *)
Record Stats := {
  analyzedFiles : Z;
  analyzedFolders : Z;
  totalFiles : Z;
  totalFolders : Z;
  analyzedDepth : Z;
  totalDepth : Z;
  totalSize : Z
}.

(** A stored document.  [K] is the type of identifiers: a number
    ([None] for NaN) in the in-memory store, an ObjectId in MongoDB. *)
Record Doc (K : Type) := {
  id : K;
  user_id : K;
  repo_url : string;
  repo_data : Tree.TreeNode;
  repo_stats : option Stats
}.
Arguments id {K}. Arguments user_id {K}. Arguments repo_url {K}.
Arguments repo_data {K}. Arguments repo_stats {K}.

(** [fallbackStorage]: the [repositories] map and its counter. *)
Record Fallback := {
  repositories : list (Z * Doc (option Z));
  repoIdCounter : Z
}.

(** An ObjectId is a 12-byte value. *)
Definition ObjectId := Z.

(** The [repositories] collection behind the MongoDB driver.
    [nextId] is the identifier the driver gives to the next inserted
    document; [newObjectId] is its constructor [new ObjectId(s)] on a
    string, [None] when it throws. *)
Record Collection := {
  documents : list (Doc ObjectId);
  nextId : ObjectId;
  newObjectId : string -> option ObjectId
}.

(** The constructor of the current driver: 24 hexadecimal digits. *)
Definition hexObjectId (s : string) : option ObjectId :=
  if (String.length s =? 24)%nat then
    (fix hex (acc : Z) (s : string) : option Z :=
       match s with
       | EmptyString => Some acc
       | String c s' =>
           match digitValue 16 c with
           | Some d => hex (acc * 16 + d) s'
           | None => None
           end
       end) 0 s
  else None.

Inductive Database :=
| UsingFallback (storage : Fallback)
| UsingMongo (db : Collection).

(** [===] on two numbers: NaN equals nothing. *)
Definition strictEq (a b : option Z) : bool :=
  match a, b with
  | Some x, Some y => x =? y
  | _, _ => false
  end.

Fixpoint mapGet {V} (k : Z) (m : list (Z * V)) : option V :=
  match m with
  | (k', v) :: r => if k' =? k then Some v else mapGet k r
  | [] => None
  end.

Fixpoint mapSet {V} (k : Z) (v : V) (m : list (Z * V)) : list (Z * V) :=
  match m with
  | (k', v') :: r => if k' =? k then (k', v) :: r else (k', v') :: mapSet k v r
  | [] => [(k, v)]
  end.

Fixpoint mapDelete {V} (k : Z) (m : list (Z * V)) : list (Z * V) :=
  match m with
  | (k', v') :: r => if k' =? k then r else (k', v') :: mapDelete k r
  | [] => []
  end.

(** [deleteOne({_id, user_id})]: the first matching document goes. *)
Fixpoint deleteOne (_id uid : ObjectId) (docs : list (Doc ObjectId))
  : list (Doc ObjectId) * Z :=
  match docs with
  | d :: r =>
      if (id d =? _id) && (user_id d =? uid) then (r, 1)
      else let (r', n) := deleteOne _id uid r in (d :: r', n)
  | [] => ([], 0)
  end.

(** The result of a model function: a value, or the exception thrown
    (here always by the ObjectId constructor). *)
Inductive Result (A : Type) := Returned (a : A) | Thrown (message : string).
Arguments Returned {A}. Arguments Thrown {A}.

Definition badObjectId : string :=
  "input must be a 24 character hex string, 12 byte Uint8Array, or an integer".

(** [Repository.create] *)
Definition create (userId repoUrl : string) (repoData : Tree.TreeNode)
           (repoStats : option Stats) (d : Database) : Result unit * Database :=
  match d with
  | UsingFallback storage =>
      let repoId := repoIdCounter storage in
      let repository :=
        {| id := Some repoId; user_id := parseInt userId; repo_url := repoUrl;
           repo_data := repoData; repo_stats := repoStats |} in
      (Returned tt,
       UsingFallback {| repositories := mapSet repoId repository (repositories storage);
                        repoIdCounter := repoId + 1 |})
  | UsingMongo db =>
      match newObjectId db userId with
      | None => (Thrown badObjectId, d)
      | Some uid =>
          (Returned tt,
           UsingMongo {| documents := documents db ++
                           [{| id := nextId db; user_id := uid; repo_url := repoUrl;
                               repo_data := repoData; repo_stats := repoStats |}];
                         nextId := nextId db + 1;
                         newObjectId := newObjectId db |})
      end
  end.

(** [Repository.deleteById] *)
Definition deleteById (userId repoId : string) (d : Database) : Result bool * Database :=
  match d with
  | UsingFallback storage =>
      match parseInt repoId with
      | None => (Returned false, d)
      | Some key =>
          match mapGet key (repositories storage) with
          | Some repo =>
              if strictEq (user_id repo) (parseInt userId)
              then (Returned true,
                    UsingFallback {| repositories := mapDelete key (repositories storage);
                                     repoIdCounter := repoIdCounter storage |})
              else (Returned false, d)
          | None => (Returned false, d)
          end
      end
  | UsingMongo db =>
      match newObjectId db repoId with
      | None => (Thrown badObjectId, d)
      | Some _id =>
          match newObjectId db userId with
          | None => (Thrown badObjectId, d)
          | Some uid =>
              let (docs, deletedCount) := deleteOne _id uid (documents db) in
              (Returned (0 <? deletedCount),
               UsingMongo {| documents := docs; nextId := nextId db;
                             newObjectId := newObjectId db |})
          end
      end
  end.

(** [router.delete('/repositories/:id')]: the status and the message
    of the response. *)
Definition deleteRoute (user id : string) (d : Database) : (Z * string) * Database :=
  match deleteById user id d with
  | (Returned true, d') => ((200, "Repository deleted successfully"), d')
  | (Returned false, d') => ((404, "Repository not found"), d')
  | (Thrown _, d') => ((500, "Failed to delete repository"), d')
  end.

(** The identifiers of the stored records, with their owners. *)
Definition owners (d : Database) : list (Z * option Z) :=
  match d with
  | UsingFallback storage => map (fun kv => (fst kv, user_id (snd kv))) (repositories storage)
  | UsingMongo db => map (fun doc => (id doc, Some (user_id doc))) (documents db)
  end.

End Repository.

(** ** The denylist *)

Module Denylist.
Import Js.

Definition skipPatterns : list string :=
  [ "node_modules"; ".git"; "dist"; "build"; ".next"; ".nuxt";
    "coverage"; ".nyc_output"; ".cache"; ".parcel-cache";
    "*.log"; "*.lock"; "*.min.js"; "*.min.css"; "*.map" ].

(** The regular expressions [new RegExp(pattern.replace(/\*/g, '.*'))]
    can denote for the patterns of the list, which hold no
    metacharacter besides the star and the dot. *)
Inductive Tok := Lit (c : ascii) | AnyChar | AnyStar.

Fixpoint compile (pattern : string) : list Tok :=
  match pattern with
  | String "*" r => AnyStar :: compile r
  | String "." r => AnyChar :: compile r
  | String c r => Lit c :: compile r
  | EmptyString => []
  end.

(** The expression matches a prefix of [s]. *)
Fixpoint matchPrefix (re : list Tok) (s : string) : bool :=
  match re with
  | [] => true
  | Lit a :: re' =>
      match s with
      | String c s' => (a =? c)%char && matchPrefix re' s'
      | EmptyString => false
      end
  | AnyChar :: re' =>
      match s with
      | String c s' => negb (isLineTerminator c) && matchPrefix re' s'
      | EmptyString => false
      end
  | AnyStar :: re' =>
      (fix star (s : string) : bool :=
         matchPrefix re' s ||
         match s with
         | String c s' => negb (isLineTerminator c) && star s'
         | EmptyString => false
         end) s
  end.

(** [regex.test(s)]: the expression is not anchored. *)
Fixpoint test (re : list Tok) (s : string) : bool :=
  matchPrefix re s ||
  match s with
  | String _ s' => test re s'
  | EmptyString => false
  end.

(** The crawler's filter, on the name of an entry. *)
Definition shouldSkip (name : string) : bool :=
  existsb (fun pattern =>
             if includes pattern "*" then test (compile pattern) name
             else (name =? pattern)%string)
          skipPatterns.

(** The reconciler's filter, on the path of an entry of the flat
    listing. *)
Definition shouldSkipPath (path : string) : bool :=
  existsb (fun pattern =>
             if includes pattern "*"
             then test (compile pattern) path || test (compile pattern) (lastSegment path)
             else (path =? pattern)%string || (lastSegment path =? pattern)%string)
          skipPatterns.

End Denylist.

(** ** The GitHub API, as the routes see it *)

Module Api.

(** An exception: its message and, for the ones axios throws, the
    status of the response and the error code. *)
Record Error := {
  message : string;
  responseStatus : option Z;
  responseMessage : option string;
  code : option string
}.

(** [new Error(msg)] *)
Definition newError (msg : string) : Error :=
  {| message := msg; responseStatus := None; responseMessage := None; code := None |}.

(** What GitHub (or the network) answers to one request. *)
Inductive Fetch (A : Type) :=
| Responded (status : Z) (statusText : string) (data : A)
| Failed (e : Error).
Arguments Responded {A}. Arguments Failed {A}.

(** An entry of a [contents] listing. *)
Record Item := {
  name : string;
  path : string;
  type : string;
  download_url : option string;
  size : option Z
}.

(** An entry of the recursive [git/trees] listing. *)
Record FlatItem := {
  flatPath : string;
  flatType : string
}.

(** The metadata of a repository the analyze route looks at. *)
Record RepoData := {
  repoSize : Z;
  default_branch : option string
}.

(** Everything outside the process, for one run of the analyze route:
    the answers of GitHub, the outcome of the two retried requests of
    each reconciler pass ([None] when they fail for good) and the
    exception of the statistics update, if any. *)
Record Env := {
  repository : Fetch RepoData;
  contents : string -> Fetch (list Item);
  totalsTree : option (list FlatItem);
  depthTree : option (list FlatItem);
  statisticsFailure : option Error
}.

Definition showZ (z : Z) : string := NilZero.string_of_int (Z.to_int z).
Definition showNat (n : nat) : string := NilZero.string_of_uint (Nat.to_uint n).

End Api.

(** ** The process: shared state, suspension points, exceptions *)

Module Run.
Import Js Api.

(** The other requests served while a run of the analyze route is
    suspended are cancel requests, progress polls and analyze requests
    that fail. *)
Record World := {
  activeAnalyses : Store.Table;
  (** the requests that arrive during the coming suspension points *)
  incoming : list (list Store.Request);
  (** the answers given to them so far *)
  replies : list (Store.Request * Store.Reply);
  database : Repository.Database
}.

Definition withAnalyses (f : Store.Table -> Store.Table) (w : World) : World :=
  {| activeAnalyses := f (activeAnalyses w); incoming := incoming w;
     replies := replies w; database := database w |}.

Inductive Outcome (A : Type) :=
| Ok (a : A)
| Throw (e : Error)
| OutOfFuel.
Arguments Ok {A}. Arguments Throw {A}. Arguments OutOfFuel {A}.

Definition M (A : Type) : Type := World -> Outcome A * World.

Definition ret {A} (a : A) : M A := fun w => (Ok a, w).

Definition bind {A B} (m : M A) (k : A -> M B) : M B :=
  fun w =>
    match m w with
    | (Ok a, w') => k a w'
    | (Throw e, w') => (Throw e, w')
    | (OutOfFuel, w') => (OutOfFuel, w')
    end.

Definition throw {A} (e : Error) : M A := fun w => (Throw e, w).

Definition tryCatch {A} (m : M A) (handler : Error -> M A) : M A :=
  fun w =>
    match m w with
    | (Throw e, w') => handler e w'
    | r => r
    end.

Definition modify (f : World -> World) : M unit := fun w => (Ok tt, f w).

Definition gets {A} (f : World -> A) : M A := fun w => (Ok (f w), w).

Declare Scope run_scope.
Delimit Scope run_scope with run.
Notation "x <- m ;; k" := (bind m (fun x => k))
  (at level 61, m at next level, right associativity) : run_scope.
Notation "m ;; k" := (bind m (fun _ => k))
  (at level 61, right associativity) : run_scope.
Local Open Scope run_scope.

(** One request of another client, served by its handler. *)
Definition serve (w : World) (req : Store.Request) : World :=
  match req with
  | Store.CancelRequest user analysisId =>
      let (t, reply) := Store.cancelAnalysis user analysisId (activeAnalyses w) in
      {| activeAnalyses := t; incoming := incoming w;
         replies := replies w ++ [(req, reply)]; database := database w |}
  | Store.ProgressRequest user =>
      {| activeAnalyses := activeAnalyses w; incoming := incoming w;
         replies := replies w ++ [(req, Store.analysisProgress user (activeAnalyses w))];
         database := database w |}
  | Store.FailedAnalyzeRequest user =>
      (* [for (const [id] of activeAnalyses.entries())
           if (id.startsWith(req.user.id)) { activeAnalyses.delete(id); break; }];
         its answer goes to its own client *)
      withAnalyses (Store.deleteFirstOf user) w
  end.

(** A suspension point: the event loop serves what arrived. *)
Definition suspend : M unit :=
  fun w =>
    match incoming w with
    | batch :: later =>
        (Ok tt, fold_left serve batch
                  {| activeAnalyses := activeAnalyses w; incoming := later;
                     replies := replies w; database := database w |})
    | [] => (Ok tt, w)
    end.

(** [await axios.get(url, { validateStatus: status => status < 500 })] *)
Definition axiosGet {A} (answer : Fetch A) : M (Z * string * A) :=
  suspend ;;
  match answer with
  | Responded status statusText data =>
      if status <? 500 then ret (status, statusText, data)
      else throw {| message := "Request failed with status code " ++ showZ status;
                    responseStatus := Some status; responseMessage := None;
                    code := Some "ERR_BAD_RESPONSE" |}
  | Failed e => throw e
  end.

End Run.

(** ** The crawler *)

Module Crawler.
Import Js Api Run.
Local Open Scope run_scope.

(** A string is truthy unless it is empty. *)
Definition truthy (s : string) : bool := negb (s =? "")%string.

(** [Math.round] *)
Definition jsRound (q : Q) : Z := Qfloor (q + (1 # 2)).

(** [Math.round(Math.min(10 + (depth / maxDepth) * 80, 90))], in exact
    arithmetic; dividing by zero gives NaN for 0/0, infinity otherwise. *)
Definition currentProgress (depth maxDepth : nat) : Store.num :=
  match maxDepth, depth with
  | O, O => Store.NaN
  | O, S _ => Store.Fin 90
  | S _, _ =>
      Store.Fin (jsRound (Qmin (10 + (inject_Z (Z.of_nat depth) / inject_Z (Z.of_nat maxDepth)) * 80) 90))
  end.

(** [Math.max(previous || 0, rounded)] *)
Definition newProgress (previous rounded : Store.num) : Store.num :=
  match rounded with
  | Store.Fin r => Store.Fin (Z.max (Store.orZero previous) r)
  | Store.NaN => Store.NaN
  end.

Section Crawl.
Variable repo : string.
Variable listing : string -> Fetch (list Item).
Variable analysisId : string.
Variable maxDepth : nat.

Definition isCancelled (w : World) : bool :=
  truthy analysisId &&
  match Store.get analysisId (activeAnalyses w) with
  | Some a => Store.cancelled a
  | None => false
  end.

Definition checkCancelled : M unit :=
  fun w =>
    if isCancelled w then (Throw (newError "Analysis cancelled by user"), w)
    else (Ok tt, w).

Definition recordProgress (path : string) (depth : nat) (t : Store.Table) : Store.Table :=
  let currentAnalysis :=
    match Store.get analysisId t with Some a => a | None => Store.emptyAnalysis end in
  Store.set analysisId
    {| Store.cancelled := Store.cancelled currentAnalysis;
       Store.progress := newProgress (Store.progress currentAnalysis)
                                     (currentProgress depth maxDepth);
       Store.currentDepth := depth;
       Store.currentPath := path;
       Store.maxDepth := maxDepth |} t.

Definition updateProgress (path : string) (depth : nat) : M unit :=
  if truthy analysisId then modify (withAnalyses (recordProgress path depth))
  else ret tt.

(** [path || repo] *)
Definition nodeName (path : string) : string :=
  if truthy path then path else repo.

Definition truncatedNode (path : string) (depth : nat) : Tree.TreeNode :=
  {| Tree.name := nodeName path; Tree.type := Tree.folder; Tree.path := None;
     Tree.children := []; Tree.download_url := None; Tree.size := None;
     Tree.depth := None; Tree.actualDepth := Some depth;
     Tree.maxDepth := Some maxDepth; Tree.truncated := true;
     Tree.message := Some ("Maximum depth (" ++ showNat maxDepth ++ ") reached");
     Tree.error := None |}.

Definition errorNode (path : string) (depth : nat) (msg : string) : Tree.TreeNode :=
  {| Tree.name := nodeName path; Tree.type := Tree.folder; Tree.path := None;
     Tree.children := []; Tree.download_url := None; Tree.size := None;
     Tree.depth := Some depth; Tree.actualDepth := None;
     Tree.maxDepth := None; Tree.truncated := false;
     Tree.message := None; Tree.error := Some msg |}.

Definition listingNode (path : string) (depth : nat) (children : list Tree.TreeNode)
  : Tree.TreeNode :=
  {| Tree.name := nodeName path; Tree.type := Tree.folder; Tree.path := None;
     Tree.children := children; Tree.download_url := None; Tree.size := None;
     Tree.depth := Some depth; Tree.actualDepth := Some depth;
     Tree.maxDepth := Some maxDepth; Tree.truncated := false;
     Tree.message := None; Tree.error := None |}.

(** The node pushed for a directory entry, from the tree of the
    recursive call. *)
Definition folderNode (item : Item) (depth : nat) (subTree : Tree.TreeNode)
  : Tree.TreeNode :=
  {| Tree.name := name item; Tree.type := Tree.folder; Tree.path := Some (path item);
     Tree.children := Tree.children subTree; Tree.download_url := None;
     Tree.size := None;
     Tree.depth := Some (depth + 1)%nat;
     Tree.actualDepth := Some (match Tree.actualDepth subTree with
                               | Some (S k) => S k
                               | _ => (depth + 1)%nat
                               end);
     Tree.maxDepth := Some maxDepth; Tree.truncated := Tree.truncated subTree;
     Tree.message := Tree.message subTree; Tree.error := None |}.

Definition fileNode (item : Item) (depth : nat) : Tree.TreeNode :=
  {| Tree.name := name item; Tree.type := Tree.file; Tree.path := Some (path item);
     Tree.children := []; Tree.download_url := download_url item;
     Tree.size := size item;
     Tree.depth := Some depth; Tree.actualDepth := Some depth;
     Tree.maxDepth := Some maxDepth; Tree.truncated := false;
     Tree.message := None; Tree.error := None |}.

(** The loop over the entries of one listing; [descend] is the
    recursive call on a directory entry. *)
Fixpoint processItems (descend : string -> M Tree.TreeNode) (depth : nat)
         (items : list Item) (children : list Tree.TreeNode)
  : M (list Tree.TreeNode) :=
  match items with
  | [] => ret children
  | item :: rest =>
      checkCancelled ;;
      if Denylist.shouldSkip (name item) then processItems descend depth rest children
      else if (type item =? "dir")%string then
        subTree <- descend (path item) ;;
        processItems descend depth rest (children ++ [folderNode item depth subTree])
      else
        processItems descend depth rest (children ++ [fileNode item depth])
  end.

(** [catch (error) { throw new Error(`GitHub API error: ${error.message}`) }] *)
Definition rethrow {A} (error : Error) : M A :=
  throw (newError ("GitHub API error: " ++ message error)).

Fixpoint buildFileTreeWithCancellation (fuel : nat) (path : string) (depth : nat)
  : M Tree.TreeNode :=
  match fuel with
  | O => fun w => (OutOfFuel, w)
  | S fuel' =>
      tryCatch
        (checkCancelled ;;
         updateProgress path depth ;;
         if (maxDepth <=? depth)%nat then ret (truncatedNode path depth)
         else
           response <- axiosGet (listing path) ;;
           let '(status, statusText, items) := response in
           if status =? 404 then
             ret (errorNode path depth "Directory not found or access denied")
           else if status =? 403 then
             ret (errorNode path depth "Rate limit exceeded or access denied")
           else if 400 <=? status then
             throw (newError ("GitHub API error: " ++ showZ status ++ " " ++ statusText))
           else
             children <- processItems
                           (fun p => buildFileTreeWithCancellation fuel' p (depth + 1)%nat)
                           depth items [] ;;
             ret (listingNode path depth children))
        rethrow
  end.

(** A crawl: the call the analyze route makes. *)
Definition crawl : M Tree.TreeNode :=
  buildFileTreeWithCancellation (S maxDepth) "" 0.

End Crawl.

End Crawler.

(** ** The count reconciler *)

Module Reconciler.
Import Js Api.

(** The counting loop of [calculateTotalCounts] over the flat listing:
    files and folders. *)
Fixpoint countListing (tree : list FlatItem) (totalFiles totalFolders : Z) : Z * Z :=
  match tree with
  | [] => (totalFiles, totalFolders)
  | item :: rest =>
      if Denylist.shouldSkipPath (flatPath item) then countListing rest totalFiles totalFolders
      else if (flatType item =? "blob")%string then countListing rest (totalFiles + 1) totalFolders
      else if (flatType item =? "tree")%string then
        if negb (flatPath item =? "")%string
        then countListing rest totalFiles (totalFolders + 1)
        else countListing rest totalFiles totalFolders
      else countListing rest totalFiles totalFolders
  end.

(** [calculateTotalCounts]: from the flat listing, or from the crawled
    tree when the listing could not be fetched. *)
Definition totalCounts (listing : option (list FlatItem)) (fileTree : Tree.TreeNode) : Z * Z :=
  match listing with
  | Some tree => countListing tree 0 0
  | None => Tree.countNode true fileTree
  end.

(** The loop of [calculateRealRepositoryDepth]. *)
Fixpoint depthOfListing (tree : list FlatItem) (maxDepth : Z) : Z :=
  match tree with
  | [] => maxDepth
  | item :: rest =>
      if Denylist.shouldSkipPath (flatPath item) then depthOfListing rest maxDepth
      else if (flatType item =? "tree")%string && negb (flatPath item =? "")%string then
        depthOfListing rest
          (Z.max maxDepth (Z.of_nat (List.length (split "/" (flatPath item))) + 1))
      else depthOfListing rest maxDepth
  end.

Definition realRepositoryDepth (listing : option (list FlatItem)) (actualDepthReached : Z) : Z :=
  match listing with
  | Some tree => depthOfListing tree 0
  | None => actualDepthReached
  end.

End Reconciler.

(** ** The analyze route *)

Module Analyze.
Import Js Api Run.
Local Open Scope run_scope.

(** The fields of the request body the route reads, each given by the
    string it converts to. *)
Record Body := {
  repoUrl : option string;
  maxDepth : option string
}.

Record AnalysisConfig := {
  configMaxDepth : Z;
  actualDepth : Z;
  analyzedFiles : Z;
  analyzedFolders : Z;
  totalFiles : Z;
  totalFolders : Z;
  realRepositoryDepth : Z;
  wasTruncated : bool
}.

Inductive Response :=
| Json (status : Z) (message : string) (error : option string) (cancelled : option bool)
| Analyzed (owner repo : string) (fileTree : Tree.TreeNode) (analysisConfig : AnalysisConfig).

Definition statusOf (r : Response) : Z :=
  match r with
  | Json status _ _ _ => status
  | Analyzed _ _ _ _ => 200
  end.

Definition repoLabel (owner repo : string) : string :=
  "Repository '" ++ owner ++ "/" ++ repo ++ "'".

Definition notFoundMessage (owner repo : string) : string :=
  repoLabel owner repo ++ " not found. Please check the repository name and owner.".

Definition accessDeniedMessage (owner repo : string) : string :=
  "Access denied to repository '" ++ owner ++ "/" ++ repo
  ++ "'. The repository may be private or you may not have permission to access it.".

Definition validateRepositoryExists (owner repo : string) (answer : Fetch RepoData)
  : M RepoData :=
  tryCatch
    (response <- axiosGet answer ;;
     let '(status, statusText, repoData) := response in
     if status =? 404 then throw (newError (notFoundMessage owner repo))
     else if status =? 403 then throw (newError (accessDeniedMessage owner repo))
     else if 400 <=? status then
       throw (newError ("GitHub API error: " ++ showZ status ++ " " ++ statusText))
     else if repoSize repoData =? 0 then
       throw (newError (repoLabel owner repo ++ " is empty and has no content to analyze."))
     else
       match default_branch repoData with
       | Some (String _ _) => ret repoData
       | _ => throw (newError (repoLabel owner repo
                               ++ " has no default branch and cannot be analyzed."))
       end)
    (fun error =>
       match responseStatus error with
       | Some 404 => throw (newError (notFoundMessage owner repo))
       | Some 403 => throw (newError (accessDeniedMessage owner repo))
       | _ => throw (newError ("Failed to validate repository: " ++ message error))
       end).

(** The entry the route stores before the crawl. *)
Definition freshAnalysis : Store.Analysis :=
  {| Store.cancelled := false; Store.progress := Store.Fin 0; Store.currentDepth := 0;
     Store.currentPath := ""; Store.maxDepth := 0 |}.

(** [Set progress to 100% before completing] *)
Definition completeProgress (analysisId : string) (depth : nat) (t : Store.Table)
  : Store.Table :=
  let currentAnalysis :=
    match Store.get analysisId t with Some a => a | None => Store.emptyAnalysis end in
  Store.set analysisId
    {| Store.cancelled := Store.cancelled currentAnalysis;
       Store.progress := Store.Fin 100;
       Store.currentDepth := depth;
       Store.currentPath := "Analysis complete";
       Store.maxDepth := depth |} t.

(** [Repository.create] inside the process. *)
Definition saveRepository (user url : string) (fileTree : Tree.TreeNode)
           (stats : Repository.Stats) : M unit :=
  suspend ;;
  fun w =>
    match Repository.create user url fileTree (Some stats) (database w) with
    | (Repository.Returned _, d) =>
        (Ok tt, {| activeAnalyses := activeAnalyses w; incoming := incoming w;
                   replies := replies w; database := d |})
    | (Repository.Thrown msg, d) =>
        (Throw (newError msg),
         {| activeAnalyses := activeAnalyses w; incoming := incoming w;
            replies := replies w; database := d |})
    end.

Definition incrementAnalyses (failure : option Error) : M unit :=
  suspend ;;
  match failure with
  | Some e => throw e
  | None => ret tt
  end.

Definition networkCodes : list string := ["ECONNABORTED"; "ENOTFOUND"; "ECONNREFUSED"].

(** The answer of the route's [catch] to an exception. *)
Definition errorResponse (error : Error) : Response :=
  if (message error =? "Analysis cancelled by user")%string then
    Json 499 "Analysis cancelled by user" None (Some true)
  else if includes (message error) "not found" || includes (message error) "Repository" then
    Json 404 (message error) (Some "Repository not found or inaccessible") None
  else if match responseStatus error, responseMessage error with
          | Some 403, Some m => includes m "rate limit"
          | _, _ => false
          end then
    Json 429 "GitHub API rate limit exceeded. Please try again later."
         (Some "Rate limit exceeded") None
  else if match code error with
          | Some c => existsb (String.eqb c) networkCodes
          | None => false
          end then
    Json 503 "Network error. Please check your internet connection and try again."
         (Some "Network error") None
  else Json 500 "Failed to analyze repository" (Some (message error)) None.

Section Route.
Variable user : string.     (* req.user.id *)
Variable now : string.      (* Date.now() *)
Variable body : Body.
Variable env : Env.

Definition analysisId : string := user ++ "-" ++ now.

(** The part of the route from the creation of the table entry to
    the end of the crawl, progress set to 100 included. *)
Definition crawlPhase (repo : string) (depth : nat) : M Tree.TreeNode :=
  modify (withAnalyses (Store.set analysisId freshAnalysis)) ;;
  fileTree <- Crawler.crawl repo (contents env) analysisId depth ;;
  modify (withAnalyses (completeProgress analysisId depth)) ;;
  ret fileTree.

(** What follows the crawl when it was not cancelled. *)
Definition reportPhase (url owner repo : string) (depth : Z) (fileTree : Tree.TreeNode)
  : M Response :=
  let actualDepthReached := Z.min (Tree.calculateActualDepth 1 fileTree) depth in
  suspend ;; suspend ;;
  let totalCounts := Reconciler.totalCounts (totalsTree env) fileTree in
  suspend ;; suspend ;;
  let realDepth := Reconciler.realRepositoryDepth (depthTree env) actualDepthReached in
  let analyzedCounts := Tree.countAnalyzed fileTree in
  let files := Z.min (fst analyzedCounts) (fst totalCounts) in
  let folders := Z.min (snd analyzedCounts) (snd totalCounts) in
  let finalActualDepth := Z.min actualDepthReached realDepth in
  (* the README and package.json requests, whose results only go
     into the response *)
  suspend ;; suspend ;;
  saveRepository user url fileTree
    {| Repository.analyzedFiles := files;
       Repository.analyzedFolders := folders;
       Repository.totalFiles := fst totalCounts;
       Repository.totalFolders := snd totalCounts;
       Repository.analyzedDepth := finalActualDepth;
       Repository.totalDepth := realDepth;
       Repository.totalSize := Tree.calculateTotalSize fileTree |} ;;
  incrementAnalyses (statisticsFailure env) ;;
  modify (withAnalyses (Store.delete analysisId)) ;;
  ret (Analyzed owner repo fileTree
         {| configMaxDepth := depth;
            actualDepth := finalActualDepth;
            analyzedFiles := files;
            analyzedFolders := folders;
            totalFiles := fst totalCounts;
            totalFolders := snd totalCounts;
            realRepositoryDepth := realDepth;
            wasTruncated := depth <? realDepth |}).

(** The body of the route's [try]. *)
Definition attempt : M Response :=
  match repoUrl body with
  | None | Some EmptyString => ret (Json 400 "Repository URL is required" None None)
  | Some url =>
      let depth := Depth.clampDepth (maxDepth body) in
      match Parser.parseGitHubUrl url with
      | None => ret (Json 400 "Invalid GitHub URL" None None)
      | Some (owner, repo) =>
          validateRepositoryExists owner repo (repository env) ;;
          fileTree <- crawlPhase repo (Z.to_nat depth) ;;
          wasCancelled <- gets (fun w =>
                            match Store.get analysisId (activeAnalyses w) with
                            | Some a => Store.cancelled a
                            | None => false
                            end) ;;
          if (wasCancelled : bool) then
            modify (withAnalyses (Store.delete analysisId)) ;;
            ret (Json 499 "Analysis cancelled by user" None None)
          else reportPhase url owner repo depth fileTree
      end
  end.

(** [router.post('/analyze')] *)
Definition analyze : M Response :=
  tryCatch attempt
    (fun error =>
       modify (withAnalyses (Store.deleteFirstOf user)) ;;
       ret (errorResponse error)).

End Route.

End Analyze.

(** ** Predicates of the statements *)

Module Props.
Import Js.

(** An entry of the table of active analyses is one of [user]. *)
Definition ofUser (user : string) (entry : string * Store.Analysis) : bool :=
  startsWith (fst entry) user.

Definition cancelEntry (user : string) (entry : string * Store.Analysis)
  : string * Store.Analysis :=
  if ofUser user entry then (fst entry, Store.markCancelled (snd entry)) else entry.

(** How the database in use reads an identifier of the request. *)
Definition readsAs (d : Repository.Database) (s : string) : option Z :=
  match d with
  | Repository.UsingFallback _ => parseInt s
  | Repository.UsingMongo db => Repository.newObjectId db s
  end.

(** The record named [id] exists and belongs to [user]. *)
Definition belongsTo (d : Repository.Database) (user id : string) : Prop :=
  exists k u, readsAs d id = Some k /\ readsAs d user = Some u /\
              In (k, Some u) (Repository.owners d).

Definition usesFallback (d : Repository.Database) : bool :=
  match d with
  | Repository.UsingFallback _ => true
  | Repository.UsingMongo _ => false
  end.

(** *** Runs *)

(** Every value [m] returns satisfies [Q]. *)
Definition returns {A} (m : Run.M A) (Q : A -> Prop) : Prop :=
  forall w a w', m w = (Run.Ok a, w') -> Q a.

(** [m] never runs out of fuel. *)
Definition terminates {A} (m : Run.M A) : Prop :=
  forall w, fst (m w) <> Run.OutOfFuel.

(** *** Trees *)

(** No depth recorded on the node exceeds [d]. *)
Definition withinBound (d : nat) (n : Tree.TreeNode) : Prop :=
  forall k, Tree.depth n = Some k \/ Tree.actualDepth n = Some k -> (k <= d)%nat.

(** A folder at depth [d] is truncated and has no children. *)
Definition truncatedAtBound (d : nat) (n : Tree.TreeNode) : Prop :=
  Tree.type n = Tree.folder ->
  Tree.depth n = Some d \/ Tree.actualDepth n = Some d ->
  Tree.truncated n = true /\ Tree.children n = [].

Definition truncatedIsLeaf (n : Tree.TreeNode) : Prop :=
  Tree.truncated n = true -> Tree.children n = [].

Definition shaped (d : nat) (n : Tree.TreeNode) : Prop :=
  withinBound d n /\ truncatedAtBound d n /\ truncatedIsLeaf n.

(** What a call of the crawler at [depth] returns, under the bound
    [d]. *)
Definition crawled (d depth : nat) (t : Tree.TreeNode) : Prop :=
  Forall (shaped d) (Tree.nodes t) /\
  (Tree.actualDepth t = None \/ Tree.actualDepth t = Some depth) /\
  (depth = d -> Tree.truncated t = true /\ Tree.children t = []).

(** The nodes below the root. *)
Definition descendants (t : Tree.TreeNode) : list Tree.TreeNode :=
  flat_map Tree.nodes (Tree.children t).

(** The name of the node passes the crawler's filter. *)
Definition kept (n : Tree.TreeNode) : Prop :=
  Denylist.shouldSkip (Tree.name n) = false.

(** *** Listings that fail *)

(** GitHub answers the listing with 404 or 403. *)
Definition refused (answer : Api.Fetch (list Api.Item)) : Prop :=
  exists status statusText items,
    answer = Api.Responded status statusText items /\ (status = 404 \/ status = 403).

(** GitHub answers the listing with a status below 400, 404 or 403. *)
Definition answered (answer : Api.Fetch (list Api.Item)) : Prop :=
  exists status statusText items,
    answer = Api.Responded status statusText items /\
    (status < 400 \/ status = 404 \/ status = 403).

(** A folder whose listing is refused has no children. *)
Definition degraded (listing : string -> Api.Fetch (list Api.Item)) (n : Tree.TreeNode)
  : Prop :=
  forall p, Tree.type n = Tree.folder -> Tree.path n = Some p ->
            refused (listing p) -> Tree.children n = [].

Definition isPoll (r : Store.Request) : bool :=
  match r with
  | Store.ProgressRequest _ => true
  | Store.CancelRequest _ _ => false
  | Store.FailedAnalyzeRequest _ => false
  end.

(** A request served by its own handler alone: a cancel request or a
    progress poll. *)
Definition isClient (r : Store.Request) : bool :=
  match r with
  | Store.FailedAnalyzeRequest _ => false
  | _ => true
  end.

(** No other analyze request fails while this world runs: only cancel
    requests and progress polls are on their way. *)
Definition undisturbed (w : Run.World) : Prop :=
  Forall (Forall (fun r => isClient r = true)) (Run.incoming w).

(** The request is not the failure of an analyze request of a user
    whose id the key [id] begins with. *)
Definition spares (id : string) (r : Store.Request) : bool :=
  match r with
  | Store.FailedAnalyzeRequest user => negb (startsWith id user)
  | _ => true
  end.

(** No analyze request whose cleanup would hit the entry [id] fails
    while this world runs. *)
Definition unswept (id : string) (w : Run.World) : Prop :=
  Forall (Forall (fun r => spares id r = true)) (Run.incoming w).

(** The analysis is not cancelled and no cancel request is on its way. *)
Definition quiet (analysisId : string) (w : Run.World) : Prop :=
  Crawler.isCancelled analysisId w = false /\
  Forall (Forall (fun r => isPoll r = true)) (Run.incoming w).

(** From a world satisfying [I], [m] returns a value and [I] holds
    again. *)
Definition succeeds {A} (I : Run.World -> Prop) (m : Run.M A) : Prop :=
  forall w, I w -> exists a w', m w = (Run.Ok a, w') /\ I w'.

(** *** Progress *)

(** The percentage a poll reads from an entry. *)
Definition progressOf (a : Store.Analysis) : Z := Store.orZero (Store.progress a).

(** The second table holds the entries of the first, under the same
    keys and in the same order, none with a lower percentage, and
    possibly more entries after them. *)
Inductive tableLe : Store.Table -> Store.Table -> Prop :=
| tableLe_nil t' : tableLe [] t'
| tableLe_cons id a a' t t' :
    progressOf a <= progressOf a' -> tableLe t t' ->
    tableLe ((id, a) :: t) ((id, a') :: t').

(** The percentages the polls of [user] were answered with, in order. *)
Definition polled (user : string) (log : list (Store.Request * Store.Reply)) : list Z :=
  flat_map (fun entry =>
              match entry with
              | (Store.ProgressRequest u, Store.ProgressReply p _ _ _) =>
                  if (u =? user)%string then [p] else []
              | _ => []
              end) log.

(** [p] is not below what the reply shows, if it shows an analysis. *)
Definition atLeast (r : Store.Reply) (p : Z) : Prop :=
  match r with
  | Store.ProgressReply q _ _ _ => q <= p
  | _ => True
  end.

(** The reply shows an analysis, at a percentage that is not below [p]. *)
Definition atMost (r : Store.Reply) (p : Z) : Prop :=
  match r with
  | Store.ProgressReply q _ _ _ => p <= q
  | _ => False
  end.

Definition pollOf (user : string) (w : Run.World) : Store.Reply :=
  Store.analysisProgress user (Run.activeAnalyses w).

(** From [w] to [w'] no entry was lost or went back, and the polls
    answered in between saw percentages that never decreased, between
    what [w] and [w'] show. *)
Definition advances (w w' : Run.World) : Prop :=
  tableLe (Run.activeAnalyses w) (Run.activeAnalyses w') /\
  exists new,
    Run.replies w' = (Run.replies w ++ new)%list /\
    forall user,
      StronglySorted Z.le (polled user new) /\
      Forall (fun p => atLeast (pollOf user w) p /\ atMost (pollOf user w') p)
             (polled user new).

(** The same for the polls alone, whatever became of the table. *)
Definition reports (w w' : Run.World) : Prop :=
  exists new,
    Run.replies w' = (Run.replies w ++ new)%list /\
    forall user,
      StronglySorted Z.le (polled user new) /\
      Forall (atLeast (pollOf user w)) (polled user new).

(** What the table shows for one key. *)
Definition shown (id : string) (w : Run.World) : option Z :=
  option_map progressOf (Store.get id (Run.activeAnalyses w)).

(** Every run of [m] from a world satisfying [I] advances to a world
    satisfying [J], however it ends. *)
Definition leads {A} (I : Run.World -> Prop) (m : Run.M A) (J : Run.World -> Prop)
  : Prop :=
  forall w o w', I w -> m w = (o, w') -> J w' /\ advances w w'.

(** Every run of [m] from a world satisfying [I] reports. *)
Definition ends {A} (I : Run.World -> Prop) (m : Run.M A) : Prop :=
  forall w o w', I w -> m w = (o, w') -> reports w w'.

(** The invariants of a run during which no other analyze request
    fails: nothing more; *)
Definition anyWorld (w : Run.World) : Prop := undisturbed w.

(** the entry of the analysis, if there is one, shows at most 100; *)
Definition bounded (analysisId : string) (w : Run.World) : Prop :=
  undisturbed w /\
  forall a, Store.get analysisId (Run.activeAnalyses w) = Some a -> progressOf a <= 100.

(** the table has no entry under this key. *)
Definition fresh (analysisId : string) (w : Run.World) : Prop :=
  undisturbed w /\ Store.get analysisId (Run.activeAnalyses w) = None.

(** *** Counts *)

(** The analyzed counts of a successful response are those of its
    tree, cut down to the totals. *)
Definition clamped (r : Analyze.Response) : Prop :=
  match r with
  | Analyze.Analyzed _ _ fileTree config =>
      Analyze.analyzedFiles config
      = Z.min (fst (Tree.countAnalyzed fileTree)) (Analyze.totalFiles config) /\
      Analyze.analyzedFolders config
      = Z.min (snd (Tree.countAnalyzed fileTree)) (Analyze.totalFolders config)
  | Analyze.Json _ _ _ _ => True
  end.

(** *** Identifiers and URLs *)

Fixpoint allChars (p : ascii -> bool) (s : string) : bool :=
  match s with
  | String c s' => p c && allChars p s'
  | EmptyString => true
  end.

Definition firstChar (s : string) : option ascii :=
  match s with
  | String c _ => Some c
  | EmptyString => None
  end.

Fixpoint lastChar (s : string) : option ascii :=
  match s with
  | String c EmptyString => Some c
  | String _ s' => lastChar s'
  | EmptyString => None
  end.

(** A non-empty name made of allowed characters that starts and ends
    with a letter or a digit. *)
Definition identifier (allowed : ascii -> bool) (s : string) : Prop :=
  allChars allowed s = true /\
  (exists c, firstChar s = Some c /\ isAlnum c = true) /\
  (exists c, lastChar s = Some c /\ isAlnum c = true).

(** What may follow the repository segment: nothing, a slash or white
    space. *)
Definition boundary (post : string) : Prop :=
  match post with
  | String c _ => Parser.isSegChar c = false
  | EmptyString => True
  end.

(** The cleaned URL holds the marker followed by an owner segment, a
    slash and a repository segment that ends at a boundary, both of
    them identifiers. *)
Definition wellFormed (url owner repo : string) : Prop :=
  exists pre post,
    Parser.cleanUrl url = pre ++ Parser.marker ++ owner ++ "/" ++ repo ++ post /\
    boundary post /\
    identifier Parser.isOwnerChar owner /\ identifier Parser.isRepoChar repo.

(** The text after the first marker. *)
Fixpoint afterMarker (s : string) : option string :=
  match stripPrefix Parser.marker s with
  | Some rest => Some rest
  | None =>
      match s with
      | String _ s' => afterMarker s'
      | EmptyString => None
      end
  end.

(** The reading of the specification: the path after the marker
    consists of exactly two non-empty segments. *)
Definition exactlyTwoSegments (url : string) : bool :=
  match afterMarker (Parser.cleanUrl url) with
  | Some rest =>
      match split "/" rest with
      | [a; b] => negb (a =? "")%string && negb (b =? "")%string
      | _ => false
      end
  | None => false
  end.

End Props.

(** ** Sample repositories and requests *)

Module Samples.
Import Api Run.

Definition entry (name path type : string) : Item :=
  {| name := name; path := path; type := type; download_url := None; size := Some 1 |}.

Definition ok (items : list Item) : Fetch (list Item) := Responded 200 "OK" items.

(** A source folder, a vendored folder, and a folder GitHub refuses
    to list. *)
Definition smallRepo (p : string) : Fetch (list Item) :=
  if (p =? "")%string then
    ok [entry "README.md" "README.md" "file"; entry "src" "src" "dir";
        entry "node_modules" "node_modules" "dir"]
  else if (p =? "src")%string then
    ok [entry "main.ts" "src/main.ts" "file"; entry "private" "src/private" "dir"]
  else if (p =? "src/private")%string then Responded 404 "Not Found" []
  else ok [].

(** One folder, answered with the given status. *)
Definition docsAnswered (status : Z) (statusText : string) (p : string)
  : Fetch (list Item) :=
  if (p =? "")%string then ok [entry "docs" "docs" "dir"; entry "LICENSE" "LICENSE" "file"]
  else Responded status statusText [].

(** [docs/login.md] and nothing else. *)
Definition loginRepo (p : string) : Fetch (list Item) :=
  if (p =? "")%string then ok [entry "docs" "docs" "dir"]
  else if (p =? "docs")%string then ok [entry "login.md" "docs/login.md" "file"]
  else Responded 404 "Not Found" [].

Definition loginTree : list FlatItem :=
  [ {| flatPath := "docs"; flatType := "tree" |};
    {| flatPath := "docs/login.md"; flatType := "blob" |} ].

(** [index.js] next to a committed [node_modules/a.js]. *)
Definition vendoredRepo (p : string) : Fetch (list Item) :=
  if (p =? "")%string then
    ok [entry "index.js" "index.js" "file"; entry "node_modules" "node_modules" "dir"]
  else if (p =? "node_modules")%string then
    ok [entry "a.js" "node_modules/a.js" "file"]
  else Responded 404 "Not Found" [].

Definition vendoredTree : list FlatItem :=
  [ {| flatPath := "index.js"; flatType := "blob" |};
    {| flatPath := "node_modules"; flatType := "tree" |};
    {| flatPath := "node_modules/a.js"; flatType := "blob" |} ].

Definition emptyStore : Repository.Database :=
  Repository.UsingFallback {| Repository.repositories := []; Repository.repoIdCounter := 1 |}.

(** An empty table; [arrivals] are the requests served at the
    successive suspension points. *)
Definition world (arrivals : list (list Store.Request)) : World :=
  {| activeAnalyses := []; incoming := arrivals; replies := []; database := emptyStore |}.

Definition github (listing : string -> Fetch (list Item)) (flat : option (list FlatItem))
  : Env :=
  {| repository := Responded 200 "OK" {| repoSize := 12; default_branch := Some "main" |};
     contents := listing; totalsTree := flat; depthTree := flat;
     statisticsFailure := None |}.

Definition request (url : string) (depth : string) : Analyze.Body :=
  {| Analyze.repoUrl := Some url; Analyze.maxDepth := Some depth |}.

(** A poll at every suspension point of a five-request run. *)
Definition polls : list (list Store.Request) :=
  repeat [Store.ProgressRequest "7"] 5.

(** A cancel request that arrives while the root listing is fetched. *)
Definition cancelDuringRoot : list (list Store.Request) :=
  [[]; [Store.CancelRequest "7" None]].

(** An ObjectId and an empty MongoDB collection. *)
Definition someUser : string := "0123456789abcdef01234567".

Definition emptyCollection : Repository.Database :=
  Repository.UsingMongo {| Repository.documents := []; Repository.nextId := 0;
                           Repository.newObjectId := Repository.hexObjectId |}.

(** The in-memory store with one record, number 3, of user 8. *)
Definition leaf : Tree.TreeNode :=
  {| Tree.name := "b"; Tree.type := Tree.folder; Tree.path := None; Tree.children := [];
     Tree.download_url := None; Tree.size := None; Tree.depth := Some 0%nat;
     Tree.actualDepth := Some 0%nat; Tree.maxDepth := Some 5%nat;
     Tree.truncated := false; Tree.message := None; Tree.error := None |}.

Definition recordOfUser8 : Repository.Database :=
  Repository.UsingFallback
    {| Repository.repositories :=
         [(3, {| Repository.id := Some 3; Repository.user_id := Some 8;
                 Repository.repo_url := "https://github.com/a/b";
                 Repository.repo_data := leaf; Repository.repo_stats := None |})];
       Repository.repoIdCounter := 4 |}.

End Samples.

(** ** Predicates on URLs *)

Module Urls.
Import Js.

(** [s] ends with [suf]. *)
Fixpoint endsWith (s suf : string) : bool :=
  (s =? suf)%string ||
  match s with
  | String _ s' => endsWith s' suf
  | EmptyString => false
  end.

(** No character of [s] is the letter g, the first of the marker. *)
Definition noMarkerStart (s : string) : bool :=
  Props.allChars (fun c => negb (c =? "g")%char) s.

(** [s] is not empty and has no white space at either end. *)
Definition trimmed (s : string) : Prop :=
  s <> "" /\ trimStart s = s /\ trimEnd s = s.

(** The pattern of the parser is found in [s] after [pre]: the marker,
    a non-empty owner segment, a slash and a non-empty repository
    segment that goes on to a slash, to white space or to the end. *)
Definition segmentsAt (s pre owner repo post : string) : Prop :=
  s = pre ++ Parser.marker ++ owner ++ "/" ++ repo ++ post /\
  owner <> "" /\ repo <> "" /\
  Props.allChars Parser.isSegChar owner = true /\
  Props.allChars Parser.isSegChar repo = true /\
  Props.boundary post.

(** The first place in [s] where the pattern is found. *)
Definition leftmost (s pre owner repo post : string) : Prop :=
  segmentsAt s pre owner repo post /\
  forall pre' owner' repo' post',
    segmentsAt s pre' owner' repo' post' -> (String.length pre <= String.length pre')%nat.

(** A malformed address: the cleaned text holds nowhere the marker
    followed by two non-empty segments, or where it first does, the
    owner or the repository segment has a character that is not
    allowed or does not begin and end with a letter or a digit. *)
Definition malformed (url : string) : Prop :=
  (forall pre owner repo post, ~ segmentsAt (Parser.cleanUrl url) pre owner repo post) \/
  (exists pre owner repo post,
      leftmost (Parser.cleanUrl url) pre owner repo post /\
      ~ (Props.identifier Parser.isOwnerChar owner /\
         Props.identifier Parser.isRepoChar repo)).

End Urls.

(** ** Measures of a tree *)

Module Shape.

Definition isFile (n : Tree.TreeNode) : bool :=
  match Tree.type n with
  | Tree.file => true
  | Tree.folder => false
  end.

(** The file nodes of the tree. *)
Definition fileCount (t : Tree.TreeNode) : Z :=
  Z.of_nat (List.length (filter isFile (Tree.nodes t))).

(** The folder nodes below the root. *)
Definition folderCount (t : Tree.TreeNode) : Z :=
  Z.of_nat (List.length (filter (fun n => negb (isFile n)) (Props.descendants t))).

(** The size a file node carries, 0 for anything else. *)
Definition fileSize (n : Tree.TreeNode) : Z :=
  match Tree.type n, Tree.size n with
  | Tree.file, Some k => k
  | _, _ => 0
  end.

Definition sum (l : list Z) : Z := fold_right Z.add 0 l.

(** Below a node the crawler returned at [depth] there are at most
    [maxDepth - depth] levels. *)
Definition shallow (maxDepth depth : nat) (t : Tree.TreeNode) : Prop :=
  forall c, c <= Tree.calculateActualDepth c t <= c + Z.of_nat (maxDepth - depth).

(** No file node has children. *)
Definition filesAreLeaves (t : Tree.TreeNode) : Prop :=
  Forall (fun n => Tree.type n = Tree.file -> Tree.children n = []) (Tree.nodes t).

End Shape.

(** ** Pre- and postconditions of runs *)

Module Logic.
Import Js Api Run.

(** From a world satisfying [P], a run of [m] that returns [a] ends in
    a world satisfying [Qok a], and one that throws in a world
    satisfying [Qthrow]. *)
Definition triple {A} (P : World -> Prop) (m : M A)
           (Qok : A -> World -> Prop) (Qthrow : World -> Prop) : Prop :=
  forall w o w', P w -> m w = (o, w') ->
    match o with
    | Ok a => Qok a w'
    | Throw _ => Qthrow w'
    | OutOfFuel => True
    end.

(** [I] holds after every run of [m] that starts where it holds. *)
Definition keeps {A} (I : World -> Prop) (m : M A) : Prop :=
  triple I m (fun _ => I) I.

(** The keys of the table of active analyses, in order. *)
Definition keys (w : World) : list string := map fst (activeAnalyses w).

(** No key is one of [user]. *)
Definition noneOf (user : string) (ks : list string) : Prop :=
  Forall (fun k => startsWith k user = false) ks.

(** The world with other pending requests. *)
Definition withIncoming (l : list (list Store.Request)) (w : World) : World :=
  {| activeAnalyses := activeAnalyses w; incoming := l;
     replies := replies w; database := database w |}.

(** The table has an entry under [id], and it is cancelled. *)
Definition cancelledEntry (id : string) (w : World) : Prop :=
  exists a, Store.get id (activeAnalyses w) = Some a /\ Store.cancelled a = true.

(** The statistics the analyze route stores with a tree. *)
Definition statsOf (fileTree : Tree.TreeNode) (config : Analyze.AnalysisConfig)
  : Repository.Stats :=
  {| Repository.analyzedFiles := Analyze.analyzedFiles config;
     Repository.analyzedFolders := Analyze.analyzedFolders config;
     Repository.totalFiles := Analyze.totalFiles config;
     Repository.totalFolders := Analyze.totalFolders config;
     Repository.analyzedDepth := Analyze.actualDepth config;
     Repository.totalDepth := Analyze.realRepositoryDepth config;
     Repository.totalSize := Tree.calculateTotalSize fileTree |}.

(** The metadata lookup is answered in a way the validation turns into
    [Repository ... not found], [is empty] or [has no default branch]. *)
Definition notAnalyzable (answer : Fetch RepoData) : Prop :=
  match answer with
  | Responded status _ data =>
      status = 404 \/
      (status < 400 /\
       (repoSize data = 0 \/ default_branch data = None \/ default_branch data = Some ""))
  | Failed _ => False
  end.

(** What the database holds after a request answered with [resp], when
    it held [d] before: after a success, [d] with the record of the
    reported tree and statistics added; after anything else, [d]. *)
Definition saved (user : string) (url : option string) (d : Repository.Database)
           (resp : Analyze.Response) (w : World) : Prop :=
  match resp, url with
  | Analyze.Analyzed _ _ fileTree config, Some u =>
      Repository.create user u fileTree (Some (statsOf fileTree config)) d
      = (Repository.Returned tt, database w)
  | Analyze.Analyzed _ _ _ _, None => False
  | Analyze.Json _ _ _ _, _ => database w = d
  end.

(** What a success answer says about depths: the depth asked for is
    within 1..20, the depth reached is neither above it nor above the
    depth of the repository, and the analysis counts as truncated
    exactly when the repository is deeper than what was asked for. *)
Definition depthsAgree (resp : Analyze.Response) : Prop :=
  match resp with
  | Analyze.Analyzed _ _ fileTree config =>
      1 <= Analyze.configMaxDepth config <= 20 /\
      0 <= Analyze.actualDepth config <= Analyze.configMaxDepth config /\
      Analyze.actualDepth config <= Analyze.realRepositoryDepth config /\
      (Analyze.wasTruncated config = true
       <-> Analyze.configMaxDepth config < Analyze.realRepositoryDepth config)
  | Analyze.Json _ _ _ _ => True
  end.

(** What a success answer says when neither listing of the reconciler
    could be fetched: the totals are the counts of the crawled tree,
    the depth of the repository is the depth reached, and nothing
    counts as truncated. *)
Definition fallsBack (resp : Analyze.Response) : Prop :=
  match resp with
  | Analyze.Analyzed _ _ fileTree config =>
      (Analyze.totalFiles config, Analyze.totalFolders config) = Tree.countAnalyzed fileTree /\
      (Analyze.analyzedFiles config, Analyze.analyzedFolders config)
      = Tree.countAnalyzed fileTree /\
      Analyze.realRepositoryDepth config = Analyze.actualDepth config /\
      Analyze.wasTruncated config = false
  | Analyze.Json _ _ _ _ => True
  end.

End Logic.

(** ** Further sample requests *)

Module Cases.
Import Api Run Samples.

(** The table while user 8 has an analysis running. *)
Definition busy (arrivals : list (list Store.Request)) : World :=
  {| activeAnalyses := [("8-1699999999999", Analyze.freshAnalysis)];
     incoming := arrivals; replies := []; database := emptyStore |}.

(** GitHub does not know the repository. *)
Definition unknown : Env :=
  {| repository := Responded 404 "Not Found" {| repoSize := 0; default_branch := None |};
     contents := fun _ => Responded 404 "Not Found" [];
     totalsTree := None; depthTree := None; statisticsFailure := None |}.

Definition address : string := "https://github.com/a/b".

(** A folder [a] that holds a folder [b], next to a folder [c]. *)
Definition nestedRepo (p : string) : Fetch (list Item) :=
  if (p =? "")%string then ok [entry "a" "a" "dir"; entry "c" "c" "dir"]
  else if (p =? "a")%string then ok [entry "b" "a/b" "dir"]
  else ok [].

(** User 7 polls and another analyze request of user 7 fails while
    the listing of [a/b] is fetched; user 7 polls again while the
    listing of [c] is fetched. *)
Definition failureAtDepthTwo : list (list Store.Request) :=
  [[]; []; [];
   [Store.ProgressRequest "7"; Store.FailedAnalyzeRequest "7"];
   [Store.ProgressRequest "7"]].

End Cases.

(** ** Listings and what is kept of them *)

Module Listing.
Import Js Api.

(** The words of the star patterns [*.log], [*.lock] and [*.map]. *)
Definition starWords : list string := ["log"; "lock"; "map"].

(** The entries of a [contents] listing the crawler keeps. *)
Definition keptItems (items : list Item) : list Item :=
  filter (fun item => negb (Denylist.shouldSkip (name item))) items.

Definition kindOf (item : Item) : Tree.Kind :=
  if (type item =? "dir")%string then Tree.folder else Tree.file.

(** What a node of the tree takes from the entry it was made from. *)
Definition ofItem (item : Item) : string * Tree.Kind * option string :=
  (name item, kindOf item, Some (path item)).

Definition ofNode (n : Tree.TreeNode) : string * Tree.Kind * option string :=
  (Tree.name n, Tree.type n, Tree.path n).

(** The annotation of a folder whose listing is refused. *)
Definition refusal (status : Z) : string :=
  if status =? 404 then "Directory not found or access denied"
  else "Rate limit exceeded or access denied".

Section Built.
Variable repo : string.
Variable listing : string -> Fetch (list Item).
Variable maxDepth : nat.

(** The tree the listings determine for the directory [p] at [depth]:
    cut off at the depth bound; childless when the listing is refused
    with 404 or 403; and otherwise one node for each entry of the
    listing that the filter keeps, in the order of the listing, a
    folder entry with the children of the tree of its own directory
    one level down. *)
Inductive built : string -> nat -> Tree.TreeNode -> Prop :=
| built_truncated p depth :
    (maxDepth <= depth)%nat ->
    built p depth (Crawler.truncatedNode repo maxDepth p depth)
| built_refused p depth status statusText items :
    (depth < maxDepth)%nat ->
    listing p = Responded status statusText items ->
    status = 404 \/ status = 403 ->
    built p depth (Crawler.errorNode repo p depth (refusal status))
| built_listed p depth status statusText items children :
    (depth < maxDepth)%nat ->
    listing p = Responded status statusText items ->
    status < 400 ->
    Forall2 (fun item child =>
               ((type item =? "dir")%string = true /\
                exists subTree,
                  built (path item) (depth + 1) subTree /\
                  child = Crawler.folderNode maxDepth item depth subTree) \/
               ((type item =? "dir")%string = false /\
                child = Crawler.fileNode maxDepth item depth))
            (keptItems items) children ->
    built p depth (Crawler.listingNode repo maxDepth p depth children).

End Built.

(** What the node made for the directory [p], crawled at [depth],
    shows of the listing of [p]: at the depth bound it is cut off;
    within the bound it is never cut off, it has no children when the
    listing is refused, and when the listing is answered with data it
    has one child for each kept entry, in the order of the listing. *)
Definition reflects (listing : string -> Fetch (list Item)) (maxDepth : nat)
           (p : string) (depth : nat) (n : Tree.TreeNode) : Prop :=
  ((maxDepth <= depth)%nat -> Tree.truncated n = true /\ Tree.children n = []) /\
  ((depth < maxDepth)%nat ->
   forall status statusText items,
     listing p = Responded status statusText items ->
     (status = 404 \/ status = 403 ->
      Tree.truncated n = false /\ Tree.children n = []) /\
     (status < 400 ->
      Tree.truncated n = false /\
      map ofNode (Tree.children n) = map ofItem (keptItems items))).

(** A folder node below the root records its path and the depth at
    which its directory was crawled: it shows the listing of that
    path. *)
Definition faithful (listing : string -> Fetch (list Item)) (maxDepth : nat)
           (n : Tree.TreeNode) : Prop :=
  forall p,
    Tree.type n = Tree.folder -> Tree.path n = Some p ->
    exists k, Tree.depth n = Some k /\ (1 <= k)%nat /\ reflects listing maxDepth p k n.

(** The entries of the flat listing the reconciler counts. *)
Definition keptBlob (item : FlatItem) : bool :=
  negb (Denylist.shouldSkipPath (flatPath item)) && (flatType item =? "blob")%string.

Definition keptTree (item : FlatItem) : bool :=
  negb (Denylist.shouldSkipPath (flatPath item)) &&
  ((flatType item =? "tree")%string && negb (flatPath item =? "")%string).

(** The level of an entry: the root is level 1. *)
Definition level (item : FlatItem) : Z :=
  Z.of_nat (List.length (split "/" (flatPath item))) + 1.

Definition count (p : FlatItem -> bool) (tree : list FlatItem) : Z :=
  Z.of_nat (List.length (filter p tree)).

End Listing.

(** ** The stored records *)

Module Records.
Import Js Repository.

(** [Repository.countDocuments] *)
Definition countDocuments (d : Database) : Z :=
  match d with
  | UsingFallback storage => Z.of_nat (List.length (repositories storage))
  | UsingMongo db => Z.of_nat (List.length (documents db))
  end.

(** The identifier the next record gets. *)
Definition nextKey (d : Database) : Z :=
  match d with
  | UsingFallback storage => repoIdCounter storage
  | UsingMongo db => nextId db
  end.

(** No stored record has the identifier the next one gets. *)
Definition unused (d : Database) : Prop := ~ In (nextKey d) (map fst (owners d)).

(** The records alone, without the counter. *)
Definition records (d : Database) : list (Z * Doc (option Z)) + list (Doc ObjectId) :=
  match d with
  | UsingFallback storage => inl (repositories storage)
  | UsingMongo db => inr (documents db)
  end.

End Records.

(** ** Retrying a request *)

Module Retry.
Import Api.

(** What one call of [fn] does. *)
Inductive Attempt (A : Type) := Resolved (a : A) | Rejected (e : Error).
Arguments Resolved {A}. Arguments Rejected {A}.

(** How the retried call ends; [Undefined] is the loop running out
    without a [return]. *)
Inductive Settled (A : Type) := Value (a : A) | Raised (e : Error) | Undefined.
Arguments Value {A}. Arguments Raised {A}. Arguments Undefined {A}.

(** The result, the number of calls of [fn] and the delays waited
    between them, in milliseconds. *)
Record Trace (A : Type) := {
  result : Settled A;
  calls : nat;
  waits : list Z
}.
Arguments result {A}. Arguments calls {A}. Arguments waits {A}.

(** [error.response?.status === 404 || error.response?.status === 403] *)
Definition refused (e : Error) : bool :=
  match responseStatus e with
  | Some status => (status =? 404) || (status =? 403)
  | None => false
  end.

(** The [for] loop from [attempt] on, with [remaining] iterations to
    go; [fn k] is what the [k]-th call of the function does. *)
Fixpoint loop {A} (fn : nat -> Attempt A) (maxRetries : nat) (baseDelay : Z)
         (remaining attempt : nat) : Trace A :=
  match remaining with
  | O => {| result := Undefined; calls := 0; waits := [] |}
  | S remaining' =>
      match fn attempt with
      | Resolved a => {| result := Value a; calls := 1; waits := [] |}
      | Rejected e =>
          if (attempt =? maxRetries)%nat then {| result := Raised e; calls := 1; waits := [] |}
          else if refused e then {| result := Raised e; calls := 1; waits := [] |}
          else
            let delay := baseDelay * 2 ^ Z.of_nat (attempt - 1) in
            let t := loop fn maxRetries baseDelay remaining' (S attempt) in
            {| result := result t; calls := S (calls t); waits := delay :: waits t |}
      end
  end.

(** [retryWithBackoff(fn, maxRetries = 3, baseDelay = 1000)], for a
    number of retries that is a natural number. *)
Definition retryWithBackoff {A} (fn : nat -> Attempt A) (maxRetries : nat) (baseDelay : Z)
  : Trace A :=
  loop fn maxRetries baseDelay maxRetries 1.

(** The delay before the retry that follows the [k]-th failure. *)
Definition delayAfter (baseDelay : Z) (k : nat) : Z := baseDelay * 2 ^ Z.of_nat (k - 1).

(** How the trace ends, in terms of the calls of [fn]. *)
Definition settles {A} (fn : nat -> Attempt A) (maxRetries : nat) (t : Trace A) : Prop :=
  match result t with
  | Value a => fn (calls t) = Resolved a
  | Raised e => fn (calls t) = Rejected e /\ (calls t = maxRetries \/ refused e = true)
  | Undefined => maxRetries = O
  end.

End Retry.

(** ** The validate route *)

Module Validate.
Import Js Api Run.
Local Open Scope run_scope.

(** The answer of the route: an error, or the description of the
    repository (of which the default branch and the size are carried). *)
Inductive Response :=
| Json (status : Z) (message : string) (error : string)
| Exists (defaultBranch : string) (size : Z).

Definition statusOf (r : Response) : Z :=
  match r with
  | Json status _ _ => status
  | Exists _ _ => 200
  end.

(** The route's own [validateRepositoryExists]. *)
Definition validateRepositoryExists (owner repo : string) (answer : Fetch RepoData)
  : M RepoData :=
  tryCatch
    (response <- axiosGet answer ;;
     let '(status, statusText, repoData) := response in
     if status =? 404 then throw (newError (Analyze.notFoundMessage owner repo))
     else if status =? 403 then throw (newError (Analyze.accessDeniedMessage owner repo))
     else if 400 <=? status then
       throw (newError ("GitHub API error: " ++ showZ status ++ " " ++ statusText))
     else if repoSize repoData =? 0 then
       throw (newError (Analyze.repoLabel owner repo
                        ++ " is empty and has no content to download."))
     else
       match default_branch repoData with
       | Some (String _ _) => ret repoData
       | _ => throw (newError (Analyze.repoLabel owner repo
                               ++ " has no default branch and cannot be downloaded."))
       end)
    (fun error =>
       match responseStatus error with
       | Some 404 => throw (newError (Analyze.notFoundMessage owner repo))
       | Some 403 => throw (newError (Analyze.accessDeniedMessage owner repo))
       | _ => throw (newError ("Failed to validate repository: " ++ message error))
       end).

(** The answer of the route's [catch] to an exception. *)
Definition errorResponse (error : Error) : Response :=
  if includes (message error) "not found" || includes (message error) "Repository" then
    Json 404 (message error) "Repository not found or inaccessible"
  else if match responseStatus error, responseMessage error with
          | Some 403, Some m => includes m "rate limit"
          | _, _ => false
          end then
    Json 429 "GitHub API rate limit exceeded. Please try again later." "Rate limit exceeded"
  else if match code error with
          | Some c => existsb (String.eqb c) Analyze.networkCodes
          | None => false
          end then
    Json 503 "Network error. Please check your internet connection and try again."
         "Network error"
  else Json 500 "Failed to validate repository" (message error).

(** [router.post('/validate')] *)
Definition validate (body : Analyze.Body) (answer : Fetch RepoData) : M Response :=
  tryCatch
    (match Analyze.repoUrl body with
     | None | Some EmptyString =>
         ret (Json 400 "Repository URL is required" "Missing repository URL")
     | Some url =>
         match Parser.parseGitHubUrl url with
         | None => ret (Json 400 "Invalid GitHub URL" "Invalid URL format")
         | Some (owner, repo) =>
             repoInfo <- validateRepositoryExists owner repo answer ;;
             ret (Exists (match default_branch repoInfo with Some b => b | None => "" end)
                         (repoSize repoInfo))
         end
     end)
    (fun error => ret (errorResponse error)).

(** GitHub knows the repository, and it has content and a default
    branch. *)
Definition usable (answer : Fetch RepoData) : Prop :=
  match answer with
  | Responded status _ data =>
      status < 400 /\ repoSize data <> 0 /\
      exists c s, default_branch data = Some (String c s)
  | Failed _ => False
  end.

(** The address of the request names an owner and a repository. *)
Definition addressed (body : Analyze.Body) : Prop :=
  exists url owner repo,
    Analyze.repoUrl body = Some url /\ Parser.parseGitHubUrl url = Some (owner, repo).

End Validate.

(** ** A request whose statistics update fails *)

Module Orphans.
Import Api Run Samples.

(** The database holds what [d] held, or [d] with one record of the
    user added for the address. *)
Definition atMostStored (user : string) (url : option string) (d : Repository.Database)
           (w : World) : Prop :=
  database w = d \/
  exists u fileTree stats,
    url = Some u /\
    Repository.create user u fileTree (Some stats) d = (Repository.Returned tt, database w).

(** GitHub answers as for [listing], and the statistics update fails. *)
Definition uncounted (listing : string -> Fetch (list Item)) : Env :=
  {| repository := Responded 200 "OK" {| repoSize := 12; default_branch := Some "main" |};
     contents := listing; totalsTree := None; depthTree := None;
     statisticsFailure := Some (newError "statistics are unavailable") |}.

End Orphans.

(** ** Requests that do not concern an analysis *)

Module Bystanders.
Import Js Api Run.

(** A served request that cannot touch the entry [id]: a progress
    poll, or a cancel request or the failure of an analyze request of
    a user whose id the key does not begin with. *)
Definition harmless (id : string) (r : Store.Request) : bool :=
  match r with
  | Store.ProgressRequest _ => true
  | Store.CancelRequest user _ => negb (startsWith id user)
  | Store.FailedAnalyzeRequest user => negb (startsWith id user)
  end.

(** Only such requests are on their way. *)
Definition calm (id : string) (w : World) : Prop :=
  Forall (Forall (fun r => harmless id r = true)) (incoming w).

(** Two worlds with the same entry under [id] (or none) and the same
    database; the rest of the table, the requests on their way and the
    replies given so far may differ. *)
Definition alike (id : string) (w1 w2 : World) : Prop :=
  Store.get id (activeAnalyses w1) = Store.get id (activeAnalyses w2) /\
  database w1 = database w2 /\ calm id w1 /\ calm id w2.

Definition sameStore (w1 w2 : World) : Prop := database w1 = database w2.

(** From worlds related by [P], the two runs of [m] end the same way
    in worlds related by [Q]. *)
Definition agree {A} (P Q : World -> World -> Prop) (m : M A) : Prop :=
  forall w1 w2, P w1 w2 ->
    fst (m w1) = fst (m w2) /\ Q (snd (m w1)) (snd (m w2)).

End Bystanders.

(* ================================================================= *)
(** * Properties *)

Example parse_plain :
  Parser.parseGitHubUrl "https://github.com/rocq-prover/rocq" = Some ("rocq-prover", "rocq").
Proof. reflexivity. Qed.

Example parse_git_slash :
  Parser.parseGitHubUrl "  https://github.com/a/b.git/ " = Some ("a", "b").
Proof. reflexivity. Qed.

Example parse_tree :
  Parser.parseGitHubUrl "https://github.com/a/b/tree/main" = Some ("a", "b").
Proof. reflexivity. Qed.

Example parse_bad :
  Parser.parseGitHubUrl "https://github.com/a/b?x" = None.
Proof. reflexivity. Qed.

Example denylist_names :
  map Denylist.shouldSkip
      ["node_modules"; ".git"; ".gitignore"; "error.log"; "catalog.js"; "login.md"; "logs"]
  = [true; true; false; true; true; false; false].
Proof. reflexivity. Qed.

Example denylist_paths :
  map Denylist.shouldSkipPath
      ["node_modules"; "src/node_modules"; "node_modules/a.js"; "docs/login.md"]
  = [true; true; false; true].
Proof. reflexivity. Qed.

Example progress_by_depth :
  map (fun depth => Crawler.currentProgress depth 3) [0; 1; 2; 3]%nat
  = [Store.Fin 10; Store.Fin 37; Store.Fin 63; Store.Fin 90].
Proof. reflexivity. Qed.

Example clamp_examples :
  map Depth.clampDepth [None; Some "0"; Some "-4"; Some "abc"; Some "7"; Some "0x1f"; Some "3.9"; Some "500"]
  = [15; 15; 1; 15; 7; 20; 3; 20].
Proof. reflexivity. Qed.

(** ** The depth clamp *)

Section DepthFacts.
Import Js Depth.

Lemma clampDepth_range (maxDepth : option string) : 1 <= clampDepth maxDepth <= 20.
Proof. unfold clampDepth. lia. Qed.

(** C9: whatever the client sends as [maxDepth] (missing, non-numeric,
    zero, negative, out of range), the depth the crawl is run with lies
    between 1 and 20. *)
Theorem clampDepth_bounds (maxDepth : option string) :
  1 <= clampDepth maxDepth <= 20 /\
  (1 <= Z.to_nat (clampDepth maxDepth) <= 20)%nat.
Proof.
  pose proof (clampDepth_range maxDepth) as H.
  split; [exact H | lia].
Qed.

(** The clamp leaves a parsed value between 1 and 20 alone and falls
    back to 15 for NaN and for 0. *)
Lemma clampDepth_value (v : string) :
  clampDepth (Some v) =
  match parseInt v with
  | Some n => if n =? 0 then 15 else Z.min (Z.max n 1) 20
  | None => 15
  end.
Proof.
  unfold clampDepth. destruct (parseInt v) as [[|p|p]|]; reflexivity.
Qed.

End DepthFacts.

(** ** The cancel handler *)

Section CancelFacts.
Import Js Store Props.

Lemma cancelLoop_table (user : string) (t : Table) (found : bool) :
  fst (cancelLoop user t found) = map (cancelEntry user) t.
Proof.
  revert found. induction t as [|[id a] t IH]; intros found; simpl; [reflexivity|].
  unfold cancelEntry, ofUser; simpl.
  destruct (startsWith id user).
  - specialize (IH true). destruct (cancelLoop user t true); simpl in *. now rewrite IH.
  - specialize (IH found). destruct (cancelLoop user t found); simpl in *. now rewrite IH.
Qed.

Lemma cancelLoop_flag (user : string) (t : Table) (found : bool) :
  snd (cancelLoop user t found) = found || existsb (ofUser user) t.
Proof.
  revert found. induction t as [|[id a] t IH]; intros found; simpl.
  - now rewrite orb_false_r.
  - unfold ofUser at 1; simpl. destruct (startsWith id user).
    + specialize (IH true). destruct (cancelLoop user t true); simpl in *.
      rewrite IH. now rewrite orb_true_r.
    + specialize (IH found). destruct (cancelLoop user t found); simpl in *.
      now rewrite IH.
Qed.

Lemma cancelAnalysis_table user analysisId t :
  fst (cancelAnalysis user analysisId t) = map (cancelEntry user) t.
Proof.
  unfold cancelAnalysis. rewrite <- (cancelLoop_table user t false).
  now destruct (cancelLoop user t false).
Qed.

(** C10: the cancel handler does not look at the [analysisId] of the
    request body; it sets [cancelled] on every entry of the table whose
    key starts with the id of the requesting user and on no other, and
    it answers [cancelled = false] exactly when the table has no such
    entry. *)
Theorem cancel_every_analysis_of_user (user : string) (analysisId : option string) (t : Table) :
  (forall other, cancelAnalysis user other t = cancelAnalysis user analysisId t) /\
  fst (cancelAnalysis user analysisId t)
  = map (fun entry => if startsWith (fst entry) user
                      then (fst entry, markCancelled (snd entry)) else entry) t /\
  (forall a, cancelled (markCancelled a) = true /\ progress (markCancelled a) = progress a) /\
  exists message flag,
    snd (cancelAnalysis user analysisId t) = CancelReply message flag /\
    (flag = false <-> forall id a, In (id, a) t -> startsWith id user = false).
Proof.
  split; [reflexivity|]. split; [apply cancelAnalysis_table|].
  split; [intros a; split; reflexivity|].
  unfold cancelAnalysis.
  pose proof (cancelLoop_flag user t false) as Hf.
  destruct (cancelLoop user t false) as [t' flag]; simpl in *.
  eexists; exists flag; split; [reflexivity|].
  rewrite Hf. split.
  - intros Hex id a Hin.
    destruct (startsWith id user) eqn:E; [|reflexivity].
    assert (existsb (ofUser user) t = true)
      by (apply existsb_exists; exists (id, a); split; [exact Hin | exact E]).
    congruence.
  - intros Hall. apply not_true_is_false. intros Hex.
    apply existsb_exists in Hex. destruct Hex as [[id a] [Hin Hu]].
    unfold ofUser in Hu; simpl in Hu. rewrite (Hall id a Hin) in Hu. discriminate.
Qed.

End CancelFacts.

(** ** Deleting a saved repository *)

Section DeleteFacts.
Import Js Repository Props Samples.

Lemma mapGet_In {V} (k : Z) (m : list (Z * V)) (v : V) :
  mapGet k m = Some v -> In (k, v) m.
Proof.
  induction m as [|[k' v'] m IH]; simpl; [discriminate|].
  destruct (Z.eqb_spec k' k); intros H.
  - injection H as ->. subst. now left.
  - right. auto.
Qed.

Lemma deleteOne_count (_id uid : ObjectId) (docs : list (Doc ObjectId)) :
  let r := deleteOne _id uid docs in
  (snd r = 0 /\ fst r = docs) \/
  (snd r = 1 /\ exists doc, In doc docs /\ id doc = _id /\ user_id doc = uid).
Proof.
  induction docs as [|d docs IH]; simpl; [left; auto|].
  destruct ((id d =? _id) && (user_id d =? uid)) eqn:E.
  - right. split; [reflexivity|]. apply andb_prop in E. destruct E as [E1 E2].
    exists d. repeat split; [now left | lia | lia].
  - destruct (deleteOne _id uid docs) as [r n]; simpl in *.
    destruct IH as [[-> ->]|[-> [doc [Hin [H1 H2]]]]].
    + left; auto.
    + right. split; [reflexivity|]. exists doc. repeat split; auto.
Qed.

(** A change of the database by [deleteById] means the record was the
    user's, and the function then returns [true]. *)
Lemma deleteById_scoped (user id : string) (d : Database) :
  let r := deleteById user id d in
  (snd r = d /\ fst r <> Returned true) \/ (fst r = Returned true /\ belongsTo d user id).
Proof.
  destruct d as [storage|db]; simpl.
  - destruct (parseInt id) as [key|] eqn:Ek; [|left; split; [reflexivity|discriminate]].
    destruct (mapGet key (repositories storage)) as [repo|] eqn:Eg;
      [|left; split; [reflexivity|discriminate]].
    destruct (strictEq (user_id repo) (parseInt user)) eqn:Eo;
      [|left; split; [reflexivity|discriminate]].
    right. split; [reflexivity|].
    unfold strictEq in Eo.
    destruct (user_id repo) as [x|] eqn:Ex; [|discriminate].
    destruct (parseInt user) as [y|] eqn:Ey; [|discriminate].
    apply Z.eqb_eq in Eo. subst y.
    exists key, x. simpl. repeat split; auto.
    apply mapGet_In in Eg. apply in_map_iff. exists (key, repo). simpl. now rewrite Ex.
  - destruct (newObjectId db id) as [_id|] eqn:Ei; [|left; split; [reflexivity|discriminate]].
    destruct (newObjectId db user) as [uid|] eqn:Eu; [|left; split; [reflexivity|discriminate]].
    pose proof (deleteOne_count _id uid (documents db)) as H.
    destruct (deleteOne _id uid (documents db)) as [docs n]; simpl in *.
    destruct H as [[-> ->]|[-> [doc [Hin [H1 H2]]]]].
    + left. split; [now destruct db | discriminate].
    + right. split; [reflexivity|]. exists _id, uid. simpl. repeat split; auto.
      apply in_map_iff. exists doc. now rewrite H1, H2.
Qed.

(** C8, as amended: a delete request changes the database only when
    the record it names belongs to the requesting user; naming another
    user's record or no record at all changes nothing and is answered
    with the same 404 [Repository not found], provided the identifiers
    can be read (always so in the in-memory store); an identifier
    MongoDB cannot read as an ObjectId is answered with a 500 and
    changes nothing either. *)
Theorem delete_only_own_record (user id : string) (d : Database)
        (Hnot : ~ belongsTo d user id) :
  snd (deleteRoute user id d) = d /\
  (usesFallback d = true \/ (readsAs d id <> None /\ readsAs d user <> None) ->
   fst (deleteRoute user id d) = (404, "Repository not found")) /\
  (usesFallback d = false -> readsAs d id = None \/ readsAs d user = None ->
   fst (deleteRoute user id d) = (500, "Failed to delete repository")).
Proof.
  unfold deleteRoute.
  pose proof (deleteById_scoped user id d) as H. simpl in H.
  destruct H as [[Hd Hr]|[_ Hb]]; [|contradiction].
  destruct d as [storage|db]; simpl in *.
  - destruct (parseInt id) as [key|]; [|repeat split; auto; discriminate].
    destruct (mapGet key (repositories storage)) as [repo|]; [|repeat split; auto; discriminate].
    destruct (strictEq (user_id repo) (parseInt user)); [now elim Hr|].
    repeat split; auto; discriminate.
  - destruct (newObjectId db id) as [_id|].
    2:{ simpl. repeat split; auto. intros [H|[H _]]; [discriminate | now elim H]. }
    destruct (newObjectId db user) as [uid|].
    2:{ simpl. repeat split; auto. intros [H|[_ H]]; [discriminate | now elim H]. }
    destruct (deleteOne _id uid (documents db)) as [docs n]; simpl in *.
    destruct (0 <? n); [now elim Hr|]. simpl.
    repeat split; auto. intros _ [H|H]; discriminate.
Qed.

(** A deletion that does happen is answered with 200. *)
Lemma delete_changes_only_own (user id : string) (d : Database) :
  snd (deleteRoute user id d) <> d ->
  belongsTo d user id /\ fst (fst (deleteRoute user id d)) = 200.
Proof.
  unfold deleteRoute. pose proof (deleteById_scoped user id d) as H. simpl in H.
  destruct (deleteById user id d) as [[[|]|msg] d']; simpl in *;
    destruct H as [[Hd Hr]|[Hr Hb]]; intros Hne; try congruence; auto.
Qed.

Lemma delete_only_own_record_witness :
  deleteRoute "7" "3" recordOfUser8 = ((404, "Repository not found"), recordOfUser8).
Proof.
  assert (Hnot : ~ belongsTo recordOfUser8 "7" "3").
  { intros [k [u [Hk [Hu [H|[]]]]]]. vm_compute in Hu. simpl in H. congruence. }
  destruct (delete_only_own_record "7" "3" recordOfUser8 Hnot) as [Hd [H404 _]].
  rewrite (surjective_pairing (deleteRoute "7" "3" recordOfUser8)).
  rewrite Hd. rewrite H404; [reflexivity | left; reflexivity].
Defined.

(** C8, as stated, fails: with MongoDB in use, a delete request whose
    id names no record (and is no ObjectId) is not answered with 404. *)
Lemma delete_unreadable_id_is_500 :
  ~ belongsTo emptyCollection someUser "42" /\
  fst (deleteRoute someUser "42" emptyCollection) = (500, "Failed to delete repository") /\
  fst (fst (deleteRoute someUser "42" emptyCollection)) <> 404.
Proof.
  split; [|split; [reflexivity | discriminate]].
  intros [k [u [_ [_ H]]]]. exact H.
Qed.

End DeleteFacts.

(** ** The URL parser *)

Section ParserFacts.
Import Js Parser Props.

Lemma stripPrefix_app (p s r : string) :
  stripPrefix p s = Some r -> s = p ++ r.
Proof.
  revert s. induction p as [|a p IH]; intros s; simpl.
  - now intros [= ->].
  - destruct s as [|b s]; [discriminate|].
    destruct (Ascii.eqb_spec a b); [|discriminate].
    intros H. subst b. now rewrite (IH _ H).
Qed.

Lemma span_app (p : ascii -> bool) (s a b : string) :
  span p s = (a, b) ->
  s = a ++ b /\ allChars p a = true /\
  match b with String c _ => p c = false | EmptyString => True end.
Proof.
  revert a b. induction s as [|c s IH]; intros a b; simpl.
  - intros [= <- <-]. auto.
  - destruct (p c) eqn:E.
    + destruct (span p s) as [a' b'] eqn:Es. intros [= <- <-].
      destruct (IH _ _ eq_refl) as [H1 [H2 H3]].
      simpl. rewrite E, H2. subst s. auto.
    + intros [= <- <-]. simpl. auto.
Qed.

Lemma matchHere_shape (s owner repo : string) :
  matchHere s = Some (owner, repo) ->
  exists post, s = marker ++ owner ++ "/" ++ repo ++ post /\ boundary post.
Proof.
  unfold matchHere.
  destruct (stripPrefix marker s) as [rest|] eqn:Ep; [|discriminate].
  apply stripPrefix_app in Ep.
  destruct (span isSegChar rest) as [o rest1] eqn:Eo.
  destruct (o =? "")%string; [discriminate|].
  destruct rest1 as [|c rest2]; [discriminate|].
  destruct (Ascii.eqb_spec c "/"%char) as [->|Hc].
  2:{ destruct c as [[] [] [] [] [] [] [] []]; try discriminate; now elim Hc. }
  destruct (span isSegChar rest2) as [r post] eqn:Er.
  destruct (r =? "")%string; [discriminate|].
  intros [= <- <-].
  apply span_app in Eo. destruct Eo as [Eo _].
  apply span_app in Er. destruct Er as [Er [_ Hb]].
  exists post. split.
  - subst s rest rest2. reflexivity.
  - exact Hb.
Qed.

Lemma regexMatch_shape (s owner repo : string) :
  regexMatch s = Some (owner, repo) ->
  exists pre post, s = pre ++ marker ++ owner ++ "/" ++ repo ++ post /\ boundary post.
Proof.
  induction s as [|c s IH]; simpl.
  - discriminate.
  - destruct (matchHere (String c s)) as [m|] eqn:E.
    + intros [= ->]. destruct (matchHere_shape _ _ _ E) as [post [H Hb]].
      exists "", post. auto.
    + intros H. destruct (IH H) as [pre [post [Hs Hb]]].
      exists (String c pre), post. split; [|exact Hb].
      change (String c s = String c (pre ++ marker ++ owner ++ "/" ++ repo ++ post)).
      now f_equal.
Qed.

Lemma middleThenAlnum_chars (mid : ascii -> bool) (s : string) :
  (forall c, isAlnum c = true -> mid c = true) ->
  middleThenAlnum mid s = true ->
  allChars mid s = true /\ exists c, lastChar s = Some c /\ isAlnum c = true.
Proof.
  intros Hmid. induction s as [|c s IH]; [discriminate|].
  destruct s as [|c' s'].
  - simpl. intros H. rewrite (Hmid _ H). split; [reflexivity|]. now exists c.
  - intros H. change (mid c && middleThenAlnum mid (String c' s') = true) in H.
    apply andb_prop in H. destruct H as [Hc Hs].
    destruct (IH Hs) as [Ha [l [Hl Hal]]].
    split.
    + change (mid c && allChars mid (String c' s') = true). now rewrite Hc, Ha.
    + exists l. split; [exact Hl | exact Hal].
Qed.

Lemma testIdent_identifier (mid : ascii -> bool) (s : string) :
  (forall c, isAlnum c = true -> mid c = true) ->
  testIdent mid s = true -> identifier mid s.
Proof.
  intros Hmid. destruct s as [|c rest]; [discriminate|]. simpl.
  intros H. apply andb_prop in H. destruct H as [Hc Hr].
  destruct rest as [|c' s'].
  - repeat split.
    + simpl. now rewrite (Hmid _ Hc).
    + now exists c.
    + now exists c.
  - destruct (middleThenAlnum_chars mid _ Hmid Hr) as [Ha [l [Hl Hal]]].
    repeat split.
    + change (mid c && allChars mid (String c' s') = true). now rewrite (Hmid _ Hc), Ha.
    + now exists c.
    + exists l. split; [exact Hl | exact Hal].
Qed.

Lemma alnum_isOwnerChar c : isAlnum c = true -> isOwnerChar c = true.
Proof. unfold isOwnerChar. now intros ->. Qed.

Lemma alnum_isRepoChar c : isAlnum c = true -> isRepoChar c = true.
Proof. unfold isRepoChar, isOwnerChar. now intros ->. Qed.

(** Whatever the parser returns is well formed. *)
Lemma parseGitHubUrl_sound (url owner repo : string) :
  parseGitHubUrl url = Some (owner, repo) -> wellFormed url owner repo.
Proof.
  unfold parseGitHubUrl.
  destruct (regexMatch (cleanUrl url)) as [[o r]|] eqn:Em; [|discriminate].
  destruct ((o =? "")%string || (r =? "")%string); [discriminate|].
  destruct (validOwnerPattern o) eqn:Eo; [|discriminate].
  destruct (validRepoPattern r) eqn:Er; [|discriminate].
  simpl. intros [= <- <-].
  destruct (regexMatch_shape _ _ _ Em) as [pre [post [Hs Hb]]].
  exists pre, post. split; [exact Hs|]. split; [exact Hb|]. split.
  - apply (testIdent_identifier _ _ alnum_isOwnerChar Eo).
  - apply (testIdent_identifier _ _ alnum_isRepoChar Er).
Qed.

Lemma length_append (a b : string) :
  String.length (a ++ b) = (String.length a + String.length b)%nat.
Proof. induction a; simpl; auto. Qed.

Lemma identifier_nonempty allowed s : identifier allowed s -> (1 <= String.length s)%nat.
Proof.
  intros [_ [[c [H _]] _]]. destruct s; [discriminate | simpl; lia].
Qed.

(** C7, as stated, fails: a URL with a third path segment is not made
    of exactly two segments after the marker, and the parser accepts
    it. *)
Lemma parseGitHubUrl_accepts_longer_path :
  exactlyTwoSegments "https://github.com/a/b/c" = false /\
  parseGitHubUrl "https://github.com/a/b/c" = Some ("a", "b").
Proof. split; reflexivity. Qed.

End ParserFacts.

(** ** Reasoning about runs *)

Section RunFacts.
Import Run Props.
Local Open Scope run_scope.

Context {A B : Type}.

Lemma returns_ret (a : A) (Q : A -> Prop) : Q a -> returns (ret a) Q.
Proof. intros H w a' w' [= <- _]. exact H. Qed.

Lemma returns_throw (e : Api.Error) (Q : A -> Prop) : returns (throw e) Q.
Proof. intros w a w' H. discriminate. Qed.

Lemma returns_bind (m : M A) (k : A -> M B) (P : A -> Prop) (Q : B -> Prop) :
  returns m P -> (forall a, P a -> returns (k a) Q) -> returns (bind m k) Q.
Proof.
  intros Hm Hk w b w'. unfold bind.
  destruct (m w) as [[a|e|] w1] eqn:E; try discriminate.
  intros H. exact (Hk a (Hm _ _ _ E) _ _ _ H).
Qed.

Lemma returns_tryCatch (m : M A) (h : Api.Error -> M A) (Q : A -> Prop) :
  returns m Q -> (forall e, returns (h e) Q) -> returns (tryCatch m h) Q.
Proof.
  intros Hm Hh w a w'. unfold tryCatch.
  destruct (m w) as [[a1|e|] w1] eqn:E; intros H.
  - injection H as <- _. exact (Hm _ _ _ E).
  - exact (Hh e _ _ _ H).
  - discriminate.
Qed.

Lemma returns_any (m : M A) : returns m (fun _ => True).
Proof. intros w a w' _. exact I. Qed.

Lemma terminates_ret (a : A) : terminates (ret a).
Proof. intros w. discriminate. Qed.

Lemma terminates_throw (e : Api.Error) : terminates (@throw A e).
Proof. intros w. discriminate. Qed.

Lemma terminates_bind (m : M A) (k : A -> M B) :
  terminates m -> (forall a, terminates (k a)) -> terminates (bind m k).
Proof.
  intros Hm Hk w. unfold bind. specialize (Hm w).
  destruct (m w) as [[a|e|] w1]; simpl in *; [apply Hk | discriminate | now elim Hm].
Qed.

Lemma terminates_tryCatch (m : M A) (h : Api.Error -> M A) :
  terminates m -> (forall e, terminates (h e)) -> terminates (tryCatch m h).
Proof.
  intros Hm Hh w. unfold tryCatch. specialize (Hm w).
  destruct (m w) as [[a|e|] w1]; simpl in *; [discriminate | apply Hh | now elim Hm].
Qed.

End RunFacts.

Section RunSteps.
Import Run Props.

Lemma terminates_modify f : terminates (modify f).
Proof. intros w. discriminate. Qed.

Lemma terminates_suspend : terminates suspend.
Proof. intros w. unfold suspend. destruct (incoming w); discriminate. Qed.

Lemma terminates_axiosGet {A} (answer : Api.Fetch A) : terminates (axiosGet answer).
Proof.
  unfold axiosGet. apply terminates_bind; [apply terminates_suspend|]. intros _.
  destruct answer as [status txt data|e]; [|apply terminates_throw].
  destruct (status <? 500); [apply terminates_ret | apply terminates_throw].
Qed.

End RunSteps.

(** ** The shape of a crawled tree *)

Section CrawlShape.
Import Api Run Crawler Props.
Local Open Scope run_scope.
Local Open Scope nat_scope.

Variable repo : string.
Variable listing : string -> Fetch (list Item).
Variable analysisId : string.
Variable maxDepth : nat.

Local Abbreviation build := (buildFileTreeWithCancellation repo listing analysisId maxDepth).

Lemma truncatedNode_crawled path depth :
  depth <= maxDepth -> crawled maxDepth depth (truncatedNode repo maxDepth path depth).
Proof.
  intros Hle. split; [|split].
  - constructor; [|constructor]. split; [|split].
    + intros k [H|H]; [discriminate|]. injection H as <-. exact Hle.
    + intros _ _. split; reflexivity.
    + intros _. reflexivity.
  - right. reflexivity.
  - intros _. split; reflexivity.
Qed.

Lemma errorNode_crawled path depth msg :
  depth < maxDepth -> crawled maxDepth depth (errorNode repo path depth msg).
Proof.
  intros Hlt. split; [|split].
  - constructor; [|constructor]. split; [|split].
    + intros k [H|H]; [|discriminate]. injection H as <-. lia.
    + intros _ [H|H]; [|discriminate]. injection H as ->. lia.
    + intros H. reflexivity.
  - left. reflexivity.
  - intros ->. lia.
Qed.

Lemma listingNode_crawled path depth children :
  depth < maxDepth ->
  Forall (fun c => Forall (shaped maxDepth) (Tree.nodes c)) children ->
  crawled maxDepth depth (listingNode repo maxDepth path depth children).
Proof.
  intros Hlt Hc. split; [|split].
  - simpl. constructor.
    + split; [|split].
      * intros k [H|H]; injection H as <-; lia.
      * intros _ [H|H]; injection H as ->; lia.
      * discriminate.
    + apply Forall_flat_map. exact Hc.
  - right. reflexivity.
  - intros ->. lia.
Qed.

Lemma folderNode_shaped item depth subTree :
  depth < maxDepth ->
  crawled maxDepth (depth + 1) subTree ->
  Forall (shaped maxDepth) (Tree.nodes (folderNode maxDepth item depth subTree)).
Proof.
  intros Hlt [Hn [Ha Hb]].
  assert (Hact : match Tree.actualDepth subTree with
                 | Some (S k) => S k
                 | _ => depth + 1
                 end = depth + 1).
  { destruct Ha as [-> | ->]; [reflexivity|]. rewrite Nat.add_1_r. reflexivity. }
  assert (Hsub : shaped maxDepth subTree /\
                 Forall (shaped maxDepth) (flat_map Tree.nodes (Tree.children subTree))).
  { destruct subTree; simpl in *. now apply Forall_cons_iff in Hn. }
  destruct Hsub as [[_ [_ Hleaf]] Hrest].
  simpl. constructor; [|exact Hrest].
  split; [|split]; simpl.
  - intros k [H|H]; injection H as <-; [|rewrite Hact]; lia.
  - intros _ H. apply Hb. destruct H as [H|H]; injection H as H; [|rewrite Hact in H]; lia.
  - exact Hleaf.
Qed.

Lemma fileNode_shaped item depth :
  depth < maxDepth ->
  Forall (shaped maxDepth) (Tree.nodes (fileNode maxDepth item depth)).
Proof.
  intros Hlt. simpl. constructor; [|constructor]. split; [|split]; simpl.
  - intros k [H|H]; injection H as <-; lia.
  - discriminate.
  - discriminate.
Qed.

Lemma processItems_shaped descend depth items :
  depth < maxDepth ->
  (forall p, returns (descend p) (crawled maxDepth (depth + 1))) ->
  forall children,
    Forall (fun c => Forall (shaped maxDepth) (Tree.nodes c)) children ->
    returns (processItems analysisId maxDepth descend depth items children)
            (Forall (fun c => Forall (shaped maxDepth) (Tree.nodes c))).
Proof.
  intros Hlt Hd. induction items as [|item rest IH]; intros children Hc; simpl.
  - now apply returns_ret.
  - apply returns_bind with (P := fun _ => True); [apply returns_any|]. intros _ _.
    destruct (Denylist.shouldSkip (name item)); [now apply IH|].
    destruct (type item =? "dir")%string.
    + apply returns_bind with (P := crawled maxDepth (depth + 1)); [apply Hd|].
      intros subTree Hs. apply IH. apply Forall_app. split; [exact Hc|].
      constructor; [|constructor]. now apply folderNode_shaped.
    + apply IH. apply Forall_app. split; [exact Hc|].
      constructor; [|constructor]. now apply fileNode_shaped.
Qed.

Lemma build_crawled fuel :
  forall path depth,
    depth <= maxDepth -> returns (build fuel path depth) (crawled maxDepth depth).
Proof.
  induction fuel as [|fuel IH]; intros path depth Hle.
  - intros w a w' H. discriminate.
  - simpl.
    apply returns_tryCatch; [|intros e; apply returns_throw].
    apply returns_bind with (P := fun _ => True); [apply returns_any|]. intros _ _.
    apply returns_bind with (P := fun _ => True); [apply returns_any|]. intros _ _.
    destruct (Nat.leb_spec maxDepth depth) as [Hge|Hlt].
    + apply returns_ret. now apply truncatedNode_crawled.
    + apply returns_bind with (P := fun _ => True); [apply returns_any|].
      intros [[status statusText] items] _.
      destruct (status =? 404)%Z; [apply returns_ret; now apply errorNode_crawled|].
      destruct (status =? 403)%Z; [apply returns_ret; now apply errorNode_crawled|].
      destruct (400 <=? status)%Z; [apply returns_throw|].
      eapply returns_bind.
      * apply processItems_shaped; [exact Hlt | | constructor].
        intros p. apply IH. lia.
      * intros children Hc. apply returns_ret. now apply listingNode_crawled.
Qed.

Lemma processItems_terminates descend depth items :
  (forall p, terminates (descend p)) ->
  forall children, terminates (processItems analysisId maxDepth descend depth items children).
Proof.
  intros Hd. induction items as [|item rest IH]; intros children; simpl.
  - apply terminates_ret.
  - apply terminates_bind.
    + intros w. unfold checkCancelled. destruct (isCancelled analysisId w); discriminate.
    + intros _. destruct (Denylist.shouldSkip (name item)); [apply IH|].
      destruct (type item =? "dir")%string; [|apply IH].
      apply terminates_bind; [apply Hd | intros; apply IH].
Qed.

(** With more fuel than levels left, the crawler never runs out. *)
Lemma build_terminates fuel :
  forall path depth, maxDepth - depth < fuel -> terminates (build fuel path depth).
Proof.
  induction fuel as [|fuel IH]; intros path depth Hf; [lia|].
  simpl.
  apply terminates_tryCatch; [|intros e; apply terminates_throw].
  apply terminates_bind.
  { intros w. unfold checkCancelled. destruct (isCancelled analysisId w); discriminate. }
  intros _. apply terminates_bind.
  { unfold updateProgress. destruct (truthy analysisId);
      [apply terminates_modify | apply terminates_ret]. }
  intros _. destruct (Nat.leb_spec maxDepth depth) as [Hge|Hlt]; [apply terminates_ret|].
  apply terminates_bind; [apply terminates_axiosGet|].
  intros [[status statusText] items].
  destruct (status =? 404)%Z; [apply terminates_ret|].
  destruct (status =? 403)%Z; [apply terminates_ret|].
  destruct (400 <=? status)%Z; [apply terminates_throw|].
  apply terminates_bind; [|intros; apply terminates_ret].
  apply processItems_terminates. intros p. apply IH. lia.
Qed.

Lemma crawl_terminates : terminates (crawl repo listing analysisId maxDepth).
Proof. apply build_terminates. lia. Qed.

(** C1: a crawl with depth bound [maxDepth] always comes back (with a
    tree or an exception), and in a tree it returns no node records a
    depth above the bound, every folder recorded at exactly the bound is
    truncated and has no children, and every truncated node has no
    children. *)
Theorem crawl_depth_bounded (w w' : World) (tree : Tree.TreeNode)
        (Hrun : crawl repo listing analysisId maxDepth w = (Ok tree, w')) :
  (forall w0, fst (crawl repo listing analysisId maxDepth w0) <> OutOfFuel) /\
  forall n, In n (Tree.nodes tree) ->
    (forall k, Tree.depth n = Some k \/ Tree.actualDepth n = Some k -> k <= maxDepth) /\
    (Tree.type n = Tree.folder ->
     Tree.depth n = Some maxDepth \/ Tree.actualDepth n = Some maxDepth ->
     Tree.truncated n = true /\ Tree.children n = []) /\
    (Tree.truncated n = true -> Tree.children n = []).
Proof.
  split; [exact crawl_terminates|].
  assert (H : crawled maxDepth 0 tree).
  { apply (build_crawled (S maxDepth) "" 0 (Nat.le_0_l _) _ _ _ Hrun). }
  destruct H as [H _]. intros n Hin.
  apply (proj1 (Forall_forall _ _) H n Hin).
Qed.

End CrawlShape.

(** ** The table of active analyses *)

Section StoreFacts.
Import Store.

Lemma get_set_same (id : string) (v : Analysis) (t : Table) :
  get id (set id v t) = Some v.
Proof.
  induction t as [|[k a] t IH]; simpl.
  - now rewrite String.eqb_refl.
  - destruct (k =? id)%string eqn:E; simpl; now rewrite E.
Qed.

End StoreFacts.

(** ** Listings that fail *)

Section CrawlFailures.
Import Api Run Crawler Props.
Local Open Scope run_scope.

Variable repo : string.
Variable listing : string -> Fetch (list Item).
Variable analysisId : string.
Variable maxDepth : nat.

Local Abbreviation build := (buildFileTreeWithCancellation repo listing analysisId maxDepth).

Lemma succeeds_ret {A} I (a : A) : succeeds I (ret a).
Proof. intros w Hw. now exists a, w. Qed.

Lemma succeeds_bind {A B} I (m : M A) (k : A -> M B) (P : A -> Prop) :
  succeeds I m -> returns m P -> (forall a, P a -> succeeds I (k a)) ->
  succeeds I (bind m k).
Proof.
  intros Hm Hp Hk w Hw. destruct (Hm w Hw) as [a [w1 [E H1]]].
  unfold bind. rewrite E. exact (Hk a (Hp _ _ _ E) w1 H1).
Qed.

Lemma succeeds_tryCatch {A} I (m : M A) h : succeeds I m -> succeeds I (tryCatch m h).
Proof.
  intros Hm w Hw. destruct (Hm w Hw) as [a [w1 [E H1]]].
  unfold tryCatch. rewrite E. now exists a, w1.
Qed.

Lemma checkCancelled_quiet : succeeds (quiet analysisId) (checkCancelled analysisId).
Proof.
  intros w Hw. exists tt, w. split; [|exact Hw].
  unfold checkCancelled. now rewrite (proj1 Hw).
Qed.

Lemma isCancelled_recordProgress path depth w :
  truthy analysisId = true ->
  isCancelled analysisId (withAnalyses (recordProgress analysisId maxDepth path depth) w)
  = isCancelled analysisId w.
Proof.
  intros Ht. unfold isCancelled, withAnalyses, recordProgress; simpl.
  rewrite get_set_same. simpl. now destruct (Store.get analysisId (activeAnalyses w)).
Qed.

Lemma updateProgress_quiet path depth :
  succeeds (quiet analysisId) (updateProgress analysisId maxDepth path depth).
Proof.
  intros w [Hc Hi]. unfold updateProgress. destruct (truthy analysisId) eqn:Et.
  - eexists tt, _. split; [reflexivity|]. split; [|exact Hi].
    now rewrite isCancelled_recordProgress.
  - exists tt, w. repeat split; assumption.
Qed.

Lemma serve_polls batch :
  forall w, Forall (fun r => isPoll r = true) batch ->
            activeAnalyses (fold_left serve batch w) = activeAnalyses w /\
            incoming (fold_left serve batch w) = incoming w.
Proof.
  induction batch as [|r batch IH]; intros w H; simpl; [auto|].
  inversion H as [|? ? Hr Hb]; subst.
  destruct r as [user body|user|user]; [discriminate| |discriminate].
  destruct (IH (serve w (Store.ProgressRequest user)) Hb) as [-> ->]. auto.
Qed.

Lemma suspend_quiet : succeeds (quiet analysisId) suspend.
Proof.
  intros w [Hc Hi]. unfold suspend. destruct (incoming w) as [|batch later] eqn:E.
  - exists tt, w. repeat split; [assumption | now rewrite E].
  - inversion Hi as [|? ? Hb Hl]; subst.
    eexists tt, _. split; [reflexivity|].
    match goal with |- quiet _ (fold_left serve batch ?w0) =>
      destruct (serve_polls batch w0 Hb) as [Ht Hinc] end.
    split.
    + unfold isCancelled in *. rewrite Ht. exact Hc.
    + rewrite Hinc. exact Hl.
Qed.

Lemma axiosGet_quiet answer :
  answered answer -> succeeds (quiet analysisId) (axiosGet answer).
Proof.
  intros [status [txt [items [-> Hs]]]]. unfold axiosGet.
  apply succeeds_bind with (P := fun _ => True);
    [apply suspend_quiet | apply returns_any |]. intros _ _.
  assert ((status <? 500) = true) as -> by (apply Z.ltb_lt; lia).
  apply succeeds_ret.
Qed.

Lemma axiosGet_returns {A} (answer : Fetch A) :
  returns (axiosGet answer)
          (fun r => answer = Responded (fst (fst r)) (snd (fst r)) (snd r)).
Proof.
  unfold axiosGet. apply returns_bind with (P := fun _ => True); [apply returns_any|].
  intros _ _. destruct answer as [status txt data|e]; [|apply returns_throw].
  destruct (status <? 500); [now apply returns_ret | apply returns_throw].
Qed.

Lemma processItems_quiet descend depth items :
  (forall p, succeeds (quiet analysisId) (descend p)) ->
  forall children,
    succeeds (quiet analysisId)
             (processItems analysisId maxDepth descend depth items children).
Proof.
  intros Hd. induction items as [|item rest IH]; intros children; simpl.
  - apply succeeds_ret.
  - apply succeeds_bind with (P := fun _ => True);
      [apply checkCancelled_quiet | apply returns_any |]. intros _ _.
    destruct (Denylist.shouldSkip (name item)); [apply IH|].
    destruct (type item =? "dir")%string; [|apply IH].
    apply succeeds_bind with (P := fun _ => True); [apply Hd | apply returns_any |].
    intros subTree _. apply IH.
Qed.

(** When every listing is answered with data, 404 or 403 and nobody
    cancels, the crawler returns a tree. *)
Lemma build_quiet fuel :
  (forall p, answered (listing p)) ->
  forall path depth,
    (maxDepth - depth < fuel)%nat -> succeeds (quiet analysisId) (build fuel path depth).
Proof.
  intros Hall. induction fuel as [|fuel IH]; intros path depth Hf; [lia|].
  simpl. apply succeeds_tryCatch.
  apply succeeds_bind with (P := fun _ => True);
    [apply checkCancelled_quiet | apply returns_any |]. intros _ _.
  apply succeeds_bind with (P := fun _ => True);
    [apply updateProgress_quiet | apply returns_any |]. intros _ _.
  destruct (Nat.leb_spec maxDepth depth) as [Hge|Hlt]; [apply succeeds_ret|].
  eapply succeeds_bind; [apply axiosGet_quiet, Hall | apply axiosGet_returns |].
  intros [[status txt] items] E. simpl in E.
  destruct (Z.eqb_spec status 404); [apply succeeds_ret|].
  destruct (Z.eqb_spec status 403); [apply succeeds_ret|].
  destruct (Hall path) as [st [tx [it [E' Hs]]]]. rewrite E in E'.
  injection E' as <- _ _.
  assert ((400 <=? status) = false) as -> by (apply Z.leb_gt; lia).
  apply succeeds_bind with (P := fun _ => True); [| apply returns_any |].
  - apply processItems_quiet. intros p. apply IH. lia.
  - intros children _. apply succeeds_ret.
Qed.

Lemma folderNode_degraded item depth subTree :
  (refused (listing (path item)) -> Tree.children subTree = []) ->
  Forall (degraded listing) (descendants subTree) ->
  Forall (degraded listing) (Tree.nodes (folderNode maxDepth item depth subTree)).
Proof.
  intros Hr Hd. simpl. constructor; [|exact Hd].
  intros p _ Hp. simpl in Hp. injection Hp as <-. exact Hr.
Qed.

Lemma processItems_degraded descend depth items :
  (forall p, returns (descend p)
                     (fun t => (refused (listing p) -> Tree.children t = []) /\
                               Forall (degraded listing) (descendants t))) ->
  forall children,
    Forall (fun c => Forall (degraded listing) (Tree.nodes c)) children ->
    returns (processItems analysisId maxDepth descend depth items children)
            (Forall (fun c => Forall (degraded listing) (Tree.nodes c))).
Proof.
  intros Hd. induction items as [|item rest IH]; intros children Hc; simpl.
  - now apply returns_ret.
  - apply returns_bind with (P := fun _ => True); [apply returns_any|]. intros _ _.
    destruct (Denylist.shouldSkip (name item)); [now apply IH|].
    destruct (type item =? "dir")%string.
    + eapply returns_bind; [apply Hd|].
      intros subTree [Hr Hs]. apply IH. apply Forall_app. split; [exact Hc|].
      constructor; [|constructor]. now apply folderNode_degraded.
    + apply IH. apply Forall_app. split; [exact Hc|].
      constructor; [|constructor]. simpl. constructor; [|constructor].
      intros p Hty. discriminate.
Qed.

Lemma build_degraded fuel :
  forall path depth,
    returns (build fuel path depth)
            (fun t => (refused (listing path) -> Tree.children t = []) /\
                      Forall (degraded listing) (descendants t)).
Proof.
  induction fuel as [|fuel IH]; intros path depth.
  - intros w a w' H. discriminate.
  - simpl.
    apply returns_tryCatch; [|intros e; apply returns_throw].
    apply returns_bind with (P := fun _ => True); [apply returns_any|]. intros _ _.
    apply returns_bind with (P := fun _ => True); [apply returns_any|]. intros _ _.
    destruct (maxDepth <=? depth)%nat.
    { apply returns_ret. split; [reflexivity | constructor]. }
    eapply returns_bind; [apply axiosGet_returns|].
    intros [[status txt] items] E. simpl in E.
    destruct (Z.eqb_spec status 404).
    { apply returns_ret. split; [reflexivity | constructor]. }
    destruct (Z.eqb_spec status 403).
    { apply returns_ret. split; [reflexivity | constructor]. }
    destruct (400 <=? status); [apply returns_throw|].
    eapply returns_bind.
    + apply processItems_degraded; [|constructor]. intros p. apply IH.
    + intros children Hc. apply returns_ret. split.
      * intros [st [tx [it [E' Hs]]]]. rewrite E in E'. injection E' as <- _ _. lia.
      * unfold descendants. simpl. apply Forall_flat_map. exact Hc.
Qed.

End CrawlFailures.

(** ** Progress never goes back *)

Section ProgressOrder.
Import Store Run Props.

Lemma sorted_app (l1 l2 : list Z) :
  StronglySorted Z.le l1 -> StronglySorted Z.le l2 ->
  (forall x y, In x l1 -> In y l2 -> x <= y) ->
  StronglySorted Z.le (l1 ++ l2).
Proof.
  intros H1 H2 H. induction l1 as [|a l1 IH]; simpl; [exact H2|].
  apply StronglySorted_inv in H1. destruct H1 as [Hs Ha].
  constructor.
  - apply IH; [exact Hs|]. intros x y Hx Hy. apply H; [now right | exact Hy].
  - apply Forall_app. split; [exact Ha|].
    apply Forall_forall. intros y Hy. apply H; [now left | exact Hy].
Qed.

Lemma polled_app user (a b : list (Request * Reply)) :
  polled user (a ++ b) = (polled user a ++ polled user b)%list.
Proof. apply flat_map_app. Qed.

Lemma tableLe_refl t : tableLe t t.
Proof. induction t as [|[id a] t IH]; constructor; [lia | exact IH]. Qed.

Lemma tableLe_trans t1 t2 t3 : tableLe t1 t2 -> tableLe t2 t3 -> tableLe t1 t3.
Proof.
  intros H12. revert t3. induction H12 as [|id a a' t t' Ha H IH]; intros t3 H23.
  - constructor.
  - inversion H23; subst. constructor; [lia | now apply IH].
Qed.

(** A later table shows every user at least what an earlier one did. *)
Lemma tableLe_poll user t t' :
  tableLe t t' ->
  (forall p, atLeast (analysisProgress user t') p -> atLeast (analysisProgress user t) p) /\
  (forall p, atMost (analysisProgress user t) p -> atMost (analysisProgress user t') p).
Proof.
  induction 1 as [|id a a' t t' Ha H IH]; simpl.
  - split; [intros; exact I | intros p []].
  - destruct (Js.startsWith id user); [|exact IH].
    unfold progressOf in Ha. simpl. split; intros p Hp; lia.
Qed.

Lemma tableLe_set id v t :
  (forall a, get id t = Some a -> progressOf a <= progressOf v) ->
  tableLe t (set id v t).
Proof.
  induction t as [|[k a] t IH]; simpl; intros H; [constructor|].
  destruct (k =? id)%string.
  - constructor; [now apply H | apply tableLe_refl].
  - constructor; [lia | now apply IH].
Qed.

Lemma tableLe_cancel user t : tableLe t (map (cancelEntry user) t).
Proof.
  induction t as [|[id a] t IH]; simpl; [constructor|].
  unfold cancelEntry at 1. destruct (ofUser user (id, a)); simpl;
    (constructor; [unfold progressOf; simpl; lia | exact IH]).
Qed.

Lemma get_cancel id user t :
  get id (map (cancelEntry user) t)
  = option_map (fun a => if Js.startsWith id user then markCancelled a else a) (get id t).
Proof.
  induction t as [|[k a] t IH]; simpl; [reflexivity|].
  unfold cancelEntry at 1, ofUser. simpl.
  destruct (Js.startsWith k user) eqn:Eu; simpl;
    destruct (String.eqb_spec k id) as [->|Hk]; simpl; try exact IH;
    now rewrite Eu.
Qed.

Lemma advances_refl w : advances w w.
Proof.
  split; [apply tableLe_refl|]. exists []. split; [now rewrite app_nil_r|].
  intros user. split; constructor.
Qed.

Lemma advances_trans w1 w2 w3 : advances w1 w2 -> advances w2 w3 -> advances w1 w3.
Proof.
  intros [T12 [n1 [E1 H1]]] [T23 [n2 [E2 H2]]].
  split; [exact (tableLe_trans _ _ _ T12 T23)|].
  exists (n1 ++ n2)%list. split; [now rewrite E2, E1, app_assoc|].
  intros user. destruct (H1 user) as [S1 B1]. destruct (H2 user) as [S2 B2].
  rewrite polled_app.
  destruct (tableLe_poll user _ _ T12) as [Lo12 Hi12].
  destruct (tableLe_poll user _ _ T23) as [Lo23 Hi23].
  rewrite Forall_forall in B1, B2.
  split.
  - apply sorted_app; [exact S1 | exact S2 |].
    intros x y Hx Hy. destruct (B1 x Hx) as [_ Hx2]. destruct (B2 y Hy) as [Hy2 _].
    unfold pollOf in *. destruct (analysisProgress user (activeAnalyses w2)); simpl in *;
      try contradiction. lia.
  - apply Forall_app. split; apply Forall_forall; intros p Hp.
    + destruct (B1 p Hp) as [Hlo Hhi]. split; [exact Hlo | now apply Hi23].
    + destruct (B2 p Hp) as [Hlo Hhi]. split; [now apply Lo12 | exact Hhi].
Qed.

Lemma advances_reports w w' : advances w w' -> reports w w'.
Proof.
  intros [_ [new [E H]]]. exists new. split; [exact E|]. intros user.
  destruct (H user) as [S B]. split; [exact S|].
  eapply Forall_impl; [|exact B]. now intros p [Hlo _].
Qed.

Lemma advances_then_reports w1 w2 w3 : advances w1 w2 -> reports w2 w3 -> reports w1 w3.
Proof.
  intros [T12 [n1 [E1 H1]]] [n2 [E2 H2]].
  exists (n1 ++ n2)%list. split; [now rewrite E2, E1, app_assoc|].
  intros user. destruct (H1 user) as [S1 B1]. destruct (H2 user) as [S2 B2].
  rewrite polled_app.
  destruct (tableLe_poll user _ _ T12) as [Lo12 Hi12].
  rewrite Forall_forall in B1, B2.
  split.
  - apply sorted_app; [exact S1 | exact S2 |].
    intros x y Hx Hy. destruct (B1 x Hx) as [_ Hx2]. specialize (B2 y Hy).
    unfold pollOf in *. destruct (analysisProgress user (activeAnalyses w2)); simpl in *;
      try contradiction. lia.
  - apply Forall_app. split; apply Forall_forall; intros p Hp.
    + now destruct (B1 p Hp).
    + apply Lo12. now apply B2.
Qed.

Lemma reports_same_replies w w1 w' :
  reports w w1 -> replies w' = replies w1 -> reports w w'.
Proof. intros [new [E H]] Hr. exists new. split; [congruence | exact H]. Qed.

(** A change of the table that loses nothing, with no request served. *)
Lemma advances_table w f :
  tableLe (activeAnalyses w) (f (activeAnalyses w)) -> advances w (withAnalyses f w).
Proof.
  intros H. split; [exact H|]. exists []. split; [simpl; now rewrite app_nil_r|].
  intros user. split; constructor.
Qed.

Lemma serve_advances w req : isClient req = true -> advances w (serve w req).
Proof.
  destruct req as [user body|user|user]; simpl; intros Hc; [| |discriminate].
  - pose proof (cancelAnalysis_table user body (activeAnalyses w)) as Ht.
    destruct (cancelAnalysis user body (activeAnalyses w)) as [t reply]; simpl in *.
    subst t. split; [apply tableLe_cancel|].
    eexists. split; [reflexivity|]. intros u. split; constructor.
  - split; [apply tableLe_refl|]. eexists. split; [reflexivity|].
    intros u. unfold polled, pollOf. simpl.
    destruct (analysisProgress user (activeAnalyses w)) as [| p d c f |] eqn:E;
      try (split; constructor).
    destruct (String.eqb_spec user u) as [->|Hne]; [|split; constructor].
    simpl. split; [repeat constructor|].
    constructor; [|constructor]. rewrite E. simpl. lia.
Qed.

Lemma serve_batch_advances batch :
  Forall (fun r => isClient r = true) batch ->
  forall w, advances w (fold_left serve batch w).
Proof.
  induction 1 as [|r batch Hr _ IH]; intros w; simpl; [apply advances_refl|].
  exact (advances_trans _ _ _ (serve_advances w r Hr) (IH _)).
Qed.

Lemma suspend_advances w o w' : undisturbed w -> suspend w = (o, w') -> advances w w'.
Proof.
  unfold undisturbed, suspend. intros Hu. destruct (incoming w) as [|batch later].
  - intros [= _ <-]. apply advances_refl.
  - intros [= _ <-]. apply Forall_cons_iff in Hu. destruct Hu as [Hb _].
    match goal with |- advances _ (fold_left serve batch ?w0) =>
      apply (advances_trans _ w0); [|now apply serve_batch_advances] end.
    split; [apply tableLe_refl|]. exists []. split; [simpl; now rewrite app_nil_r|].
    intros u. split; constructor.
Qed.

Lemma incoming_batch batch : forall w, incoming (fold_left serve batch w) = incoming w.
Proof.
  induction batch as [|r batch IH]; intros w; simpl; [reflexivity|].
  rewrite IH. destruct r as [u b|u|u]; simpl; [|reflexivity|reflexivity].
  now destruct (cancelAnalysis u b (activeAnalyses w)).
Qed.

Lemma suspend_undisturbed w o w' : undisturbed w -> suspend w = (o, w') -> undisturbed w'.
Proof.
  unfold undisturbed, suspend. intros Hu. destruct (incoming w) as [|batch later] eqn:E.
  - intros [= _ <-]. now rewrite E.
  - intros [= _ <-]. apply Forall_cons_iff in Hu. rewrite incoming_batch. simpl. tauto.
Qed.

End ProgressOrder.

Section ProgressRuns.
Import Api Store Run Crawler Props.
Local Open Scope run_scope.

Lemma leads_still {A} (I : World -> Prop) (m : M A) :
  (forall w, snd (m w) = w) -> leads I m I.
Proof.
  intros H w o w' Hw E. pose proof (H w) as Hs. rewrite E in Hs. simpl in Hs. subst w'.
  split; [exact Hw | apply advances_refl].
Qed.

Lemma leads_ret {A} I (a : A) : leads I (ret a) I.
Proof. now apply leads_still. Qed.

Lemma leads_throw {A} I e : leads I (@throw A e) I.
Proof. now apply leads_still. Qed.

Lemma leads_gets {A} I (f : World -> A) : leads I (gets f) I.
Proof. now apply leads_still. Qed.

Lemma leads_bind {A B} I J (m : M A) (k : A -> M B) :
  leads I m J -> (forall a, leads J (k a) J) -> leads I (bind m k) J.
Proof.
  intros Hm Hk w o w' Hw. unfold bind.
  destruct (m w) as [[a|e|] w1] eqn:E; destruct (Hm _ _ _ Hw E) as [H1 A1].
  - intros Ek. destruct (Hk a _ _ _ H1 Ek) as [H2 A2].
    split; [exact H2 | exact (advances_trans _ _ _ A1 A2)].
  - intros [= _ <-]. now split.
  - intros [= _ <-]. now split.
Qed.

Lemma leads_tryCatch {A} I J (m : M A) h :
  leads I m J -> (forall e, leads J (h e) J) -> leads I (tryCatch m h) J.
Proof.
  intros Hm Hh w o w' Hw. unfold tryCatch.
  destruct (m w) as [[a|e|] w1] eqn:E; destruct (Hm _ _ _ Hw E) as [H1 A1].
  - intros [= _ <-]. now split.
  - intros Eh. destruct (Hh e _ _ _ H1 Eh) as [H2 A2].
    split; [exact H2 | exact (advances_trans _ _ _ A1 A2)].
  - intros [= _ <-]. now split.
Qed.

Lemma ends_bind {A B} I J (m : M A) (k : A -> M B) :
  leads I m J -> (forall a, ends J (k a)) -> ends I (bind m k).
Proof.
  intros Hm Hk w o w' Hw. unfold bind.
  destruct (m w) as [[a|e|] w1] eqn:E; destruct (Hm _ _ _ Hw E) as [H1 A1].
  - intros Ek. exact (advances_then_reports _ _ _ A1 (Hk a _ _ _ H1 Ek)).
  - intros [= _ <-]. now apply advances_reports.
  - intros [= _ <-]. now apply advances_reports.
Qed.

Lemma ends_leads {A} I J (m : M A) : leads I m J -> ends I m.
Proof. intros H w o w' Hw E. apply advances_reports. exact (proj2 (H _ _ _ Hw E)). Qed.

Lemma serve_shown id w req : isClient req = true -> shown id (serve w req) = shown id w.
Proof.
  unfold shown. destruct req as [user body|user|user]; simpl; intros Hc;
    [|reflexivity|discriminate].
  pose proof (cancelAnalysis_table user body (activeAnalyses w)) as Ht.
  destruct (cancelAnalysis user body (activeAnalyses w)) as [t reply]; simpl in *.
  subst t. rewrite get_cancel.
  destruct (get id (activeAnalyses w)) as [a|]; simpl; [|reflexivity].
  now destruct (Js.startsWith id user).
Qed.

Lemma suspend_shown id w o w' :
  undisturbed w -> suspend w = (o, w') -> shown id w' = shown id w.
Proof.
  unfold undisturbed, suspend. intros Hu.
  destruct (incoming w) as [|batch later]; intros [= _ <-]; [reflexivity|].
  apply Forall_cons_iff in Hu. destruct Hu as [Hb _].
  match goal with |- shown id (fold_left serve batch ?w0) = _ =>
    change (shown id w) with (shown id w0); generalize w0 end.
  induction Hb as [|r batch Hr _ IH]; intros w0; simpl; [reflexivity|].
  rewrite IH. now apply serve_shown.
Qed.

Lemma fresh_shown id w : fresh id w <-> undisturbed w /\ shown id w = None.
Proof.
  unfold fresh, shown. destruct (get id (activeAnalyses w)); simpl; split;
    intros [H1 H2]; split; congruence.
Qed.

Lemma bounded_shown id w :
  bounded id w <-> undisturbed w /\ (forall p, shown id w = Some p -> p <= 100).
Proof.
  unfold bounded, shown. destruct (get id (activeAnalyses w)) as [a|]; simpl; split;
    intros [Hu H]; (split; [exact Hu|]).
  - intros p [= <-]. now apply H.
  - intros a' [= <-]. now apply H.
  - intros p Hp. discriminate.
  - intros a Ha. discriminate.
Qed.

Lemma suspend_leads_fresh id : leads (fresh id) suspend (fresh id).
Proof.
  intros w o w' Hw E. pose proof (proj1 Hw) as Hu.
  split; [|exact (suspend_advances _ _ _ Hu E)].
  apply fresh_shown. split; [exact (suspend_undisturbed _ _ _ Hu E)|].
  rewrite (suspend_shown id _ _ _ Hu E). now apply fresh_shown.
Qed.

Lemma suspend_leads_bounded id : leads (bounded id) suspend (bounded id).
Proof.
  intros w o w' Hw E. pose proof (proj1 Hw) as Hu.
  split; [|exact (suspend_advances _ _ _ Hu E)].
  apply bounded_shown. split; [exact (suspend_undisturbed _ _ _ Hu E)|].
  rewrite (suspend_shown id _ _ _ Hu E). now apply bounded_shown.
Qed.

Lemma suspend_leads_any : leads anyWorld suspend anyWorld.
Proof.
  intros w o w' Hu E.
  split; [exact (suspend_undisturbed _ _ _ Hu E) | exact (suspend_advances _ _ _ Hu E)].
Qed.

Lemma axiosGet_leads {A} I (answer : Fetch A) :
  leads I suspend I -> leads I (axiosGet answer) I.
Proof.
  intros Hs. unfold axiosGet. apply leads_bind; [exact Hs|]. intros _.
  destruct answer as [status txt data|e]; [|apply leads_throw].
  destruct (status <? 500); [apply leads_ret | apply leads_throw].
Qed.

(** The rounded percentage of an update is at most 90. *)
Lemma currentProgress_le_90 depth maxDepth :
  (1 <= maxDepth)%nat ->
  exists c, currentProgress depth maxDepth = Fin c /\ c <= 90.
Proof.
  intros H. destruct maxDepth as [|m]; [lia|]. simpl.
  eexists. split; [reflexivity|].
  unfold jsRound.
  change 90 with (Qfloor (90 + (1 # 2))).
  apply Qfloor_resp_le. apply Qplus_le_l. apply Q.le_min_r.
Qed.

Section Crawl.
Variable repo : string.
Variable listing : string -> Fetch (list Item).
Variable analysisId : string.
Variable maxDepth : nat.
Hypothesis positive : (1 <= maxDepth)%nat.

Lemma recordProgress_progress path depth t :
  exists c a',
    currentProgress depth maxDepth = Fin c /\ c <= 90 /\
    get analysisId (recordProgress analysisId maxDepth path depth t) = Some a' /\
    progress a' = Fin (Z.max (match get analysisId t with
                              | Some a => progressOf a
                              | None => 0
                              end) c).
Proof.
  destruct (currentProgress_le_90 depth maxDepth positive) as [c [Ec Hc]].
  exists c. eexists. split; [exact Ec|]. split; [exact Hc|].
  unfold recordProgress. rewrite get_set_same. split; [reflexivity|].
  simpl. rewrite Ec. simpl. now destruct (get analysisId t).
Qed.

Lemma updateProgress_leads path depth :
  leads (bounded analysisId) (updateProgress analysisId maxDepth path depth)
        (bounded analysisId).
Proof.
  unfold updateProgress. destruct (truthy analysisId); [|apply leads_ret].
  intros w o w' [Hu Hw] [= _ <-].
  destruct (recordProgress_progress path depth (activeAnalyses w))
    as [c [a' [Ec [Hc [Eg Ep]]]]].
  assert (Hprev : match get analysisId (activeAnalyses w) with
                  | Some a => progressOf a
                  | None => 0
                  end <= 100).
  { destruct (get analysisId (activeAnalyses w)) as [a|] eqn:E; [now apply Hw | lia]. }
  split.
  - split; [exact Hu|].
    intros a Ha. simpl in Ha. rewrite Eg in Ha. injection Ha as <-.
    unfold progressOf. rewrite Ep. simpl. lia.
  - apply advances_table. unfold recordProgress at 1.
    apply tableLe_set. intros a Ha.
    unfold recordProgress in Eg. rewrite get_set_same in Eg. injection Eg as Eg.
    rewrite Eg. unfold progressOf at 2. rewrite Ep. simpl. rewrite Ha. lia.
Qed.

Lemma checkCancelled_leads I : leads I (checkCancelled analysisId) I.
Proof.
  apply leads_still. intros w. unfold checkCancelled.
  now destruct (isCancelled analysisId w).
Qed.

Lemma processItems_leads descend depth items :
  (forall p, leads (bounded analysisId) (descend p) (bounded analysisId)) ->
  forall children,
    leads (bounded analysisId)
          (processItems analysisId maxDepth descend depth items children)
          (bounded analysisId).
Proof.
  intros Hd. induction items as [|item rest IH]; intros children; simpl.
  - apply leads_ret.
  - apply leads_bind; [apply checkCancelled_leads|]. intros _.
    destruct (Denylist.shouldSkip (name item)); [apply IH|].
    destruct (type item =? "dir")%string; [|apply IH].
    apply leads_bind; [apply Hd | intros; apply IH].
Qed.

(** During a crawl the table loses nothing and the polls never see a
    percentage go down. *)
Lemma build_leads fuel :
  forall path depth,
    leads (bounded analysisId)
          (buildFileTreeWithCancellation repo listing analysisId maxDepth fuel path depth)
          (bounded analysisId).
Proof.
  induction fuel as [|fuel IH]; intros path depth; simpl.
  - now apply leads_still.
  - apply leads_tryCatch; [|intros e; apply leads_throw].
    apply leads_bind; [apply checkCancelled_leads|]. intros _.
    apply leads_bind; [apply updateProgress_leads|]. intros _.
    destruct (maxDepth <=? depth)%nat; [apply leads_ret|].
    apply leads_bind; [apply axiosGet_leads, suspend_leads_bounded|].
    intros [[status txt] items].
    destruct (status =? 404); [apply leads_ret|].
    destruct (status =? 403); [apply leads_ret|].
    destruct (400 <=? status); [apply leads_throw|].
    apply leads_bind; [|intros; apply leads_ret].
    apply processItems_leads. intros p. apply IH.
Qed.

End Crawl.

End ProgressRuns.

Section AnalyzeProgress.
Import Api Store Run Crawler Analyze Props.
Local Open Scope run_scope.

Variable user : string.
Variable now : string.
Variable body : Body.
Variable env : Env.

Local Abbreviation id := (analysisId user now).

Lemma advances_same w w' :
  activeAnalyses w' = activeAnalyses w -> replies w' = replies w -> advances w w'.
Proof.
  intros Ht Hr. split; [rewrite Ht; apply tableLe_refl|].
  exists []. split; [now rewrite app_nil_r|]. intros u. split; constructor.
Qed.

Lemma ends_weaken {A} (I J : World -> Prop) (m : M A) :
  (forall w, I w -> J w) -> ends J m -> ends I m.
Proof. intros HIJ Hm w o w' Hw. apply Hm. now apply HIJ. Qed.

(** A last change of the table, after which nothing is served. *)
Lemma ends_table {A} I f (a : A) : ends I (modify (withAnalyses f) ;; ret a).
Proof.
  intros w o w' _ [= _ <-].
  apply (reports_same_replies w w); [apply advances_reports, advances_refl | reflexivity].
Qed.

Lemma validate_leads owner repo answer :
  leads (fresh id) (validateRepositoryExists owner repo answer) (fresh id).
Proof.
  unfold validateRepositoryExists. apply leads_tryCatch.
  - apply leads_bind; [apply axiosGet_leads, suspend_leads_fresh|].
    intros [[status txt] repoData].
    destruct (status =? 404); [apply leads_throw|].
    destruct (status =? 403); [apply leads_throw|].
    destruct (400 <=? status); [apply leads_throw|].
    destruct (repoSize repoData =? 0); [apply leads_throw|].
    destruct (default_branch repoData) as [[|c s]|];
      [apply leads_throw | apply leads_ret | apply leads_throw].
  - intros e. destruct (responseStatus e) as [z|]; [|apply leads_throw].
    destruct (z =? 404) eqn:E4.
    + apply Z.eqb_eq in E4. subst z. apply leads_throw.
    + destruct (z =? 403) eqn:E3.
      * apply Z.eqb_eq in E3. subst z. apply leads_throw.
      * destruct z as [|[p|p|]|p]; try apply leads_throw;
          repeat (destruct p as [p|p|]; try apply leads_throw).
Qed.

Lemma crawlPhase_leads repo depth :
  (1 <= depth)%nat ->
  leads (fresh id) (crawlPhase user now env repo depth) (bounded id).
Proof.
  intros Hd. unfold crawlPhase. apply leads_bind.
  - intros w o w' [Hu Hw] [= _ <-]. split.
    + split; [exact Hu|].
      intros a Ha. simpl in Ha. rewrite get_set_same in Ha.
      injection Ha as <-. unfold progressOf. simpl. lia.
    + apply advances_table. apply tableLe_set. intros a Ha. congruence.
  - intros _. apply leads_bind; [apply build_leads; exact Hd|].
    intros fileTree. apply leads_bind; [|intros; apply leads_ret].
    intros w o w' [Hu Hw] [= _ <-]. split.
    + split; [exact Hu|].
      intros a Ha. simpl in Ha. unfold completeProgress in Ha.
      rewrite get_set_same in Ha. injection Ha as <-. unfold progressOf. simpl. lia.
    + apply advances_table. unfold completeProgress. apply tableLe_set.
      intros a Ha. unfold progressOf at 2. simpl. apply Hw. exact Ha.
Qed.

(** After a crawl that returned, the table shows exactly 100. *)
Lemma crawlPhase_complete repo depth w fileTree w' :
  crawlPhase user now env repo depth w = (Ok fileTree, w') ->
  exists a, get id (activeAnalyses w') = Some a /\ progress a = Fin 100.
Proof.
  unfold crawlPhase, bind, modify.
  destruct (crawl repo (contents env) (analysisId user now) depth _)
    as [[t|e|] w1]; try discriminate.
  intros [= _ <-]. simpl. unfold completeProgress.
  rewrite get_set_same. eexists. split; reflexivity.
Qed.

Lemma saveRepository_leads url fileTree stats :
  leads anyWorld (saveRepository user url fileTree stats) anyWorld.
Proof.
  unfold saveRepository. apply leads_bind; [apply suspend_leads_any|]. intros _.
  intros w o w' Hu E.
  destruct (Repository.create user url fileTree (Some stats) (database w)) as [[u|msg] d];
    injection E as _ <-; (split; [exact Hu | now apply advances_same]).
Qed.

Lemma reportPhase_ends url owner repo depth fileTree :
  ends anyWorld (reportPhase user now env url owner repo depth fileTree).
Proof.
  unfold reportPhase.
  do 6 (eapply ends_bind; [apply suspend_leads_any|]; intros _).
  eapply ends_bind; [apply saveRepository_leads|]. intros _.
  eapply ends_bind.
  { unfold incrementAnalyses. apply leads_bind; [apply suspend_leads_any|]. intros _.
    destruct (statisticsFailure env); [apply leads_throw | apply leads_ret]. }
  intros _. apply ends_table.
Qed.

Lemma attempt_ends : ends (fresh id) (attempt user now body env).
Proof.
  unfold attempt.
  destruct (repoUrl body) as [[|c url]|];
    try (eapply ends_leads; apply leads_ret).
  destruct (Parser.parseGitHubUrl (String c url)) as [[owner repo]|];
    [|eapply ends_leads; apply leads_ret].
  eapply ends_bind; [apply validate_leads|]. intros _.
  eapply ends_bind.
  { apply crawlPhase_leads. pose proof (clampDepth_range (maxDepth body)). lia. }
  intros fileTree.
  eapply ends_bind; [apply leads_gets|]. intros [|].
  - apply ends_table.
  - eapply ends_weaken; [|apply reportPhase_ends]. intros w Hw. exact (proj1 Hw).
Qed.

Lemma analyze_ends : ends (fresh id) (analyze user now body env).
Proof.
  intros w o w' Hw. unfold analyze, tryCatch.
  destruct (attempt user now body env w) as [[r|e|] w1] eqn:E;
    pose proof (attempt_ends _ _ _ Hw E) as H.
  - now intros [= _ <-].
  - intros [= _ <-]. exact (reports_same_replies _ _ _ H eq_refl).
  - now intros [= _ <-].
Qed.

End AnalyzeProgress.

(** ** The progress of one analysis *)

Section ProgressClaim.
Import Api Store Run Crawler Analyze Props Samples Cases.

(** C5, where the code departs from it: the cleanup loop of the
    route's [catch] deletes the first entry whose key begins with the
    id of its user, whichever analysis it belongs to.  When an analyze
    request of user 7 fails while an analysis of user 7 is two levels
    deep, the entry of the running analysis is deleted, the next
    progress update starts again from an empty entry, and the polls
    see 63 and then 37, although the analysis goes on and succeeds.
    While no other analyze request fails, the percentages the polls of
    any user are answered with never decrease. *)
Theorem progress_restarts_after_failed_request :
  let run := analyze "7" "1700000000000" (request address "3") (github nestedRepo None)
                     (world failureAtDepthTwo) in
  polled "7" (replies (snd run)) = [63; 37] /\
  statusOf (match fst run with Ok resp => resp | _ => Json 0 "" None None end) = 200 /\
  forall user now body env w o w',
    undisturbed w ->
    get (analysisId user now) (activeAnalyses w) = None ->
    analyze user now body env w = (o, w') ->
    exists new, replies w' = (replies w ++ new)%list /\
                forall u, StronglySorted Z.le (polled u new).
Proof.
  split; [vm_compute; reflexivity|]. split; [vm_compute; reflexivity|].
  intros user now body env w o w' Hu Hfresh Hrun.
  destruct (analyze_ends user now body env w o w' (conj Hu Hfresh) Hrun) as [new [E H]].
  exists new. split; [exact E|]. intros u. exact (proj1 (H u)).
Qed.

End ProgressClaim.

(** ** Runs of the crawler on the sample repositories *)

Section CrawlRuns.
Import Api Run Crawler Props Samples.

Lemma crawl_depth_bounded_witness :
  exists tree w',
    crawl "b" smallRepo "7-1" 2 (world polls) = (Ok tree, w') /\
    forall n, In n (Tree.nodes tree) ->
      (forall k, Tree.depth n = Some k \/ Tree.actualDepth n = Some k -> (k <= 2)%nat) /\
      (Tree.type n = Tree.folder ->
       Tree.depth n = Some 2%nat \/ Tree.actualDepth n = Some 2%nat ->
       Tree.truncated n = true /\ Tree.children n = []) /\
      (Tree.truncated n = true -> Tree.children n = []).
Proof.
  destruct (crawl "b" smallRepo "7-1" 2 (world polls)) as [o w'] eqn:E.
  assert (Ho : exists tree, o = Ok tree).
  { apply (f_equal fst) in E. vm_compute in E. subst o. eexists. reflexivity. }
  destruct Ho as [tree ->]. exists tree, w'. split; [reflexivity|].
  exact (proj2 (crawl_depth_bounded "b" smallRepo "7-1" 2 (world polls) w' tree E)).
Defined.

Lemma smallRepo_answered : forall p, answered (smallRepo p).
Proof.
  intros p. unfold smallRepo, ok.
  destruct (p =? "")%string; [eexists _, _, _; split; [reflexivity | lia]|].
  destruct (p =? "src")%string; [eexists _, _, _; split; [reflexivity | lia]|].
  destruct (p =? "src/private")%string; eexists _, _, _; split; try reflexivity; lia.
Qed.

Lemma polls_quiet : quiet "7-1" (world polls).
Proof. split; [reflexivity|]. repeat constructor. Qed.


(** The folder of a refused listing is in the tree, childless, and
    carries no [error] field: the parent copies [truncated] and
    [message] from the node the recursive call returned, not [error]. *)
Example refused_listing_in_tree :
  exists tree w',
    crawl "b" smallRepo "7-1" 5 (world []) = (Ok tree, w') /\
    exists n, In n (descendants tree) /\ Tree.path n = Some "src/private" /\
              Tree.children n = [] /\ Tree.truncated n = false /\ Tree.error n = None.
Proof.
  eexists _, _. split; [vm_compute; reflexivity|].
  eexists. split; [right; right; right; left; reflexivity|]. repeat split.
Qed.

End CrawlRuns.

(** ** The denylist in the tree and in the totals *)

Section DenylistFacts.
Import Js Api Run Crawler Props Samples.
Local Open Scope run_scope.

Variable repo : string.
Variable listing : string -> Fetch (list Item).
Variable analysisId : string.
Variable maxDepth : nat.

Lemma processItems_kept descend depth items :
  (forall p, returns (descend p) (fun t => Forall kept (descendants t))) ->
  forall children,
    Forall (fun c => Forall kept (Tree.nodes c)) children ->
    returns (processItems analysisId maxDepth descend depth items children)
            (Forall (fun c => Forall kept (Tree.nodes c))).
Proof.
  intros Hd. induction items as [|item rest IH]; intros children Hc; simpl.
  - now apply returns_ret.
  - apply returns_bind with (P := fun _ => True); [apply returns_any|]. intros _ _.
    destruct (Denylist.shouldSkip (name item)) eqn:Es; [now apply IH|].
    destruct (type item =? "dir")%string.
    + eapply returns_bind; [apply Hd|].
      intros subTree Hs. apply IH. apply Forall_app. split; [exact Hc|].
      constructor; [|constructor]. simpl. constructor; [exact Es | exact Hs].
    + apply IH. apply Forall_app. split; [exact Hc|].
      constructor; [|constructor]. simpl. constructor; [exact Es | constructor].
Qed.

(** No node below the root of a crawled tree has a name the crawler's
    filter matches, at any depth. *)
Lemma build_kept fuel :
  forall path depth,
    returns (buildFileTreeWithCancellation repo listing analysisId maxDepth fuel path depth)
            (fun t => Forall kept (descendants t)).
Proof.
  induction fuel as [|fuel IH]; intros path depth; simpl.
  - intros w a w' H. discriminate.
  - apply returns_tryCatch; [|intros e; apply returns_throw].
    apply returns_bind with (P := fun _ => True); [apply returns_any|]. intros _ _.
    apply returns_bind with (P := fun _ => True); [apply returns_any|]. intros _ _.
    destruct (maxDepth <=? depth)%nat; [apply returns_ret; constructor|].
    apply returns_bind with (P := fun _ => True); [apply returns_any|].
    intros [[status txt] items] _.
    destruct (status =? 404); [apply returns_ret; constructor|].
    destruct (status =? 403); [apply returns_ret; constructor|].
    destruct (400 <=? status); [apply returns_throw|].
    eapply returns_bind.
    + apply processItems_kept; [|constructor]. intros p. apply IH.
    + intros children Hc. apply returns_ret.
      unfold descendants. simpl. apply Forall_flat_map. exact Hc.
Qed.

(** The reconciler skips every entry whose last path segment the
    crawler's filter matches. *)
Lemma shouldSkipPath_lastSegment (p : string) :
  Denylist.shouldSkip (lastSegment p) = true -> Denylist.shouldSkipPath p = true.
Proof.
  unfold Denylist.shouldSkip, Denylist.shouldSkipPath.
  intros H. apply existsb_exists in H. destruct H as [pattern [Hin H]].
  apply existsb_exists. exists pattern. split; [exact Hin|].
  destruct (includes pattern "*"); rewrite H; apply orb_true_r.
Qed.

(** Entries the reconciler's filter matches do not count. *)
Lemma countListing_skipped tree :
  forall files folders,
    Reconciler.countListing
      (filter (fun item => negb (Denylist.shouldSkipPath (flatPath item))) tree) files folders
    = Reconciler.countListing tree files folders.
Proof.
  induction tree as [|item rest IH]; intros files folders; simpl; [reflexivity|].
  destruct (Denylist.shouldSkipPath (flatPath item)) eqn:E; simpl; [apply IH|].
  rewrite E. destruct (flatType item =? "blob")%string; [apply IH|].
  destruct (flatType item =? "tree")%string; [|apply IH].
  destruct (negb (flatPath item =? "")%string); apply IH.
Qed.

End DenylistFacts.

Section CountClaims.
Import Js Api Run Crawler Analyze Props Samples.
Local Open Scope run_scope.

(** C3, where the code departs from it: [node_modules] is on the
    denylist and the crawler leaves it and its content out of the tree,
    but the reconciler counts the file below it, because it matches the
    patterns against the whole path and its last segment only. *)
Theorem reconciler_counts_below_denylisted_folder :
  Denylist.shouldSkip "node_modules" = true /\
  Denylist.shouldSkipPath "node_modules/a.js" = false /\
  exists tree w',
    crawl "b" vendoredRepo "7-1" 5 (world []) = (Ok tree, w') /\
    map Tree.name (descendants tree) = ["index.js"] /\
    Tree.countAnalyzed tree = (1, 0) /\
    Reconciler.totalCounts (Some vendoredTree) tree = (2, 0).
Proof.
  split; [reflexivity|]. split; [reflexivity|].
  eexists _, _. split; [vm_compute; reflexivity|]. repeat split.
Qed.

(** Every exception that leaves the crawler carries the prefix of its
    [catch]. *)
Lemma build_throws_prefixed repo listing analysisId maxDepth fuel path depth w e w' :
  buildFileTreeWithCancellation repo listing analysisId maxDepth fuel path depth w
  = (Throw e, w') ->
  exists msg, e = newError ("GitHub API error: " ++ msg).
Proof.
  destruct fuel as [|fuel]; simpl; [discriminate|].
  unfold tryCatch.
  match goal with |- context [match ?body w with _ => _ end] =>
    destruct (body w) as [[t|e0|] w1] end;
    try discriminate.
  unfold rethrow, throw. intros [= <- _]. now exists (message e0).
Qed.

(** The route never takes such an exception for a cancellation. *)
Lemma prefixed_exception_not_499 msg :
  statusOf (errorResponse (newError ("GitHub API error: " ++ msg))) <> 499.
Proof.
  unfold errorResponse. simpl.
  destruct (includes _ "not found" || includes _ "Repository"); simpl; discriminate.
Qed.

(** C2, where the code departs from it: a cancel request served while
    the root listing is fetched stops the crawl and nothing is saved,
    but the exception reaches the route with the prefix the crawler's
    own [catch] adds, so the route does not recognise it and answers
    500 instead of the 499 it has for a cancellation; no exception of
    the crawler is ever answered with 499. *)
Theorem cancelled_crawl_answered_as_failure :
  let run := analyze "7" "1700000000000" (request "https://github.com/a/b" "5")
                     (github smallRepo None) (world cancelDuringRoot) in
  fst run = Ok (Json 500 "Failed to analyze repository"
                     (Some "GitHub API error: Analysis cancelled by user") None) /\
  replies (snd run)
  = [(Store.CancelRequest "7" None,
      Store.CancelReply "Analysis cancellation requested" true)] /\
  database (snd run) = emptyStore /\
  errorResponse (newError "Analysis cancelled by user")
  = Json 499 "Analysis cancelled by user" None (Some true) /\
  forall repo listing analysisId maxDepth w e w',
    crawl repo listing analysisId maxDepth w = (Throw e, w') ->
    statusOf (errorResponse e) <> 499.
Proof.
  repeat split.
  intros repo listing analysisId maxDepth w e w' H.
  destruct (build_throws_prefixed _ _ _ _ _ _ _ _ _ _ H) as [msg ->].
  apply prefixed_exception_not_499.
Qed.

Lemma analyze_clamped user now body env : returns (analyze user now body env) clamped.
Proof.
  unfold analyze. apply returns_tryCatch.
  2:{ intros e. apply returns_bind with (P := fun _ => True); [apply returns_any|].
      intros _ _. apply returns_ret. unfold errorResponse.
      repeat match goal with |- clamped (if ?c then _ else _) => destruct c end;
        exact I. }
  unfold attempt.
  destruct (repoUrl body) as [[|c url]|]; try (apply returns_ret; exact I).
  destruct (Parser.parseGitHubUrl (String c url)) as [[owner repo]|];
    [|apply returns_ret; exact I].
  apply returns_bind with (P := fun _ => True); [apply returns_any|]. intros _ _.
  apply returns_bind with (P := fun _ => True); [apply returns_any|]. intros fileTree _.
  apply returns_bind with (P := fun _ => True); [apply returns_any|]. intros [|] _.
  - apply returns_bind with (P := fun _ => True); [apply returns_any|]. intros _ _.
    apply returns_ret. exact I.
  - unfold reportPhase.
    do 9 (apply returns_bind with (P := fun _ => True); [apply returns_any|]; intros _ _).
    apply returns_ret. simpl. split; reflexivity.
Qed.

(** C6, as amended: the counts of analyzed files and folders a
    completed analysis reports are the counts of the tree cut down to
    the reconciler's totals, so they never exceed the totals. *)
Theorem reported_counts_within_totals
        (user now : string) (body : Body) (env : Env) (w w' : World)
        (owner repo : string) (fileTree : Tree.TreeNode) (config : AnalysisConfig)
        (Hrun : analyze user now body env w = (Ok (Analyzed owner repo fileTree config), w')) :
  analyzedFiles config <= totalFiles config /\
  analyzedFolders config <= totalFolders config /\
  analyzedFiles config = Z.min (fst (Tree.countAnalyzed fileTree)) (totalFiles config) /\
  analyzedFolders config = Z.min (snd (Tree.countAnalyzed fileTree)) (totalFolders config).
Proof.
  destruct (analyze_clamped user now body env _ _ _ Hrun) as [Hf Hd]. lia.
Qed.

Lemma reported_counts_within_totals_witness :
  exists fileTree config w',
    analyze "7" "1700000000000" (request "https://github.com/a/b" "5")
            (github loginRepo (Some loginTree)) (world polls)
    = (Ok (Analyzed "a" "b" fileTree config), w') /\
    analyzedFiles config <= totalFiles config /\
    analyzedFolders config <= totalFolders config.
Proof.
  eexists _, _, _. split; [vm_compute; reflexivity|].
  pose proof (reported_counts_within_totals
                "7" "1700000000000" (request "https://github.com/a/b" "5")
                (github loginRepo (Some loginTree)) (world polls) _ _ _ _ _ eq_refl) as H.
  split; [exact (proj1 H) | exact (proj1 (proj2 H))].
Defined.

(** C6, as stated, fails: for [docs/login.md] the crawler keeps the
    file, the reconciler skips it because its path matches the pattern
    for log files, and the total of files is below the count of the
    tree. *)
Lemma totals_below_tree_counts :
  Denylist.shouldSkip "login.md" = false /\
  Denylist.shouldSkipPath "docs/login.md" = true /\
  exists tree w',
    crawl "b" loginRepo "7-1" 5 (world []) = (Ok tree, w') /\
    Tree.countAnalyzed tree = (1, 1) /\
    Reconciler.totalCounts (Some loginTree) tree = (0, 1) /\
    ~ fst (Tree.countAnalyzed tree) <= fst (Reconciler.totalCounts (Some loginTree) tree).
Proof.
  split; [reflexivity|]. split; [reflexivity|].
  eexists _, _. split; [vm_compute; reflexivity|].
  split; [reflexivity|]. split; [reflexivity|]. vm_compute. intros H. now apply H.
Qed.

End CountClaims.

(** ** The URL parser on well-formed addresses *)

Section ParserAccepts.
Import Js Parser Props Urls.

Lemma stripPrefix_same (p s : string) : stripPrefix p (p ++ s) = Some s.
Proof. induction p as [|a p IH]; simpl; [reflexivity|]. now rewrite Ascii.eqb_refl. Qed.

Lemma span_all (p : ascii -> bool) (a b : string) :
  allChars p a = true ->
  match b with String c _ => p c = false | EmptyString => True end ->
  span p (a ++ b) = (a, b).
Proof.
  intros Ha Hb. induction a as [|c a IH]; simpl.
  - destruct b as [|c b]; [reflexivity|]. simpl. now rewrite Hb.
  - simpl in Ha. apply andb_prop in Ha. destruct Ha as [Hc Ha].
    rewrite Hc. now rewrite (IH Ha).
Qed.

Lemma allChars_impl (p q : ascii -> bool) (s : string) :
  (forall c, p c = true -> q c = true) -> allChars p s = true -> allChars q s = true.
Proof.
  intros H. induction s as [|c s IH]; simpl; [reflexivity|].
  intros Hs. apply andb_prop in Hs. destruct Hs as [Hc Hs].
  now rewrite (H c Hc), (IH Hs).
Qed.

Lemma isRepoChar_isSegChar (c : ascii) : isRepoChar c = true -> isSegChar c = true.
Proof. destruct c as [[] [] [] [] [] [] [] []]; vm_compute; congruence. Qed.

Lemma isOwnerChar_isRepoChar (c : ascii) : isOwnerChar c = true -> isRepoChar c = true.
Proof. unfold isRepoChar. now intros ->. Qed.

Lemma testIdent_segment (mid : ascii -> bool) (s : string) :
  (forall c, isAlnum c = true -> mid c = true) ->
  (forall c, mid c = true -> isSegChar c = true) ->
  testIdent mid s = true -> allChars isSegChar s = true /\ (s =? "")%string = false.
Proof.
  intros Ha Hs Ht. destruct (testIdent_identifier mid s Ha Ht) as [Hall [[c [Hc _]] _]].
  split; [exact (allChars_impl _ _ _ Hs Hall)|].
  destruct s; [discriminate | reflexivity].
Qed.

Lemma matchHere_accepts (owner repo post : string) :
  validOwnerPattern owner = true -> validRepoPattern repo = true -> boundary post ->
  matchHere (marker ++ owner ++ "/" ++ repo ++ post) = Some (owner, repo).
Proof.
  intros Ho Hr Hb. unfold matchHere. rewrite stripPrefix_same.
  destruct (testIdent_segment _ _ alnum_isOwnerChar
              (fun c H => isRepoChar_isSegChar c (isOwnerChar_isRepoChar c H)) Ho) as [Hso Hne].
  destruct (testIdent_segment _ _ alnum_isRepoChar isRepoChar_isSegChar Hr) as [Hsr Hnr].
  rewrite (span_all isSegChar owner ("/" ++ repo ++ post) Hso eq_refl).
  rewrite Hne. simpl.
  rewrite (span_all isSegChar repo post Hsr Hb). now rewrite Hnr.
Qed.

Lemma regexMatch_skip (pre s : string) :
  noMarkerStart pre = true -> regexMatch (pre ++ s) = regexMatch s.
Proof.
  induction pre as [|c pre IH]; [reflexivity|].
  intros H. apply andb_prop in H. destruct H as [Hc Hp].
  change (regexMatch (String c pre ++ s))
    with (match matchHere (String c (pre ++ s)) with
          | Some m => Some m
          | None => regexMatch (pre ++ s)
          end).
  assert (Hm : matchHere (String c (pre ++ s)) = None).
  { unfold matchHere.
    change (stripPrefix marker (String c (pre ++ s)))
      with (if ("g" =? c)%char then stripPrefix "ithub.com/" (pre ++ s) else None).
    rewrite Ascii.eqb_sym. apply negb_true_iff in Hc. now rewrite Hc. }
  rewrite Hm. now apply IH.
Qed.

(** X1: the parser returns the owner and the repository of every address
    whose cleaned text is a prefix without the letter g (such as
    [https://]), the marker, a valid owner, a slash and a valid
    repository that ends at a slash, at white space or at the end. *)
Theorem parser_accepts_address (url pre owner repo post : string)
        (Hclean : cleanUrl url = pre ++ marker ++ owner ++ "/" ++ repo ++ post)
        (Hpre : noMarkerStart pre = true)
        (Howner : validOwnerPattern owner = true)
        (Hrepo : validRepoPattern repo = true)
        (Hpost : boundary post) :
  parseGitHubUrl url = Some (owner, repo).
Proof.
  unfold parseGitHubUrl. rewrite Hclean, (regexMatch_skip _ _ Hpre).
  assert (Hm : regexMatch (marker ++ owner ++ "/" ++ repo ++ post) = Some (owner, repo)).
  { change (regexMatch (marker ++ owner ++ "/" ++ repo ++ post))
      with (match matchHere (marker ++ owner ++ "/" ++ repo ++ post) with
            | Some m => Some m
            | None => regexMatch ("ithub.com/" ++ owner ++ "/" ++ repo ++ post)
            end).
    now rewrite matchHere_accepts. }
  rewrite Hm, Howner, Hrepo.
  destruct (testIdent_segment _ _ alnum_isRepoChar isRepoChar_isSegChar Hrepo) as [_ ->].
  destruct (testIdent_segment _ _ alnum_isOwnerChar
              (fun c H => isRepoChar_isSegChar c (isOwnerChar_isRepoChar c H)) Howner) as [_ ->].
  reflexivity.
Qed.

Lemma parser_accepts_address_witness :
  parseGitHubUrl "https://github.com/rocq-prover/rocq/tree/master"
  = Some ("rocq-prover", "rocq").
Proof.
  apply (parser_accepts_address _ "https://" "rocq-prover" "rocq" "/tree/master");
    reflexivity.
Defined.

End ParserAccepts.

Section ParserSuffixes.
Import Js Parser Props Urls.

Lemma removeSuffix_same (suf x : string) : removeSuffix suf (x ++ suf) = x.
Proof.
  induction x as [|a x IH].
  - destruct suf; simpl; [reflexivity|]. now rewrite Ascii.eqb_refl, String.eqb_refl.
  - change (removeSuffix suf (String a x ++ suf))
      with (if (String a (x ++ suf) =? suf)%string then ""
            else String a (removeSuffix suf (x ++ suf))).
    destruct (String.eqb_spec (String a (x ++ suf)) suf) as [E|_]; [|now rewrite IH].
    apply (f_equal String.length) in E. simpl in E. rewrite length_append in E. lia.
Qed.

Lemma removeSuffix_none (suf s : string) : endsWith s suf = false -> removeSuffix suf s = s.
Proof.
  induction s as [|a s IH]; intros H.
  - simpl in *. apply orb_false_elim in H. destruct H as [-> _]. reflexivity.
  - change (endsWith (String a s) suf)
      with ((String a s =? suf)%string || endsWith s suf) in H.
    apply orb_false_elim in H. destruct H as [E H].
    change (removeSuffix suf (String a s))
      with (if (String a s =? suf)%string then "" else String a (removeSuffix suf s)).
    now rewrite E, (IH H).
Qed.

Lemma lastChar_app (a b : string) : b <> "" -> lastChar (a ++ b) = lastChar b.
Proof.
  intros Hb. induction a as [|c a IH]; [reflexivity|].
  change (lastChar (String c a ++ b))
    with (match (a ++ b) with "" => Some c | _ => lastChar (a ++ b) end).
  destruct (a ++ b) eqn:E; [|exact IH].
  destruct a; [now elim Hb | discriminate].
Qed.

Lemma endsWith_lastChar (s suf : string) :
  endsWith s suf = true -> suf <> "" -> lastChar s = lastChar suf.
Proof.
  intros H Hs. induction s as [|a s IH].
  - destruct suf; [now elim Hs | simpl in H; discriminate].
  - change (endsWith (String a s) suf)
      with ((String a s =? suf)%string || endsWith s suf) in H.
    apply orb_prop in H. destruct H as [E|E].
    + apply String.eqb_eq in E. now subst.
    + rewrite <- (IH E). destruct s; [|reflexivity].
      destruct suf; [now elim Hs | simpl in E; discriminate].
Qed.

Lemma trimStart_length (s : string) : (String.length (trimStart s) <= String.length s)%nat.
Proof.
  induction s as [|c s IH]; simpl; [lia|]. destruct (isWhiteSpace c); simpl; lia.
Qed.

Lemma trimStart_app (s t : string) :
  s <> "" -> trimStart s = s -> trimStart (s ++ t) = s ++ t.
Proof.
  intros Hne H. destruct s as [|c s]; [now elim Hne|]. simpl in *.
  destruct (isWhiteSpace c); [|reflexivity].
  pose proof (trimStart_length s) as Hl. rewrite H in Hl. simpl in Hl. lia.
Qed.

Lemma trimEnd_kept (s : string) (c : ascii) :
  lastChar s = Some c -> isWhiteSpace c = false -> trimEnd s = s.
Proof.
  intros Hl Hc. induction s as [|a s IH]; [reflexivity|].
  destruct s as [|b s].
  - simpl in *. injection Hl as ->. now rewrite Hc.
  - change (trimEnd (String a (String b s)))
      with (if isWhiteSpace a && (trimEnd (String b s) =? "")%string then ""
            else String a (trimEnd (String b s))).
    rewrite (IH Hl). now rewrite andb_false_r.
Qed.

Lemma cleanUrl_trimmed (s : string) :
  trimmed s -> endsWith s "/" = false -> endsWith s ".git" = false -> cleanUrl s = s.
Proof.
  intros [_ [Hs He]] H1 H2. unfold cleanUrl, trim.
  now rewrite Hs, He, (removeSuffix_none _ _ H1), (removeSuffix_none _ _ H2).
Qed.

Lemma trim_app (s t : string) (c : ascii) :
  trimmed s -> lastChar t = Some c -> isWhiteSpace c = false -> trim (s ++ t) = s ++ t.
Proof.
  intros [Hne [Hs _]] Hl Hc. unfold trim. rewrite (trimStart_app _ _ Hne Hs).
  apply (trimEnd_kept _ c); [|exact Hc].
  rewrite lastChar_app; [exact Hl|]. destruct t; [discriminate | discriminate].
Qed.

(** X2: a trailing slash, a trailing [.git] and both together make no
    difference: for an address without white space around it that ends
    with neither, the parser gives the same answer with and without
    them. *)
Theorem parser_ignores_suffix (s : string)
        (Htrim : trimmed s)
        (Hslash : endsWith s "/" = false)
        (Hgit : endsWith s ".git" = false) :
  parseGitHubUrl (s ++ "/") = parseGitHubUrl s /\
  parseGitHubUrl (s ++ ".git") = parseGitHubUrl s /\
  parseGitHubUrl (s ++ ".git/") = parseGitHubUrl s.
Proof.
  assert (H0 : cleanUrl s = s) by now apply cleanUrl_trimmed.
  assert (H1 : cleanUrl (s ++ "/") = s).
  { unfold cleanUrl. rewrite (trim_app s "/" "/" Htrim eq_refl eq_refl).
    rewrite removeSuffix_same. now apply removeSuffix_none. }
  assert (Hg : endsWith (s ++ ".git") "/" = false).
  { apply not_true_is_false. intros E. apply endsWith_lastChar in E; [|discriminate].
    rewrite lastChar_app in E; discriminate. }
  assert (H2 : cleanUrl (s ++ ".git") = s).
  { unfold cleanUrl. rewrite (trim_app s ".git" "t" Htrim eq_refl eq_refl).
    rewrite (removeSuffix_none _ _ Hg). apply removeSuffix_same. }
  assert (H3 : cleanUrl (s ++ ".git/") = s).
  { unfold cleanUrl. rewrite (trim_app s ".git/" "/" Htrim eq_refl eq_refl).
    assert (E : s ++ ".git/" = (s ++ ".git") ++ "/").
    { clear. induction s as [|c s IH]; [reflexivity|]. simpl. now rewrite IH. }
    rewrite E, removeSuffix_same. apply removeSuffix_same. }
  unfold parseGitHubUrl. now rewrite H0, H1, H2, H3.
Qed.

Lemma parser_ignores_suffix_witness :
  parseGitHubUrl "https://github.com/a/b.git/" = parseGitHubUrl "https://github.com/a/b".
Proof.
  refine (proj2 (proj2 (parser_ignores_suffix "https://github.com/a/b" _ eq_refl eq_refl))).
  split; [discriminate | split; reflexivity].
Defined.

End ParserSuffixes.

(** ** Malformed addresses *)

Section ParserMalformed.
Import Js Parser Props Urls.

Lemma append_same_length (a b x y : string) :
  a ++ x = b ++ y -> String.length a = String.length b -> a = b /\ x = y.
Proof.
  revert b. induction a as [|c a IH]; intros [|c' b]; simpl; try discriminate.
  - auto.
  - intros [= -> H] [= Hl]. destruct (IH _ H Hl) as [-> ->]. auto.
Qed.

Lemma append_cancel (p x y : string) : p ++ x = p ++ y -> x = y.
Proof. induction p as [|c p IH]; simpl; [auto|]. intros [= H]. auto. Qed.

(** A run of characters ends where the first other character is. *)
Lemma run_unique (p : ascii -> bool) (a b x y : string) :
  allChars p a = true -> allChars p b = true ->
  match x with String c _ => p c = false | EmptyString => True end ->
  match y with String c _ => p c = false | EmptyString => True end ->
  a ++ x = b ++ y -> a = b /\ x = y.
Proof.
  revert b. induction a as [|c a IH]; intros [|c' b]; simpl; intros Ha Hb Hx Hy E.
  - auto.
  - subst x. apply andb_prop in Hb. destruct Hb as [Hc _]. congruence.
  - subst y. apply andb_prop in Ha. destruct Ha as [Hc _]. congruence.
  - injection E as -> E. apply andb_prop in Ha, Hb.
    destruct (IH b (proj2 Ha) (proj2 Hb) Hx Hy E) as [-> ->]. auto.
Qed.

Lemma nonempty_eqb (s : string) : s <> "" <-> (s =? "")%string = false.
Proof. destruct s; simpl; split; congruence. Qed.

Lemma matchHere_complete (s owner repo post : string) :
  segmentsAt s "" owner repo post -> matchHere s = Some (owner, repo).
Proof.
  intros [-> [Ho [Hr [Hso [Hsr Hb]]]]].
  change ("" ++ marker ++ owner ++ "/" ++ repo ++ post)
    with (marker ++ owner ++ "/" ++ repo ++ post).
  unfold matchHere. rewrite stripPrefix_same.
  rewrite (span_all isSegChar owner ("/" ++ repo ++ post) Hso eq_refl).
  apply nonempty_eqb in Ho, Hr. rewrite Ho.
  change ("/" ++ repo ++ post) with (String "/" (repo ++ post)). cbv iota beta.
  rewrite (span_all isSegChar repo post Hsr Hb). now rewrite Hr.
Qed.

Lemma matchHere_segments (s owner repo : string) :
  matchHere s = Some (owner, repo) -> exists post, segmentsAt s "" owner repo post.
Proof.
  unfold matchHere.
  destruct (stripPrefix marker s) as [rest|] eqn:Ep; [|discriminate].
  apply stripPrefix_app in Ep.
  destruct (span isSegChar rest) as [o rest1] eqn:Eo.
  destruct (o =? "")%string eqn:Eon; [discriminate|].
  destruct rest1 as [|c rest2]; [discriminate|].
  destruct (Ascii.eqb_spec c "/"%char) as [->|Hc].
  2:{ destruct c as [[] [] [] [] [] [] [] []]; try discriminate; now elim Hc. }
  destruct (span isSegChar rest2) as [r post] eqn:Er.
  destruct (r =? "")%string eqn:Ern; [discriminate|].
  intros [= <- <-].
  apply span_app in Eo. destruct Eo as [Eo [Hso _]].
  apply span_app in Er. destruct Er as [Er [Hsr Hb]].
  exists post. split; [subst s rest rest2; reflexivity|].
  split; [now apply nonempty_eqb|]. split; [now apply nonempty_eqb|]. auto.
Qed.

Lemma segmentsAt_step (c : ascii) (s pre owner repo post : string) :
  segmentsAt s pre owner repo post -> segmentsAt (String c s) (String c pre) owner repo post.
Proof. intros [-> H]. split; [reflexivity | exact H]. Qed.

Lemma segmentsAt_later (c : ascii) (s pre owner repo post : string) :
  matchHere (String c s) = None ->
  segmentsAt (String c s) pre owner repo post ->
  exists pre', pre = String c pre' /\ segmentsAt s pre' owner repo post.
Proof.
  intros Hm Hs. destruct pre as [|c' pre'].
  - rewrite (matchHere_complete _ _ _ _ Hs) in Hm. discriminate.
  - destruct Hs as [E H]. simpl in E. injection E as <- E.
    exists pre'. split; [reflexivity|]. split; [exact E | exact H].
Qed.

(** The parser's search finds the first place where the pattern is
    found, and fails only when there is none. *)
Lemma regexMatch_leftmost (s : string) :
  match regexMatch s with
  | Some (owner, repo) => exists pre post, leftmost s pre owner repo post
  | None => forall pre owner repo post, ~ segmentsAt s pre owner repo post
  end.
Proof.
  induction s as [|c s IH].
  - simpl. intros pre o r post [E _]. apply (f_equal String.length) in E.
    rewrite !length_append in E. simpl in E. lia.
  - cbn [regexMatch]. destruct (matchHere (String c s)) as [[o r]|] eqn:Em.
    + destruct (matchHere_segments _ _ _ Em) as [post Hs].
      exists "", post. split; [exact Hs|]. intros; simpl; lia.
    + destruct (regexMatch s) as [[o r]|].
      * destruct IH as [pre [post [Hs Hmin]]].
        exists (String c pre), post. split; [now apply segmentsAt_step|].
        intros pre' o' r' post' Hs'.
        destruct (segmentsAt_later _ _ _ _ _ _ Em Hs') as [pre'' [-> Hs'']].
        simpl. specialize (Hmin _ _ _ _ Hs''). lia.
      * intros pre o' r' post Hs'.
        destruct (segmentsAt_later _ _ _ _ _ _ Em Hs') as [pre'' [_ Hs'']].
        exact (IH _ _ _ _ Hs'').
Qed.

(** At one place the pattern is found in one way only. *)
Lemma segmentsAt_unique (s pre owner repo post pre' owner' repo' post' : string) :
  segmentsAt s pre owner repo post -> segmentsAt s pre' owner' repo' post' ->
  String.length pre = String.length pre' ->
  owner = owner' /\ repo = repo'.
Proof.
  intros [E [_ [_ [Hso [Hsr Hb]]]]] [E' [_ [_ [Hso' [Hsr' Hb']]]]] Hl.
  rewrite E in E'. destruct (append_same_length _ _ _ _ E' Hl) as [_ E1].
  apply append_cancel in E1.
  destruct (run_unique isSegChar owner owner' ("/" ++ repo ++ post) ("/" ++ repo' ++ post')
              Hso Hso' eq_refl eq_refl E1) as [-> E2].
  split; [reflexivity|]. simpl in E2. injection E2 as E2.
  exact (proj1 (run_unique isSegChar repo repo' _ _ Hsr Hsr' Hb Hb' E2)).
Qed.

Lemma middleThenAlnum_complete (mid : ascii -> bool) (s : string) :
  allChars mid s = true -> (exists c, lastChar s = Some c /\ isAlnum c = true) ->
  middleThenAlnum mid s = true.
Proof.
  induction s as [|c s IH]; intros Ha [l [Hl Hal]]; [discriminate|].
  destruct s as [|c' s'].
  - simpl in *. injection Hl as <-. exact Hal.
  - change (mid c && middleThenAlnum mid (String c' s') = true).
    change (mid c && allChars mid (String c' s') = true) in Ha.
    apply andb_prop in Ha. destruct Ha as [Hc Hs]. rewrite Hc. simpl.
    apply IH; [exact Hs|]. exists l. split; [exact Hl | exact Hal].
Qed.

Lemma testIdent_complete (mid : ascii -> bool) (s : string) :
  identifier mid s -> testIdent mid s = true.
Proof.
  intros [Ha [[f [Hf Hfa]] Hl]]. destruct s as [|c rest]; [discriminate|].
  simpl in Hf. injection Hf as <-. simpl. rewrite Hfa. simpl.
  destruct rest as [|c' s']; [reflexivity|].
  apply middleThenAlnum_complete; [|exact Hl].
  simpl in Ha. apply andb_prop in Ha. exact (proj2 Ha).
Qed.

(** C7, as amended: the parser returns [null] exactly for the
    malformed inputs, those whose cleaned text holds nowhere the marker
    followed by a non-empty owner segment, a slash and a non-empty
    repository segment, or in which the first such place has an owner
    or a repository segment with a character that is not allowed or
    with a first or last character that is no letter or digit; a later
    place is not tried.  What follows the repository segment (further
    path segments) is not looked at and does not make an input
    malformed.  The parser is a pure function of the string: it has no
    access to the network. *)
Theorem parseGitHubUrl_malformed (url : string) :
  malformed url <-> parseGitHubUrl url = None.
Proof.
  unfold malformed, parseGitHubUrl.
  pose proof (regexMatch_leftmost (cleanUrl url)) as Hm.
  destruct (regexMatch (cleanUrl url)) as [[o r]|].
  - destruct Hm as [pre [post Hleft]]. pose proof Hleft as [Hs Hmin].
    pose proof Hs as [_ [Ho [Hr _]]]. apply nonempty_eqb in Ho, Hr. rewrite Ho, Hr.
    cbn [orb]. split.
    + intros [Hnone | [pre' [o' [r' [post' [[Hs' Hmin'] Hbad]]]]]];
        [now elim (Hnone _ _ _ _ Hs)|].
      assert (Hl : String.length pre' = String.length pre).
      { pose proof (Hmin _ _ _ _ Hs'). pose proof (Hmin' _ _ _ _ Hs). lia. }
      destruct (segmentsAt_unique _ _ _ _ _ _ _ _ _ Hs' Hs Hl) as [-> ->].
      destruct (validOwnerPattern o) eqn:Eo; [|reflexivity].
      destruct (validRepoPattern r) eqn:Er; [|reflexivity].
      elim Hbad. split.
      * exact (testIdent_identifier _ _ alnum_isOwnerChar Eo).
      * exact (testIdent_identifier _ _ alnum_isRepoChar Er).
    + intros Hnull. right. exists pre, o, r, post. split; [exact Hleft|].
      intros [Hio Hir].
      unfold validOwnerPattern, validRepoPattern in Hnull.
      rewrite (testIdent_complete _ _ Hio), (testIdent_complete _ _ Hir) in Hnull.
      discriminate.
  - split; [reflexivity|]. intros _. left. exact Hm.
Qed.

(** An input whose first owner segment is not valid is malformed,
    although a valid owner and repository follow later in the text. *)
Lemma parseGitHubUrl_malformed_witness :
  malformed "https://github.com/-x/y https://github.com/a/b" /\
  wellFormed "https://github.com/-x/y https://github.com/a/b" "a" "b" /\
  parseGitHubUrl "https://github.com/-x/y https://github.com/a/b" = None.
Proof.
  assert (Hbad : malformed "https://github.com/-x/y https://github.com/a/b").
  { right.
    pose proof (regexMatch_leftmost (cleanUrl "https://github.com/-x/y https://github.com/a/b"))
      as Hm.
    change (regexMatch (cleanUrl "https://github.com/-x/y https://github.com/a/b"))
      with (Some ("-x", "y")) in Hm.
    destruct Hm as [pre [post Hleft]]. exists pre, "-x", "y", post. split; [exact Hleft|].
    intros [[_ [[c [Hc Hal]] _]] _]. simpl in Hc. injection Hc as <-. discriminate. }
  split; [exact Hbad|]. split.
  - exists "https://github.com/-x/y https://", "". repeat split.
    + now exists "a"%char.
    + now exists "a"%char.
    + now exists "b"%char.
    + now exists "b"%char.
  - exact (proj1 (parseGitHubUrl_malformed _) Hbad).
Defined.

(** The search goes on after a marker that no owner segment follows:
    the owner and the repository are then taken at a later marker. *)
Example parseGitHubUrl_tries_later_marker :
  exactlyTwoSegments "github.com//github.com/a/b" = false /\
  parseGitHubUrl "github.com//github.com/a/b" = Some ("a", "b").
Proof. split; reflexivity. Qed.

End ParserMalformed.

(** ** Counting, sizing and measuring a tree *)

Section TreeMeasures.
Import Tree Shape Props.

(** Induction on a tree, with the property known for the children. *)
Lemma tree_induction (P : TreeNode -> Prop) :
  (forall t, Forall P (children t) -> P t) -> forall t, P t.
Proof.
  intros H. fix IH 1. intros t. apply H.
  destruct t as [n ty p ch d s de a m tr msg er]. simpl.
  exact ((fix all (l : list TreeNode) : Forall P l :=
            match l with
            | [] => Forall_nil P
            | x :: r => Forall_cons x (IH x) (all r)
            end) ch).
Qed.

Lemma nodes_unfold (t : TreeNode) : nodes t = t :: flat_map nodes (children t).
Proof. now destruct t. Qed.

Lemma sum_app (a b : list Z) : sum (a ++ b) = sum a + sum b.
Proof. induction a as [|x a IH]; simpl; [reflexivity|]. rewrite IH. lia. Qed.

Lemma count_flat_map (p : TreeNode -> bool) (l : list TreeNode) :
  Z.of_nat (List.length (filter p (flat_map nodes l)))
  = sum (map (fun c => Z.of_nat (List.length (filter p (nodes c)))) l).
Proof.
  induction l as [|c l IH]; simpl; [reflexivity|].
  rewrite filter_app, length_app, Nat2Z.inj_add, IH. reflexivity.
Qed.

Lemma fold_counts (f : TreeNode -> Z * Z) (l : list TreeNode) (a b : Z) :
  fold_left (fun acc child => let (x, y) := f child in (fst acc + x, snd acc + y)) l (a, b)
  = (a + sum (map (fun c => fst (f c)) l), b + sum (map (fun c => snd (f c)) l)).
Proof.
  revert a b. induction l as [|c l IH]; intros a b; simpl.
  - f_equal; lia.
  - destruct (f c) as [x y] eqn:E. simpl. rewrite IH. f_equal; lia.
Qed.

Lemma sum_map_ext {A} (f g : A -> Z) (l : list A) :
  Forall (fun x => f x = g x) l -> sum (map f l) = sum (map g l).
Proof. induction 1 as [|x l H _ IH]; simpl; [reflexivity|]. now rewrite H, IH. Qed.

Lemma filesAreLeaves_children (t : TreeNode) :
  filesAreLeaves t -> Forall filesAreLeaves (children t).
Proof.
  unfold filesAreLeaves. rewrite nodes_unfold. intros H.
  apply Forall_cons_iff in H. destruct H as [_ H].
  now apply Forall_flat_map in H.
Qed.

(** What [countNode] returns, in terms of the nodes of the tree. *)
Lemma countNode_nodes (t : TreeNode) :
  filesAreLeaves t ->
  forall isRoot,
    countNode isRoot t
    = (Z.of_nat (List.length (filter isFile (nodes t))),
       Z.of_nat (List.length (filter (fun n => negb (isFile n)) (nodes t)))
       - (if isRoot && negb (isFile t) then 1 else 0)).
Proof.
  induction t as [t IH] using tree_induction. intros Hleaf isRoot.
  pose proof (filesAreLeaves_children t Hleaf) as Hch.
  assert (Hroot : type t = file -> children t = []).
  { unfold filesAreLeaves in Hleaf. rewrite nodes_unfold in Hleaf.
    now apply Forall_cons_iff in Hleaf. }
  assert (Hunfold : countNode isRoot t
                    = match type t with
                      | file => (1, 0)
                      | folder =>
                          fold_left (fun acc child =>
                                       let (f, d) := countNode false child in
                                       (fst acc + f, snd acc + d))
                                    (children t) (0, if isRoot then 0 else 1)
                      end) by now destruct t.
  rewrite Hunfold, (nodes_unfold t). cbn [filter].
  destruct (type t) eqn:Ety.
  - assert (Hf : isFile t = false) by (unfold isFile; now rewrite Ety).
    rewrite Hf. cbn [negb List.length]. rewrite andb_true_r.
    rewrite fold_counts, Nat2Z.inj_succ, !count_flat_map.
    assert (E1 : sum (map (fun c => fst (countNode false c)) (children t))
                 = sum (map (fun c => Z.of_nat (List.length (filter isFile (nodes c))))
                            (children t))).
    { apply sum_map_ext. rewrite Forall_forall in *. intros c Hc.
      now rewrite (IH c Hc (Hch c Hc) false). }
    assert (E2 : sum (map (fun c => snd (countNode false c)) (children t))
                 = sum (map (fun c => Z.of_nat (List.length
                                        (filter (fun n => negb (isFile n)) (nodes c))))
                            (children t))).
    { apply sum_map_ext. rewrite Forall_forall in *. intros c Hc.
      rewrite (IH c Hc (Hch c Hc) false). cbn [snd andb]. lia. }
    rewrite E1, E2. destruct isRoot; f_equal; lia.
  - assert (Hf : isFile t = true) by (unfold isFile; now rewrite Ety).
    rewrite Hf, (Hroot eq_refl). cbn [negb flat_map filter List.length].
    rewrite andb_false_r. reflexivity.
Qed.

(** X3: [calculateTotalSize] adds up the sizes of the file nodes, wherever
    they are in the tree. *)
Theorem totalSize_is_sum_of_files (t : TreeNode) :
  calculateTotalSize t = sum (map fileSize (nodes t)).
Proof.
  induction t as [t IH] using tree_induction.
  rewrite (nodes_unfold t).
  destruct t as [n ty p ch d s de a m tr msg er]. simpl in *.
  change (match ty with
          | folder => 0
          | file => match s with Some n0 => n0 | None => 0 end
          end) with (fileSize (Node n ty p ch d s de a m tr msg er)).
  generalize (fileSize (Node n ty p ch d s de a m tr msg er)). intros z.
  revert z. induction ch as [|c ch IHch]; intros z; simpl; [lia|].
  apply Forall_cons_iff in IH. destruct IH as [Hc Hrest].
  rewrite (IHch Hrest). rewrite map_app, sum_app, Hc. lia.
Qed.

End TreeMeasures.

Section CrawlMeasures.
Import Api Run Crawler Props Shape Samples.
Local Open Scope run_scope.

Variable repo : string.
Variable listing : string -> Fetch (list Item).
Variable analysisId : string.
Variable maxDepth : nat.

Local Abbreviation build := (buildFileTreeWithCancellation repo listing analysisId maxDepth).

Lemma processItems_leaves descend depth items :
  (forall p, returns (descend p) filesAreLeaves) ->
  forall children,
    Forall filesAreLeaves children ->
    returns (processItems analysisId maxDepth descend depth items children)
            (Forall filesAreLeaves).
Proof.
  intros Hd. induction items as [|item rest IH]; intros children Hc; simpl.
  - now apply returns_ret.
  - apply returns_bind with (P := fun _ => True); [apply returns_any|]. intros _ _.
    destruct (Denylist.shouldSkip (name item)); [now apply IH|].
    destruct (type item =? "dir")%string.
    + eapply returns_bind; [apply Hd|].
      intros subTree Hs. apply IH. apply Forall_app. split; [exact Hc|].
      constructor; [|constructor]. unfold filesAreLeaves in *.
      rewrite nodes_unfold in Hs. apply Forall_cons_iff in Hs. destruct Hs as [_ Hs].
      simpl. constructor; [discriminate | exact Hs].
    + apply IH. apply Forall_app. split; [exact Hc|].
      constructor; [|constructor]. unfold filesAreLeaves. simpl.
      constructor; [reflexivity | constructor].
Qed.

Lemma build_leaves fuel : forall path depth, returns (build fuel path depth) filesAreLeaves.
Proof.
  induction fuel as [|fuel IH]; intros path depth; simpl.
  - intros w a w' H. discriminate.
  - apply returns_tryCatch; [|intros e; apply returns_throw].
    apply returns_bind with (P := fun _ => True); [apply returns_any|]. intros _ _.
    apply returns_bind with (P := fun _ => True); [apply returns_any|]. intros _ _.
    assert (Hleaf : forall t, Tree.type t = Tree.folder -> Tree.children t = [] ->
                              filesAreLeaves t).
    { intros t Hty Hch. unfold filesAreLeaves. rewrite nodes_unfold, Hch. simpl.
      constructor; [congruence | constructor]. }
    destruct (maxDepth <=? depth)%nat; [apply returns_ret; now apply Hleaf|].
    apply returns_bind with (P := fun _ => True); [apply returns_any|].
    intros [[status txt] items] _.
    destruct (status =? 404); [apply returns_ret; now apply Hleaf|].
    destruct (status =? 403); [apply returns_ret; now apply Hleaf|].
    destruct (400 <=? status); [apply returns_throw|].
    eapply returns_bind.
    + apply processItems_leaves; [|constructor]. intros p. apply IH.
    + intros children Hc. apply returns_ret. unfold filesAreLeaves. simpl.
      constructor; [discriminate|]. apply Forall_flat_map. exact Hc.
Qed.

(** X4: the counts the route takes from a crawled tree are the number of
    its file nodes and the number of its folder nodes other than the
    root. *)
Theorem crawl_counts_are_node_counts (w w' : World) (tree : Tree.TreeNode)
        (Hrun : crawl repo listing analysisId maxDepth w = (Ok tree, w')) :
  Tree.countAnalyzed tree = (fileCount tree, folderCount tree).
Proof.
  pose proof (build_leaves _ _ _ _ _ _ Hrun) as Hleaf.
  unfold Tree.countAnalyzed. rewrite (countNode_nodes tree Hleaf true).
  unfold fileCount, folderCount, descendants. f_equal.
  rewrite (nodes_unfold tree). cbn [filter].
  destruct (isFile tree) eqn:E; cbn [negb andb List.length]; [lia|].
  rewrite Nat2Z.inj_succ. lia.
Qed.

Lemma fold_max_bounds (f : Tree.TreeNode -> Z) (l : list Tree.TreeNode) (c hi : Z) :
  c <= hi -> Forall (fun t => f t <= hi) l ->
  c <= fold_left (fun m child => Z.max m (f child)) l c <= hi.
Proof.
  intros Hc Hl. revert c Hc. induction Hl as [|t l Ht _ IH]; intros c Hc; simpl; [lia|].
  assert (H : Z.max c (f t) <= hi) by lia. specialize (IH _ H). lia.
Qed.

Lemma actualDepth_unfold (c : Z) (t : Tree.TreeNode) :
  Tree.calculateActualDepth c t
  = fold_left (fun m child => Z.max m (Tree.calculateActualDepth (c + 1) child))
              (Tree.children t) c.
Proof. now destruct t. Qed.

Lemma leaf_shallow depth t : Tree.children t = [] -> shallow maxDepth depth t.
Proof. intros H c. rewrite actualDepth_unfold, H. simpl. lia. Qed.

Lemma processItems_shallow descend depth items :
  (depth < maxDepth)%nat ->
  (forall p, returns (descend p) (shallow maxDepth (depth + 1))) ->
  forall children,
    Forall (shallow maxDepth (depth + 1)) children ->
    returns (processItems analysisId maxDepth descend depth items children)
            (Forall (shallow maxDepth (depth + 1))).
Proof.
  intros Hlt Hd. induction items as [|item rest IH]; intros children Hc; simpl.
  - now apply returns_ret.
  - apply returns_bind with (P := fun _ => True); [apply returns_any|]. intros _ _.
    destruct (Denylist.shouldSkip (name item)); [now apply IH|].
    destruct (type item =? "dir")%string.
    + eapply returns_bind; [apply Hd|].
      intros subTree Hs. apply IH. apply Forall_app. split; [exact Hc|].
      constructor; [|constructor]. intros c. specialize (Hs c).
      rewrite actualDepth_unfold in *. exact Hs.
    + apply IH. apply Forall_app. split; [exact Hc|].
      constructor; [|constructor]. now apply leaf_shallow.
Qed.

Lemma build_shallow fuel :
  forall path depth, returns (build fuel path depth) (shallow maxDepth depth).
Proof.
  induction fuel as [|fuel IH]; intros path depth; simpl.
  - intros w a w' H. discriminate.
  - apply returns_tryCatch; [|intros e; apply returns_throw].
    apply returns_bind with (P := fun _ => True); [apply returns_any|]. intros _ _.
    apply returns_bind with (P := fun _ => True); [apply returns_any|]. intros _ _.
    destruct (Nat.leb_spec maxDepth depth) as [Hge|Hlt];
      [apply returns_ret; now apply leaf_shallow|].
    apply returns_bind with (P := fun _ => True); [apply returns_any|].
    intros [[status txt] items] _.
    destruct (status =? 404); [apply returns_ret; now apply leaf_shallow|].
    destruct (status =? 403); [apply returns_ret; now apply leaf_shallow|].
    destruct (400 <=? status); [apply returns_throw|].
    eapply returns_bind.
    + apply processItems_shallow; [exact Hlt | | constructor]. intros p. apply IH.
    + intros children Hc. apply returns_ret. intros c.
      rewrite actualDepth_unfold. simpl.
      assert (H : c <= fold_left (fun m child => Z.max m (Tree.calculateActualDepth (c + 1) child))
                                 children c <= c + Z.of_nat (maxDepth - depth)).
      { apply fold_max_bounds; [lia|].
        eapply Forall_impl; [|exact Hc]. intros t Ht. specialize (Ht (c + 1)). lia. }
      exact H.
Qed.

(** X5: [calculateActualDepth] of a crawled tree, counted from 1 at the
    root, is at most one more than the depth bound (the level of the
    folders cut off at the bound), which is why the route caps it. *)
Theorem crawl_levels_bounded (w w' : World) (tree : Tree.TreeNode)
        (Hrun : crawl repo listing analysisId maxDepth w = (Ok tree, w')) :
  1 <= Tree.calculateActualDepth 1 tree <= Z.of_nat maxDepth + 1.
Proof.
  pose proof (build_shallow _ _ _ _ _ _ Hrun 1) as H.
  rewrite Nat.sub_0_r in H. lia.
Qed.

End CrawlMeasures.

Section CrawlMeasureRuns.
Import Api Run Crawler Props Shape Samples.

Lemma crawl_counts_are_node_counts_witness :
  exists tree w',
    crawl "b" smallRepo "7-1" 5 (world polls) = (Ok tree, w') /\
    Tree.countAnalyzed tree = (fileCount tree, folderCount tree) /\
    fileCount tree = 2 /\ folderCount tree = 2.
Proof.
  destruct (crawl "b" smallRepo "7-1" 5 (world polls)) as [o w'] eqn:E.
  assert (Ho : exists tree, o = Ok tree /\ fileCount tree = 2 /\ folderCount tree = 2).
  { apply (f_equal fst) in E. vm_compute in E. subst o. eexists. repeat split. }
  destruct Ho as [tree [-> [Hf Hd]]]. exists tree, w'. split; [reflexivity|].
  split; [|split; assumption].
  exact (crawl_counts_are_node_counts "b" smallRepo "7-1" 5 (world polls) w' tree E).
Defined.

Lemma crawl_levels_bounded_witness :
  exists tree w',
    crawl "b" smallRepo "7-1" 2 (world polls) = (Ok tree, w') /\
    Tree.calculateActualDepth 1 tree = 3 /\
    1 <= Tree.calculateActualDepth 1 tree <= 2 + 1.
Proof.
  destruct (crawl "b" smallRepo "7-1" 2 (world polls)) as [o w'] eqn:E.
  assert (Ho : exists tree, o = Ok tree /\ Tree.calculateActualDepth 1 tree = 3).
  { apply (f_equal fst) in E. vm_compute in E. subst o. eexists. split; reflexivity. }
  destruct Ho as [tree [-> Hd]]. exists tree, w'. split; [reflexivity|]. split; [exact Hd|].
  exact (crawl_levels_bounded "b" smallRepo "7-1" 2 (world polls) w' tree E).
Defined.

End CrawlMeasureRuns.

(** ** Pre- and postconditions of runs *)

Section TripleRules.
Import Api Run Logic.
Local Open Scope run_scope.

Context {A B : Type}.

Lemma triple_ret (P : World -> Prop) (a : A) (Qok : A -> World -> Prop) Qthrow :
  (forall w, P w -> Qok a w) -> triple P (ret a) Qok Qthrow.
Proof. intros H w o w' Hw [= <- <-]. now apply H. Qed.

Lemma triple_throw (P : World -> Prop) e (Qok : A -> World -> Prop) (Qthrow : World -> Prop) :
  (forall w, P w -> Qthrow w) -> triple P (throw e) Qok Qthrow.
Proof. intros H w o w' Hw [= <- <-]. now apply H. Qed.

Lemma triple_bind (P : World -> Prop) (m : M A) (k : A -> M B)
      (R : A -> World -> Prop) (Qok : B -> World -> Prop) (Qthrow : World -> Prop) :
  triple P m R Qthrow -> (forall a, triple (R a) (k a) Qok Qthrow) ->
  triple P (bind m k) Qok Qthrow.
Proof.
  intros Hm Hk w o w' Hw. unfold bind.
  destruct (m w) as [[a|e|] w1] eqn:E; pose proof (Hm _ _ _ Hw E) as H1; simpl in H1.
  - intros Ek. exact (Hk a _ _ _ H1 Ek).
  - now intros [= <- <-].
  - now intros [= <- <-].
Qed.

Lemma triple_tryCatch (P : World -> Prop) (m : M A) h
      (Qok : A -> World -> Prop) (R Qthrow : World -> Prop) :
  triple P m Qok R -> (forall e, triple R (h e) Qok Qthrow) ->
  triple P (tryCatch m h) Qok Qthrow.
Proof.
  intros Hm Hh w o w' Hw. unfold tryCatch.
  destruct (m w) as [[a|e|] w1] eqn:E; pose proof (Hm _ _ _ Hw E) as H1; simpl in H1.
  - now intros [= <- <-].
  - intros Eh. exact (Hh e _ _ _ H1 Eh).
  - now intros [= <- <-].
Qed.

Lemma triple_weaken (P P' : World -> Prop) (m : M A)
      (Qok Qok' : A -> World -> Prop) (Qthrow Qthrow' : World -> Prop) :
  triple P m Qok Qthrow ->
  (forall w, P' w -> P w) -> (forall a w, Qok a w -> Qok' a w) ->
  (forall w, Qthrow w -> Qthrow' w) ->
  triple P' m Qok' Qthrow'.
Proof.
  intros H HP HQ HT w o w' Hw E. specialize (H w o w' (HP _ Hw) E).
  destruct o; auto.
Qed.

Lemma keeps_still (I : World -> Prop) (m : M A) : (forall w, snd (m w) = w) -> keeps I m.
Proof.
  intros H w o w' Hw E. pose proof (H w) as Hs. rewrite E in Hs. simpl in Hs. subst w'.
  now destruct o.
Qed.

Lemma keeps_bind (I : World -> Prop) (m : M A) (k : A -> M B) :
  keeps I m -> (forall a, keeps I (k a)) -> keeps I (bind m k).
Proof. intros Hm Hk. apply triple_bind with (R := fun _ => I); assumption. Qed.

Lemma keeps_tryCatch (I : World -> Prop) (m : M A) h :
  keeps I m -> (forall e, keeps I (h e)) -> keeps I (tryCatch m h).
Proof. intros Hm Hh. apply triple_tryCatch with (R := I); assumption. Qed.

End TripleRules.

Section KeepsRules.
Import Api Run Crawler Logic.
Local Open Scope run_scope.

Lemma keeps_ret {A} I (a : A) : keeps I (ret a).
Proof. now apply keeps_still. Qed.

Lemma keeps_throw {A} I e : keeps I (@throw A e).
Proof. now apply keeps_still. Qed.

Lemma keeps_gets {A} I (f : World -> A) : keeps I (gets f).
Proof. now apply keeps_still. Qed.

Lemma keeps_modify I f : (forall w, I w -> I (f w)) -> keeps I (modify f).
Proof. intros H w o w' Hw [= <- <-]. now apply H. Qed.

Lemma incoming_serve batch : forall w, incoming (fold_left serve batch w) = incoming w.
Proof.
  induction batch as [|r batch IH]; intros w; simpl; [reflexivity|].
  rewrite IH. destruct r as [u b|u|u]; simpl; [|reflexivity|reflexivity].
  now destruct (Store.cancelAnalysis u b (activeAnalyses w)).
Qed.

Lemma database_serve batch : forall w, database (fold_left serve batch w) = database w.
Proof.
  induction batch as [|r batch IH]; intros w; simpl; [reflexivity|].
  rewrite IH. destruct r as [u b|u|u]; simpl; [|reflexivity|reflexivity].
  now destruct (Store.cancelAnalysis u b (activeAnalyses w)).
Qed.

(** An invariant that no served request breaks and that does not
    depend on what is still to arrive holds across a suspension. *)
Lemma keeps_suspend I :
  (forall w req, I w -> I (serve w req)) ->
  (forall w l, I w -> I (withIncoming l w)) ->
  keeps I suspend.
Proof.
  intros Hs Hi w o w' Hw. unfold suspend.
  destruct (incoming w) as [|batch later]; intros [= <- <-]; [exact Hw|].
  change (I (fold_left serve batch (withIncoming later w))).
  pose proof (Hi w later Hw) as H0. revert H0. generalize (withIncoming later w).
  induction batch as [|r batch IH]; intros w0 H0; simpl; [exact H0|].
  apply IH. now apply Hs.
Qed.

(** The same for an invariant that only the requests [ok] keep, when
    no other request is on its way. *)
Lemma keeps_suspend_among (ok : Store.Request -> bool) (I : World -> Prop) :
  (forall w req, ok req = true -> I w -> I (serve w req)) ->
  (forall w l, I w -> I (withIncoming l w)) ->
  keeps (fun w => I w /\ Forall (Forall (fun r => ok r = true)) (incoming w)) suspend.
Proof.
  intros Hs Hi w o w' [Hw Ha]. unfold suspend.
  destruct (incoming w) as [|batch later] eqn:E; intros [= <- <-].
  { split; [exact Hw | now rewrite E]. }
  apply Forall_cons_iff in Ha. destruct Ha as [Hb Hl].
  change (fold_left serve batch
            {| activeAnalyses := activeAnalyses w; incoming := later;
               replies := replies w; database := database w |})
    with (fold_left serve batch (withIncoming later w)).
  rewrite incoming_serve. split; [|exact Hl].
  pose proof (Hi w later Hw) as H0. revert H0. generalize (withIncoming later w).
  clear E. induction Hb as [|r batch Hr _ IH]; intros w0 H0; simpl; [exact H0|].
  apply IH. now apply Hs.
Qed.

Lemma keeps_axiosGet {A} I (answer : Fetch A) : keeps I suspend -> keeps I (axiosGet answer).
Proof.
  intros Hs. unfold axiosGet. apply keeps_bind; [exact Hs|]. intros _.
  destruct answer as [status txt data|e]; [|apply keeps_throw].
  destruct (status <? 500); [apply keeps_ret | apply keeps_throw].
Qed.

Lemma keeps_checkCancelled I id : keeps I (checkCancelled id).
Proof.
  apply keeps_still. intros w. unfold checkCancelled. now destruct (isCancelled id w).
Qed.

Section Crawl.
Variable repo : string.
Variable listing : string -> Fetch (list Item).
Variable analysisId : string.
Variable maxDepth : nat.
Variable I : World -> Prop.
Hypothesis suspended : keeps I suspend.
Hypothesis updated : forall path depth, keeps I (updateProgress analysisId maxDepth path depth).

Lemma keeps_processItems descend depth items :
  (forall p, keeps I (descend p)) ->
  forall children, keeps I (processItems analysisId maxDepth descend depth items children).
Proof.
  intros Hd. induction items as [|item rest IH]; intros children; simpl.
  - apply keeps_ret.
  - apply keeps_bind; [apply keeps_checkCancelled|]. intros _.
    destruct (Denylist.shouldSkip (name item)); [apply IH|].
    destruct (type item =? "dir")%string; [|apply IH].
    apply keeps_bind; [apply Hd | intros; apply IH].
Qed.

(** What holds across a suspension and across a progress update holds
    across the whole crawl, however it ends. *)
Lemma keeps_build fuel :
  forall path depth,
    keeps I (buildFileTreeWithCancellation repo listing analysisId maxDepth fuel path depth).
Proof.
  induction fuel as [|fuel IH]; intros path depth; simpl.
  - now apply keeps_still.
  - apply keeps_tryCatch; [|intros e; apply keeps_throw].
    apply keeps_bind; [apply keeps_checkCancelled|]. intros _.
    apply keeps_bind; [apply updated|]. intros _.
    destruct (maxDepth <=? depth)%nat; [apply keeps_ret|].
    apply keeps_bind; [apply keeps_axiosGet, suspended|].
    intros [[status txt] items].
    destruct (status =? 404); [apply keeps_ret|].
    destruct (status =? 403); [apply keeps_ret|].
    destruct (400 <=? status); [apply keeps_throw|].
    apply keeps_bind; [|intros; apply keeps_ret].
    apply keeps_processItems. intros p. apply IH.
Qed.

End Crawl.

End KeepsRules.

(** ** The answers of the analyze route *)

Section RouteSteps.
Import Js Api Run Crawler Analyze Props Logic.
Local Open Scope run_scope.

Lemma suspend_ok w : fst (suspend w) = Ok tt.
Proof. unfold suspend. now destruct (incoming w). Qed.

Lemma terminates_gets {A} (f : World -> A) : terminates (gets f).
Proof. intros w. discriminate. Qed.

(** The validation suspends once and does nothing else to the world. *)
Lemma validate_world owner repo answer w :
  snd (validateRepositoryExists owner repo answer w) = snd (suspend w) /\
  fst (validateRepositoryExists owner repo answer w) <> OutOfFuel.
Proof.
  unfold validateRepositoryExists.
  match goal with |- context [tryCatch _ ?handler] => set (h := handler) end.
  assert (Hh : forall e w1, snd (h e w1) = w1 /\ fst (h e w1) <> OutOfFuel).
  { intros e w1. unfold h. destruct (responseStatus e) as [z|];
      [|split; [reflexivity | discriminate]].
    destruct z as [|p|p]; try (split; [reflexivity | discriminate]).
    do 9 (destruct p as [p|p|]; try (split; [reflexivity | discriminate])). }
  clearbody h. unfold tryCatch, axiosGet, bind.
  pose proof (suspend_ok w) as Hs.
  destruct (suspend w) as [o w1]. simpl in Hs. subst o. simpl.
  destruct answer as [status txt data|e]; [|apply Hh].
  destruct (status <? 500); [|apply Hh]. unfold ret.
  destruct (status =? 404); [apply Hh|].
  destruct (status =? 403); [apply Hh|].
  destruct (400 <=? status); [apply Hh|].
  destruct (repoSize data =? 0); [apply Hh|].
  destruct (default_branch data) as [[|c s]|];
    [apply Hh | split; [reflexivity | discriminate] | apply Hh].
Qed.

Lemma terminates_validate owner repo answer :
  terminates (validateRepositoryExists owner repo answer).
Proof. intros w. apply validate_world. Qed.

Lemma keeps_validate I owner repo answer :
  keeps I suspend -> keeps I (validateRepositoryExists owner repo answer).
Proof.
  intros Hs w o w' Hw E.
  pose proof (proj1 (validate_world owner repo answer w)) as Hv. rewrite E in Hv.
  simpl in Hv. subst w'.
  pose proof (suspend_ok w) as Ho. destruct (suspend w) as [o1 w1] eqn:E1.
  simpl in Ho. subst o1. pose proof (Hs _ _ _ Hw E1) as H1. simpl in H1.
  now destruct o.
Qed.

Lemma terminates_saveRepository user url fileTree stats :
  terminates (saveRepository user url fileTree stats).
Proof.
  unfold saveRepository. apply terminates_bind; [apply terminates_suspend|].
  intros _ w. now destruct (Repository.create user url fileTree (Some stats) (database w)) as [[u|msg] d].
Qed.

Lemma terminates_incrementAnalyses failure : terminates (incrementAnalyses failure).
Proof.
  unfold incrementAnalyses. apply terminates_bind; [apply terminates_suspend|].
  intros _. destruct failure; [apply terminates_throw | apply terminates_ret].
Qed.

Lemma terminates_attempt user now body env : terminates (attempt user now body env).
Proof.
  unfold attempt.
  destruct (repoUrl body) as [[|c url]|]; try apply terminates_ret.
  destruct (Parser.parseGitHubUrl (String c url)) as [[owner repo]|];
    [|apply terminates_ret].
  apply terminates_bind; [apply terminates_validate|]. intros _.
  apply terminates_bind.
  { unfold crawlPhase. apply terminates_bind; [apply terminates_modify|]. intros _.
    apply terminates_bind; [apply crawl_terminates|]. intros t.
    apply terminates_bind; [apply terminates_modify|]. intros _. apply terminates_ret. }
  intros fileTree. apply terminates_bind; [apply terminates_gets|]. intros [|].
  - apply terminates_bind; [apply terminates_modify|]. intros _. apply terminates_ret.
  - unfold reportPhase.
    do 6 (apply terminates_bind; [apply terminates_suspend|]; intros _).
    apply terminates_bind; [apply terminates_saveRepository|]. intros _.
    apply terminates_bind; [apply terminates_incrementAnalyses|]. intros _.
    apply terminates_bind; [apply terminates_modify|]. intros _. apply terminates_ret.
Qed.

Lemma errorResponse_json e :
  exists status msg err c,
    errorResponse e = Json status msg err c /\ In status [404; 429; 499; 500; 503].
Proof.
  unfold errorResponse.
  repeat match goal with |- context [if ?c then _ else _] => destruct c end;
    do 4 eexists; (split; [reflexivity|]); simpl; tauto.
Qed.

End RouteSteps.

Section RouteAnswers.
Import Js Api Run Crawler Analyze Props Logic.
Local Open Scope run_scope.

Variable user : string.
Variable now : string.
Variable body : Body.
Variable env : Env.

(** X6: whatever GitHub, the database and the other clients do, the route
    answers: no exception leaves it, the crawl comes to an end, and the
    status of the answer is 200, 400, 404, 429, 499, 500 or 503. *)
Theorem analyze_always_answers (w : World) :
  exists resp w',
    analyze user now body env w = (Ok resp, w') /\
    In (statusOf resp) [200; 400; 404; 429; 499; 500; 503].
Proof.
  assert (Hret : returns (attempt user now body env)
                         (fun resp => In (statusOf resp) [200; 400; 499])).
  { unfold attempt.
    destruct (repoUrl body) as [[|c url]|]; try (apply returns_ret; simpl; tauto).
    destruct (Parser.parseGitHubUrl (String c url)) as [[owner repo]|];
      [|apply returns_ret; simpl; tauto].
    apply returns_bind with (P := fun _ => True); [apply returns_any|]. intros _ _.
    apply returns_bind with (P := fun _ => True); [apply returns_any|]. intros fileTree _.
    apply returns_bind with (P := fun _ => True); [apply returns_any|]. intros [|] _.
    - apply returns_bind with (P := fun _ => True); [apply returns_any|]. intros _ _.
      apply returns_ret. simpl; tauto.
    - unfold reportPhase.
      do 9 (apply returns_bind with (P := fun _ => True); [apply returns_any|]; intros _ _).
      apply returns_ret. simpl; tauto. }
  unfold analyze, tryCatch.
  pose proof (terminates_attempt user now body env w) as Ht.
  destruct (attempt user now body env w) as [[r|e|] w1] eqn:E.
  - exists r, w1. split; [reflexivity|].
    pose proof (Hret _ _ _ E) as H. simpl in H |- *. tauto.
  - destruct (errorResponse_json e) as [s [m [er [c [He Hs]]]]].
    eexists _, _. split; [reflexivity|]. rewrite He. simpl in Hs |- *. tauto.
  - now elim Ht.
Qed.


End RouteAnswers.

(** ** The keys of the table *)

Section TableKeys.
Import Js Store Run Props Logic.

Lemma startsWith_app (u x : string) : startsWith (u ++ x) u = true.
Proof. unfold startsWith. now rewrite stripPrefix_same. Qed.

Lemma keys_cancel user (t : Table) : map fst (map (cancelEntry user) t) = map fst t.
Proof.
  induction t as [|[k a] t IH]; simpl; [reflexivity|]. rewrite IH.
  unfold cancelEntry. now destruct (ofUser user (k, a)).
Qed.

Lemma keys_set_new id v (t : Table) :
  ~ In id (map fst t) -> map fst (set id v t) = (map fst t ++ [id])%list.
Proof.
  induction t as [|[k a] t IH]; simpl; intros H; [reflexivity|].
  destruct (String.eqb_spec k id) as [->|Hk]; [elim H; now left|].
  simpl. f_equal. apply IH. tauto.
Qed.

Lemma keys_set_old id v (t : Table) :
  In id (map fst t) -> map fst (set id v t) = map fst t.
Proof.
  induction t as [|[k a] t IH]; simpl; [intros []|].
  destruct (String.eqb_spec k id) as [->|Hk]; [reflexivity|].
  intros [H|H]; [contradiction|]. simpl. f_equal. now apply IH.
Qed.

Lemma keys_delete_last id (t : Table) :
  forall ks, ~ In id ks -> map fst t = (ks ++ [id])%list -> map fst (delete id t) = ks.
Proof.
  induction t as [|[k a] t IH]; intros ks Hin Hk.
  - destruct ks; discriminate.
  - destruct ks as [|k0 ks]; simpl in Hk; injection Hk as Hk Ht.
    + subst k. simpl. rewrite String.eqb_refl. destruct t; [reflexivity | discriminate].
    + subst k0. simpl. destruct (String.eqb_spec k id) as [->|Hne].
      * elim Hin. now left.
      * simpl. f_equal. apply IH; [|exact Ht]. intros H. apply Hin. now right.
Qed.

Lemma deleteFirstOf_none user (t : Table) :
  noneOf user (map fst t) -> deleteFirstOf user t = t.
Proof.
  induction t as [|[k a] t IH]; simpl; [reflexivity|].
  intros H. apply Forall_cons_iff in H. destruct H as [Hk Ht].
  rewrite Hk. f_equal. now apply IH.
Qed.

Lemma keys_deleteFirstOf_last user id (t : Table) :
  forall ks, noneOf user ks -> startsWith id user = true ->
             map fst t = (ks ++ [id])%list -> map fst (deleteFirstOf user t) = ks.
Proof.
  induction t as [|[k a] t IH]; intros ks Hks Hid Hk.
  - destruct ks; discriminate.
  - destruct ks as [|k0 ks]; simpl in Hk; injection Hk as Hk Ht.
    + subst k. simpl. rewrite Hid. destruct t; [reflexivity | discriminate].
    + subst k0. apply Forall_cons_iff in Hks. destruct Hks as [Hk0 Hks].
      simpl. rewrite Hk0. simpl. f_equal. now apply IH.
Qed.

Lemma noneOf_not_in user id ks :
  noneOf user ks -> startsWith id user = true -> ~ In id ks.
Proof.
  intros Hks Hid Hin. unfold noneOf in Hks. rewrite Forall_forall in Hks.
  specialize (Hks _ Hin). congruence.
Qed.

Lemma keys_serve w req : isClient req = true -> keys (serve w req) = keys w.
Proof.
  destruct req as [u b|u|u]; unfold keys; simpl; intros Hc; [|reflexivity|discriminate].
  pose proof (cancelAnalysis_table u b (activeAnalyses w)) as H.
  destruct (cancelAnalysis u b (activeAnalyses w)) as [t r]. simpl in *. subst t.
  apply keys_cancel.
Qed.

Lemma keeps_suspend_keys ks : keeps (fun w => keys w = ks /\ undisturbed w) suspend.
Proof.
  apply (keeps_suspend_among isClient (fun w => keys w = ks)).
  - intros w req Hc H. now rewrite keys_serve.
  - intros w l H. exact H.
Qed.

End TableKeys.

Section RouteTable.
Import Js Api Store Run Crawler Analyze Props Logic.
Local Open Scope run_scope.

Variable user : string.
Variable now : string.
Variable body : Body.
Variable env : Env.
Variable ks : list string.
Hypothesis others : noneOf user ks.

Local Abbreviation id := (analysisId user now).
Local Abbreviation idle := (fun w : World => keys w = ks /\ undisturbed w).
Local Abbreviation running :=
  (fun w : World => keys w = (ks ++ [id])%list /\ undisturbed w).

Lemma id_ofUser : startsWith id user = true.
Proof. apply startsWith_app. Qed.

Lemma id_absent : ~ In id ks.
Proof. apply (noneOf_not_in user); [exact others | exact id_ofUser]. Qed.

Lemma keeps_update_running depth path d :
  keeps running (updateProgress id depth path d).
Proof.
  unfold updateProgress. destruct (truthy id); [|apply keeps_ret].
  apply keeps_modify. intros w [H Hu]. split; [|exact Hu].
  unfold keys in *. simpl. unfold recordProgress.
  rewrite keys_set_old; [exact H|]. rewrite H. apply in_or_app. right. now left.
Qed.

Lemma crawlPhase_table repo depth :
  triple idle (crawlPhase user now env repo depth) (fun _ => running) running.
Proof.
  unfold crawlPhase. apply triple_bind with (R := fun _ => running).
  - intros w o w' [H Hu] [= <- <-]. split; [|exact Hu]. unfold keys in *. simpl.
    rewrite keys_set_new; [now rewrite H|]. rewrite H. exact id_absent.
  - intros _. apply keeps_bind.
    + apply keeps_build; [apply keeps_suspend_keys|]. intros. apply keeps_update_running.
    + intros fileTree. apply keeps_bind; [|intros; apply keeps_ret].
      apply keeps_modify. intros w [H Hu]. split; [|exact Hu].
      unfold keys in *. simpl. unfold completeProgress.
      rewrite keys_set_old; [exact H|]. rewrite H. apply in_or_app. right. now left.
Qed.

Lemma keeps_saveRepository_keys l url fileTree stats :
  keeps (fun w => keys w = l /\ undisturbed w) (saveRepository user url fileTree stats).
Proof.
  unfold saveRepository. apply keeps_bind; [apply keeps_suspend_keys|]. intros _.
  intros w o w' H E.
  destruct (Repository.create user url fileTree (Some stats) (database w)) as [[u|msg] d];
    injection E as <- <-; exact H.
Qed.

Lemma keeps_incrementAnalyses I failure :
  keeps I suspend -> keeps I (incrementAnalyses failure).
Proof.
  intros Hs. unfold incrementAnalyses. apply keeps_bind; [exact Hs|]. intros _.
  destruct failure; [apply keeps_throw | apply keeps_ret].
Qed.

Lemma reportPhase_table url owner repo depth fileTree :
  triple running (reportPhase user now env url owner repo depth fileTree)
         (fun _ => idle) running.
Proof.
  unfold reportPhase.
  do 6 (apply triple_bind with (R := fun _ => running);
        [apply keeps_suspend_keys|]; intros _).
  apply triple_bind with (R := fun _ => running);
    [apply keeps_saveRepository_keys|]; intros _.
  apply triple_bind with (R := fun _ => running);
    [apply keeps_incrementAnalyses, keeps_suspend_keys|]; intros _.
  apply triple_bind with (R := fun _ => idle).
  - intros w o w' [H Hu] [= <- <-]. split; [|exact Hu]. unfold keys in *. simpl.
    apply keys_delete_last; [exact id_absent | exact H].
  - intros _. now apply triple_ret.
Qed.

Lemma attempt_table :
  triple idle (attempt user now body env) (fun _ => idle) (fun w => idle w \/ running w).
Proof.
  unfold attempt.
  destruct (repoUrl body) as [[|c url]|]; try (now apply triple_ret).
  destruct (Parser.parseGitHubUrl (String c url)) as [[owner repo]|];
    [|now apply triple_ret].
  apply triple_bind with (R := fun _ => idle).
  { eapply triple_weaken; [apply keeps_validate, (keeps_suspend_keys ks) | | |];
      simpl; intros; auto. }
  intros _. apply triple_bind with (R := fun _ => running).
  { eapply triple_weaken; [apply crawlPhase_table | | |]; simpl; intros; auto. }
  intros fileTree. apply triple_bind with (R := fun _ => running).
  { eapply triple_weaken; [apply (keeps_gets running) | | |]; simpl; intros; auto. }
  intros [|].
  - apply triple_bind with (R := fun _ => idle); [|intros _; now apply triple_ret].
    intros w o w' [H Hu] [= <- <-]. split; [|exact Hu]. unfold keys in *. simpl.
    apply keys_delete_last; [exact id_absent | exact H].
  - eapply triple_weaken; [apply reportPhase_table | | |]; simpl; intros; auto.
Qed.

Lemma analyze_table :
  triple idle (analyze user now body env) (fun _ => idle) idle.
Proof.
  unfold analyze. eapply triple_tryCatch; [apply attempt_table|]. intros e.
  apply triple_bind with (R := fun _ => idle); [|intros _; now apply triple_ret].
  intros w o w' H [= <- <-]. unfold keys in *. simpl. destruct H as [[H Hu]|[H Hu]];
    (split; [|exact Hu]).
  - rewrite deleteFirstOf_none; [exact H|]. rewrite H. exact others.
  - apply (keys_deleteFirstOf_last user id); [exact others | exact id_ofUser | exact H].
Qed.

End RouteTable.

Section RouteTableClaim.
Import Js Api Store Run Crawler Analyze Props Logic.

(** X8: when the table holds no entry of the user at the start and no
    other analyze request fails meanwhile, the route leaves the table
    with the keys it found, in the same order, whichever way the
    request ends: the entry of the analysis is removed after a
    success, after a cancellation and after every failure, and the
    entries of other users are not lost. *)
Theorem analyze_leaves_no_entry (user now : string) (body : Body) (env : Env)
        (w w' : World) (resp : Response)
        (Hothers : noneOf user (keys w))
        (Hserved : undisturbed w)
        (Hrun : analyze user now body env w = (Ok resp, w')) :
  keys w' = keys w.
Proof.
  exact (proj1 (analyze_table user now body env (keys w) Hothers w (Ok resp) w'
                              (conj eq_refl Hserved) Hrun)).
Qed.

End RouteTableClaim.

(** ** What the analyze route stores *)

Section RouteDatabase.
Import Js Api Store Run Crawler Analyze Props Logic.
Local Open Scope run_scope.

Variable user : string.
Variable now : string.
Variable body : Body.
Variable env : Env.

Local Abbreviation id := (analysisId user now).

Lemma keeps_suspend_database (P : Repository.Database -> Prop) :
  keeps (fun w => P (database w)) suspend.
Proof.
  apply keeps_suspend.
  - intros w req H. pose proof (database_serve [req] w) as E. simpl in E. now rewrite E.
  - intros w l H. exact H.
Qed.

Lemma keeps_table (P : Repository.Database -> Prop) f :
  keeps (fun w => P (database w)) (modify (withAnalyses f)).
Proof. apply keeps_modify. intros w H. exact H. Qed.

Lemma keeps_crawlPhase_database (P : Repository.Database -> Prop) repo depth :
  keeps (fun w => P (database w)) (crawlPhase user now env repo depth).
Proof.
  unfold crawlPhase. apply keeps_bind; [apply keeps_table|]. intros _.
  apply keeps_bind.
  - apply keeps_build; [apply keeps_suspend_database|]. intros path k.
    unfold updateProgress. destruct (truthy id); [apply keeps_table | apply keeps_ret].
  - intros fileTree. apply keeps_bind; [apply keeps_table | intros; apply keeps_ret].
Qed.

Variable d : Repository.Database.
Hypothesis counted : statisticsFailure env = None.

Local Abbreviation unchanged := (fun w : World => database w = d).

Lemma reportPhase_database url owner repo depth fileTree :
  triple unchanged (reportPhase user now env url owner repo depth fileTree)
         (saved user (Some url) d) unchanged.
Proof.
  unfold reportPhase.
  do 6 (apply triple_bind with (R := fun _ => unchanged);
        [apply (keeps_suspend_database (fun x => x = d))|]; intros _).
  match goal with |- context [saveRepository user url fileTree ?s] => set (stats := s) end.
  apply triple_bind
    with (R := fun _ w => Repository.create user url fileTree (Some stats) d
                         = (Repository.Returned tt, database w)).
  { unfold saveRepository. apply triple_bind with (R := fun _ => unchanged);
      [apply (keeps_suspend_database (fun x => x = d))|]. intros _.
    intros w o w' H E. simpl in H. rewrite H in E.
    destruct (Repository.create user url fileTree (Some stats) d) as [[[]|msg] d1] eqn:Ec;
      injection E as <- <-; simpl.
    - reflexivity.
    - destruct d as [storage|db]; simpl in Ec; [discriminate|].
      destruct (Repository.newObjectId db user); [discriminate|]. now injection Ec as _ <-. }
  intros _.
  apply triple_bind
    with (R := fun _ w => Repository.create user url fileTree (Some stats) d
                         = (Repository.Returned tt, database w)).
  { unfold incrementAnalyses. rewrite counted.
    apply triple_bind
      with (R := fun _ w => Repository.create user url fileTree (Some stats) d
                           = (Repository.Returned tt, database w)).
    - intros w o w' H E.
      pose proof (keeps_suspend_database
                    (fun x => Repository.create user url fileTree (Some stats) d
                              = (Repository.Returned tt, x)) w o w' H E) as K.
      pose proof (suspend_ok w) as Ho. rewrite E in Ho. simpl in Ho. now subst o.
    - intros _. now apply triple_ret. }
  intros _.
  apply triple_bind
    with (R := fun _ w => Repository.create user url fileTree (Some stats) d
                         = (Repository.Returned tt, database w)).
  { intros w o w' H [= <- <-]. exact H. }
  intros _. apply triple_ret. intros w H. exact H.
Qed.

Lemma attempt_database :
  triple unchanged (attempt user now body env) (saved user (repoUrl body) d) unchanged.
Proof.
  unfold attempt.
  destruct (repoUrl body) as [[|c url]|]; try (now apply triple_ret).
  destruct (Parser.parseGitHubUrl (String c url)) as [[owner repo]|];
    [|now apply triple_ret].
  apply triple_bind with (R := fun _ => unchanged).
  { apply keeps_validate, (keeps_suspend_database (fun x => x = d)). }
  intros _. apply triple_bind with (R := fun _ => unchanged).
  { apply (keeps_crawlPhase_database (fun x => x = d)). }
  intros fileTree. apply triple_bind with (R := fun _ => unchanged).
  { apply (keeps_gets unchanged). }
  intros [|].
  - apply triple_bind with (R := fun _ => unchanged); [|intros _; now apply triple_ret].
    apply (keeps_table (fun x => x = d)).
  - apply reportPhase_database.
Qed.

Lemma analyze_database :
  triple unchanged (analyze user now body env) (saved user (repoUrl body) d) unchanged.
Proof.
  unfold analyze. eapply triple_tryCatch; [apply attempt_database|]. intros e.
  apply triple_bind with (R := fun _ => unchanged);
    [apply (keeps_table (fun x => x = d))|].
  intros _. apply triple_ret. intros w H.
  destruct (errorResponse_json e) as [s [m [er [c [-> _]]]]]. exact H.
Qed.

End RouteDatabase.

Section RouteDatabaseClaim.
Import Js Api Store Run Crawler Analyze Props Logic.

(** X9: when the statistics update does not fail, the route stores what
    it reports: a success answer means that exactly the record of the
    reported tree, with the reported counts and depths and the size of
    the tree, was added for this user and URL by [Repository.create];
    any other answer means that the database is as it was. *)
Theorem analyze_stores_what_it_reports (user now : string) (body : Body) (env : Env)
        (w w' : World) (resp : Response)
        (Hcounted : statisticsFailure env = None)
        (Hrun : analyze user now body env w = (Ok resp, w')) :
  saved user (repoUrl body) (database w) resp w'.
Proof.
  exact (analyze_database user now body env (database w) Hcounted w (Ok resp) w'
                          eq_refl Hrun).
Qed.

End RouteDatabaseClaim.

(** ** A cancellation before the root listing *)

Section RouteCancel.
Import Js Api Store Run Crawler Analyze Props Logic.
Local Open Scope run_scope.

Variable user : string.
Variable now : string.
Variable body : Body.
Variable env : Env.
Variable d : Repository.Database.

Local Abbreviation id := (analysisId user now).
Local Abbreviation unchanged := (fun w : World => database w = d).
Local Abbreviation stopped :=
  (fun w : World => (cancelledEntry id w /\ database w = d) /\ unswept id w).

Lemma triple_never {A} (P : World -> Prop) (m : M A) Qok Qthrow :
  (forall w, ~ P w) -> triple P m Qok Qthrow.
Proof. intros H w o w' Hw. now elim (H w). Qed.

Lemma get_deleteFirstOf key u (t : Table) :
  startsWith key u = false -> get key (deleteFirstOf u t) = get key t.
Proof.
  intros Hu. induction t as [|[k a] t IH]; simpl; [reflexivity|].
  destruct (startsWith k u) eqn:Ek.
  - destruct (String.eqb_spec k key) as [->|Hk]; [congruence | reflexivity].
  - simpl. now rewrite IH.
Qed.

(** What a served request leaves of the entry, unless it is the
    failure of an analyze request that sweeps the entry away. *)
Lemma get_serve w req :
  spares id req = true ->
  get id (activeAnalyses (serve w req))
  = option_map (fun a => match req with
                         | CancelRequest u _ => if startsWith id u then markCancelled a else a
                         | _ => a
                         end) (get id (activeAnalyses w)).
Proof.
  destruct req as [u b|u|u]; simpl; intros Hs.
  - pose proof (cancelAnalysis_table u b (activeAnalyses w)) as H.
    destruct (cancelAnalysis u b (activeAnalyses w)) as [t r]. simpl in H. subst t.
    simpl. apply get_cancel.
  - now destruct (get id (activeAnalyses w)).
  - rewrite get_deleteFirstOf; [now destruct (get id (activeAnalyses w))|].
    now destruct (startsWith id u).
Qed.

Lemma cancelledEntry_serve w req :
  spares id req = true -> cancelledEntry id w -> cancelledEntry id (serve w req).
Proof.
  intros Hs [a [Ha Hc]]. unfold cancelledEntry. rewrite (get_serve w req Hs), Ha. simpl.
  eexists. split; [reflexivity|].
  destruct req as [u b|u|u]; try exact Hc. now destruct (startsWith id u).
Qed.

Lemma cancelledEntry_batch batch :
  Forall (fun r => spares id r = true) batch ->
  forall w, cancelledEntry id w -> cancelledEntry id (fold_left serve batch w).
Proof.
  induction 1 as [|r batch Hr _ IH]; intros w H; simpl; [exact H|].
  apply IH. now apply cancelledEntry_serve.
Qed.

(** A cancel request of the user, served while the entry exists,
    leaves it cancelled, whatever else is served with it, unless an
    analyze request that fails sweeps the entry away. *)
Lemma cancel_served u target batch :
  startsWith id u = true -> In (CancelRequest u target) batch ->
  Forall (fun r => spares id r = true) batch ->
  forall w, get id (activeAnalyses w) <> None ->
            cancelledEntry id (fold_left serve batch w).
Proof.
  intros Hu Hin Hb. revert Hin. induction Hb as [|r batch Hr Hb IH]; intros Hin w Hw;
    [destruct Hin|].
  simpl. destruct Hin as [->|Hin].
  - apply cancelledEntry_batch; [exact Hb|]. unfold cancelledEntry.
    rewrite (get_serve w _ Hr), Hu.
    destruct (get id (activeAnalyses w)) as [a|]; [|now elim Hw].
    simpl. eexists. split; reflexivity.
  - apply IH; [exact Hin|]. rewrite (get_serve w _ Hr).
    destruct (get id (activeAnalyses w)); [discriminate | now elim Hw].
Qed.

Lemma keeps_suspend_stopped : keeps stopped suspend.
Proof.
  apply (keeps_suspend_among (spares id) (fun w => cancelledEntry id w /\ database w = d)).
  - intros w req Hs [H1 H2]. split; [now apply cancelledEntry_serve|].
    pose proof (database_serve [req] w) as E. simpl in E. now rewrite E.
  - intros w l H. exact H.
Qed.

Lemma keeps_update_stopped path depth k :
  keeps stopped (updateProgress id depth path k).
Proof.
  unfold updateProgress. destruct (truthy id); [|apply keeps_ret].
  apply keeps_modify. intros w [[[a [Ha Hc]] Hd] Hu]. split; [|exact Hu]. split; [|exact Hd].
  unfold cancelledEntry. simpl. unfold recordProgress. rewrite get_set_same, Ha.
  eexists. split; [reflexivity | exact Hc].
Qed.

Variable b1 : list Request.
Variable rest : list (list Request).
Variable u : string.
Variable target : option string.
Hypothesis Huser : startsWith id u = true.
Hypothesis Hcancel : In (CancelRequest u target) b1.
Hypothesis Hspared : Forall (Forall (fun r => spares id r = true)) (b1 :: rest).

(** The entry exists and the cancel request is served at the next
    suspension. *)
Local Abbreviation pending :=
  (fun w : World => incoming w = b1 :: rest /\ database w = d /\
                    get id (activeAnalyses w) <> None).

Lemma suspend_pending : triple pending suspend (fun _ => stopped) stopped.
Proof.
  intros w o w' [Hi [Hd Hg]] E. unfold suspend in E. rewrite Hi in E.
  injection E as <- <-. apply Forall_cons_iff in Hspared. destruct Hspared as [Hb Hl].
  split; [split|].
  - apply (cancel_served u target); [exact Huser | exact Hcancel | exact Hb | exact Hg].
  - now rewrite database_serve.
  - unfold unswept. now rewrite incoming_serve.
Qed.

Lemma crawl_pending repo depth :
  (1 <= depth)%nat ->
  triple pending (crawl repo (contents env) id depth) (fun _ => stopped) unchanged.
Proof.
  intros Hdepth. unfold crawl. cbn [buildFileTreeWithCancellation].
  apply triple_tryCatch with (R := fun w => database w = d);
    [|intros e; now apply triple_throw].
  apply triple_bind with (R := fun _ => pending).
  { eapply triple_weaken; [apply (keeps_checkCancelled pending) | | |];
      simpl; intros; tauto. }
  intros _. apply triple_bind with (R := fun _ => pending).
  { unfold updateProgress. destruct (truthy id); [|now apply triple_ret].
    intros w o w' [Hi [Hd Hg]] [= <- <-]. simpl. split; [exact Hi|]. split; [exact Hd|].
    unfold recordProgress. now rewrite get_set_same. }
  intros _. destruct depth as [|k]; [lia|]. cbn [Nat.leb].
  apply triple_bind with (R := fun _ => stopped).
  { unfold axiosGet. apply triple_bind with (R := fun _ => stopped).
    - eapply triple_weaken; [apply suspend_pending | | |]; simpl; intros; tauto.
    - intros _. destruct (contents env "") as [status txt items|e];
        [|apply triple_throw; tauto].
      destruct (status <? 500); [now apply triple_ret | apply triple_throw; tauto]. }
  intros [[status txt] items].
  destruct (status =? 404); [now apply triple_ret|].
  destruct (status =? 403); [now apply triple_ret|].
  destruct (400 <=? status); [apply triple_throw; tauto|].
  apply triple_bind with (R := fun _ => stopped); [|intros; now apply triple_ret].
  eapply triple_weaken.
  - apply keeps_processItems.
    intros p. apply keeps_build; [apply keeps_suspend_stopped|].
    intros. apply keeps_update_stopped.
  - simpl; intros; tauto.
  - simpl; intros; tauto.
  - simpl; intros; tauto.
Qed.

Variable b0 : list Request.

Lemma attempt_cancelled :
  triple (fun w => incoming w = b0 :: b1 :: rest /\ database w = d)
         (attempt user now body env)
         (fun resp w => statusOf resp <> 200 /\ database w = d) unchanged.
Proof.
  unfold attempt.
  destruct (repoUrl body) as [[|c url]|];
    try (apply triple_ret; intros w [_ H]; split; [discriminate | exact H]).
  destruct (Parser.parseGitHubUrl (String c url)) as [[owner repo]|];
    [|apply triple_ret; intros w [_ H]; split; [discriminate | exact H]].
  apply triple_bind with (R := fun _ w => incoming w = b1 :: rest /\ database w = d).
  { intros w o w' [Hi Hd] E.
    pose proof (proj1 (validate_world owner repo (repository env) w)) as Hv.
    rewrite E in Hv. simpl in Hv. unfold suspend in Hv. rewrite Hi in Hv. simpl in Hv.
    assert (H : incoming w' = b1 :: rest /\ database w' = d).
    { subst w'. now rewrite incoming_serve, database_serve. }
    destruct o; tauto. }
  intros _. apply triple_bind with (R := fun _ => stopped).
  { unfold crawlPhase. apply triple_bind with (R := fun _ => pending).
    - intros w o w' [Hi Hd] [= <- <-]. simpl. split; [exact Hi|]. split; [exact Hd|].
      now rewrite get_set_same.
    - intros _. apply triple_bind with (R := fun _ => stopped).
      + eapply triple_weaken;
          [apply crawl_pending; pose proof (clampDepth_range (maxDepth body)); lia | | |];
          simpl; intros; tauto.
      + intros fileTree.
        apply triple_bind with (R := fun _ => stopped); [|intros; apply triple_ret; tauto].
        intros w o w' [[[a [Ha Hc]] Hd] Hu] [= <- <-]. split; [|exact Hu]. split; [|exact Hd].
        unfold cancelledEntry. simpl. unfold completeProgress. rewrite get_set_same, Ha.
        eexists. split; [reflexivity | exact Hc]. }
  intros fileTree.
  apply triple_bind with (R := fun wasCancelled w => wasCancelled = true /\ database w = d).
  { intros w o w' [[[a [Ha Hc]] Hd] _] [= <- <-]. rewrite Ha. tauto. }
  intros [|]; [|apply triple_never; intros w [H _]; discriminate].
  apply triple_bind with (R := fun _ => unchanged).
  - intros w o w' [_ Hd] [= <- <-]. exact Hd.
  - intros _. apply triple_ret. intros w H. split; [discriminate | exact H].
Qed.

End RouteCancel.

Section RouteCancelClaim.
Import Js Api Store Run Crawler Analyze Props Logic.

(** X10: a cancel request of the user that is served while the root
    listing is fetched stops the analysis for every repository,
    provided no analyze request of a user whose id the key of the
    analysis begins with fails from then on (its cleanup would delete
    the cancelled entry): the route never answers with a success and
    nothing is stored, whatever GitHub answers and whichever cancel
    requests and polls are served meanwhile. *)
Theorem cancel_during_root_listing_stores_nothing
        (user now : string) (body : Body) (env : Env) (w w' : World) (resp : Response)
        (b0 b1 : list Request) (rest : list (list Request))
        (u : string) (target : option string)
        (Hincoming : incoming w = b0 :: b1 :: rest)
        (Hcancel : In (CancelRequest u target) b1)
        (Huser : startsWith (analysisId user now) u = true)
        (Hspared : Forall (Forall (fun r => spares (analysisId user now) r = true))
                          (b1 :: rest))
        (Hrun : analyze user now body env w = (Ok resp, w')) :
  statusOf resp <> 200 /\ database w' = database w.
Proof.
  assert (H : triple (fun w0 => incoming w0 = b0 :: b1 :: rest /\ database w0 = database w)
                     (analyze user now body env)
                     (fun resp w0 => statusOf resp <> 200 /\ database w0 = database w)
                     (fun w0 => database w0 = database w)).
  { unfold analyze. eapply triple_tryCatch.
    - apply (attempt_cancelled user now body env (database w) b1 rest u target
                               Huser Hcancel Hspared).
    - intros e. apply triple_bind with (R := fun _ w0 => database w0 = database w).
      + intros w0 o w1 Hd [= <- <-]. exact Hd.
      + intros _. apply triple_ret. intros w0 Hd. split; [|exact Hd].
        destruct (errorResponse_json e) as [s [m [er [c [-> Hs]]]]]. simpl in *.
        intros ->. intuition discriminate. }
  exact (H w (Ok resp) w' (conj Hincoming eq_refl) Hrun).
Qed.

End RouteCancelClaim.

(** ** Repositories that cannot be analyzed *)

Section RouteValidation.
Import Js Api Store Run Crawler Analyze Props Logic.
Local Open Scope run_scope.

Lemma errorResponse_repository (rest : string) :
  errorResponse (newError ("Failed to validate repository: Repository '" ++ rest))
  = Json 404 ("Failed to validate repository: Repository '" ++ rest)
         (Some "Repository not found or inaccessible") None.
Proof.
  unfold errorResponse.
  change (message (newError ("Failed to validate repository: Repository '" ++ rest)))
    with ("Failed to validate repository: Repository '" ++ rest).
  assert (H1 : ("Failed to validate repository: Repository '" ++ rest
                =? "Analysis cancelled by user")%string = false) by reflexivity.
  assert (H2 : includes ("Failed to validate repository: Repository '" ++ rest) "Repository"
               = true) by (vm_compute; reflexivity).
  rewrite H1, H2, orb_true_r. reflexivity.
Qed.

Lemma validate_refuses owner repo answer w :
  notAnalyzable answer ->
  exists rest,
    validateRepositoryExists owner repo answer w
    = (Throw (newError ("Failed to validate repository: Repository '" ++ rest)),
       snd (suspend w)).
Proof.
  intros Hbad. unfold validateRepositoryExists, tryCatch, axiosGet, bind.
  pose proof (suspend_ok w) as Hs.
  destruct (suspend w) as [o w1]. simpl in Hs. subst o. cbn [snd].
  destruct answer as [status txt data|e]; [|destruct Hbad].
  simpl in Hbad. destruct Hbad as [-> | [Hlt Hdata]].
  - eexists. cbn. reflexivity.
  - assert (E5 : (status <? 500) = true) by lia. rewrite E5. unfold ret.
    destruct (status =? 404); [eexists; cbn; reflexivity|].
    destruct (status =? 403) eqn:E3; [lia|].
    assert (E4 : (400 <=? status) = false) by lia. rewrite E4.
    destruct (repoSize data =? 0) eqn:E0; [eexists; cbn; reflexivity|].
    destruct Hdata as [H0 | [Hb | Hb]]; [lia | |]; rewrite Hb; eexists; cbn; reflexivity.
Qed.

End RouteValidation.

Section RouteValidationClaim.
Import Js Api Store Run Crawler Analyze Props Logic.

(** X11: a repository GitHub does not know (404), an empty one or one
    without a default branch is refused before any crawl: the route
    makes the one metadata request, creates no entry in the table,
    stores nothing and answers 404 [Repository not found or
    inaccessible]; all it does to the table is the cleanup of its
    [catch]. *)
Theorem analyze_refuses_unusable_repository
        (user now : string) (body : Body) (env : Env) (w : World)
        (url owner repo : string)
        (Hurl : repoUrl body = Some url)
        (Hparse : Parser.parseGitHubUrl url = Some (owner, repo))
        (Hbad : notAnalyzable (repository env)) :
  exists msg,
    analyze user now body env w
    = (Ok (Json 404 msg (Some "Repository not found or inaccessible") None),
       withAnalyses (deleteFirstOf user) (snd (suspend w))).
Proof.
  destruct (validate_refuses owner repo (repository env) w Hbad) as [rest Hv].
  exists ("Failed to validate repository: Repository '" ++ rest).
  unfold analyze, tryCatch, attempt. rewrite Hurl.
  destruct url as [|c url]; [discriminate|]. rewrite Hparse.
  unfold bind at 1. rewrite Hv. unfold bind, modify, ret.
  now rewrite errorResponse_repository.
Qed.

End RouteValidationClaim.

(** ** The summary of a completed analysis *)

Section RouteSummary.
Import Js Api Store Run Crawler Analyze Props Logic.
Local Open Scope run_scope.

Lemma depthOfListing_lower tree : forall m, m <= Reconciler.depthOfListing tree m.
Proof.
  induction tree as [|item tree IH]; intros m; simpl; [lia|].
  destruct (Denylist.shouldSkipPath (flatPath item)); [apply IH|].
  destruct ((flatType item =? "tree")%string && negb (flatPath item =? "")%string);
    [|apply IH].
  etransitivity; [|apply IH]. lia.
Qed.

Lemma actualDepth_lower (t : Tree.TreeNode) : forall c, c <= Tree.calculateActualDepth c t.
Proof.
  intros c. rewrite actualDepth_unfold.
  assert (H : forall l m,
             c <= m ->
             c <= fold_left (fun m child => Z.max m (Tree.calculateActualDepth (c + 1) child))
                            l m).
  { induction l as [|x l IH]; intros m Hm; simpl; [exact Hm|]. apply IH. lia. }
  apply H. lia.
Qed.

End RouteSummary.

Section RouteSummaryClaims.
Import Js Api Store Run Crawler Analyze Props Logic.
Local Open Scope run_scope.

Variable user : string.
Variable now : string.
Variable body : Body.
Variable env : Env.

Lemma analyze_returns (Q : Response -> Prop) :
  (forall s m e c, Q (Json s m e c)) ->
  (forall url owner repo fileTree,
      returns (reportPhase user now env url owner repo
                           (Depth.clampDepth (maxDepth body)) fileTree) Q) ->
  returns (analyze user now body env) Q.
Proof.
  intros Hjson Hreport. unfold analyze. apply returns_tryCatch.
  2:{ intros e. apply returns_bind with (P := fun _ => True); [apply returns_any|].
      intros _ _. apply returns_ret.
      destruct (errorResponse_json e) as [s [m [er [c [-> _]]]]]. apply Hjson. }
  unfold attempt.
  destruct (repoUrl body) as [[|c url]|]; try (apply returns_ret; apply Hjson).
  destruct (Parser.parseGitHubUrl (String c url)) as [[owner repo]|];
    [|apply returns_ret; apply Hjson].
  apply returns_bind with (P := fun _ => True); [apply returns_any|]. intros _ _.
  apply returns_bind with (P := fun _ => True); [apply returns_any|]. intros fileTree _.
  apply returns_bind with (P := fun _ => True); [apply returns_any|]. intros [|] _.
  - apply returns_bind with (P := fun _ => True); [apply returns_any|]. intros _ _.
    apply returns_ret. apply Hjson.
  - apply Hreport.
Qed.

(** X12: in every success answer the depth asked for is within 1..20, the
    depth reached is between 0 and the depth asked for and not above
    the depth of the repository, and [wasTruncated] is set exactly
    when the repository is deeper than the depth asked for. *)
Theorem reported_depths_agree : returns (analyze user now body env) depthsAgree.
Proof.
  apply analyze_returns; [intros; exact I|].
  intros url owner repo fileTree. unfold reportPhase.
  do 9 (apply returns_bind with (P := fun _ => True); [apply returns_any|]; intros _ _).
  apply returns_ret. simpl.
  pose proof (clampDepth_range (maxDepth body)) as Hc.
  pose proof (actualDepth_lower fileTree 1) as Ha.
  assert (Hr : 0 <= Reconciler.realRepositoryDepth
                      (depthTree env)
                      (Z.min (Tree.calculateActualDepth 1 fileTree)
                             (Depth.clampDepth (maxDepth body)))).
  { unfold Reconciler.realRepositoryDepth. destruct (depthTree env) as [tree|]; [|lia].
    apply depthOfListing_lower. }
  repeat split; lia.
Qed.

(** X13: when neither listing of the reconciler can be fetched, a success
    answer reports the counts of the crawled tree as the totals of the
    repository and the depth reached as its depth, and never reports a
    truncation, also when the crawl stopped at the depth bound. *)
Theorem reconciler_fallback_hides_truncation
        (Htotals : totalsTree env = None) (Hdepth : depthTree env = None) :
  returns (analyze user now body env) fallsBack.
Proof.
  apply analyze_returns; [intros; exact I|].
  intros url owner repo fileTree. unfold reportPhase.
  do 9 (apply returns_bind with (P := fun _ => True); [apply returns_any|]; intros _ _).
  apply returns_ret. simpl. rewrite Htotals, Hdepth. simpl.
  pose proof (clampDepth_range (maxDepth body)) as Hc.
  unfold Tree.countAnalyzed. destruct (Tree.countNode true fileTree) as [f g]. simpl.
  repeat split.
  - f_equal; lia.
  - lia.
  - apply Z.ltb_ge. lia.
Qed.

End RouteSummaryClaims.

Section RouteRuns.
Import Js Api Store Run Crawler Analyze Props Logic Samples Cases.

Lemma no_owner_in_sample (owner repo : string) : ~ wellFormed "github.com//x" owner repo.
Proof.
  intros [pre [post [H [_ [Ho Hr]]]]].
  apply identifier_nonempty in Ho, Hr.
  apply (f_equal String.length) in H.
  repeat rewrite length_append in H.
  change (String.length (Parser.cleanUrl "github.com//x")) with 13%nat in H.
  change (String.length Parser.marker) with 11%nat in H.
  change (String.length "/") with 1%nat in H.
  lia.
Qed.


Lemma analyze_leaves_no_entry_witness :
  exists resp w',
    analyze "7" "1700000000000" (request address "5") (github smallRepo None) (busy polls)
    = (Ok resp, w') /\
    keys w' = ["8-1699999999999"].
Proof.
  destruct (analyze "7" "1700000000000" (request address "5") (github smallRepo None)
                    (busy polls)) as [o w'] eqn:E.
  assert (Ho : exists resp, o = Ok resp).
  { apply (f_equal fst) in E. vm_compute in E. subst o. now eexists. }
  destruct Ho as [resp ->]. exists resp, w'. split; [reflexivity|].
  refine (analyze_leaves_no_entry "7" "1700000000000" (request address "5")
                                  (github smallRepo None) (busy polls) w' resp _ _ E).
  - repeat constructor.
  - repeat constructor.
Defined.

Lemma analyze_stores_what_it_reports_witness :
  exists resp w',
    analyze "7" "1700000000000" (request address "5") (github smallRepo None) (world polls)
    = (Ok resp, w') /\
    statusOf resp = 200 /\
    saved "7" (Some address) emptyStore resp w'.
Proof.
  destruct (analyze "7" "1700000000000" (request address "5") (github smallRepo None)
                    (world polls)) as [o w'] eqn:E.
  assert (Ho : exists resp, o = Ok resp /\ statusOf resp = 200).
  { apply (f_equal fst) in E. vm_compute in E. subst o. eexists. split; reflexivity. }
  destruct Ho as [resp [-> Hs]]. exists resp, w'. split; [reflexivity|]. split; [exact Hs|].
  exact (analyze_stores_what_it_reports
           "7" "1700000000000" (request address "5") (github smallRepo None)
           (world polls) w' resp eq_refl E).
Defined.

Lemma cancel_during_root_listing_stores_nothing_witness :
  exists resp w',
    analyze "7" "1700000000000" (request address "5") (github smallRepo None)
            (world cancelDuringRoot)
    = (Ok resp, w') /\
    statusOf resp <> 200 /\ database w' = emptyStore.
Proof.
  destruct (analyze "7" "1700000000000" (request address "5") (github smallRepo None)
                    (world cancelDuringRoot)) as [o w'] eqn:E.
  assert (Ho : exists resp, o = Ok resp).
  { apply (f_equal fst) in E. vm_compute in E. subst o. now eexists. }
  destruct Ho as [resp ->]. exists resp, w'. split; [reflexivity|].
  refine (cancel_during_root_listing_stores_nothing
            "7" "1700000000000" (request address "5") (github smallRepo None)
            (world cancelDuringRoot) w' resp [] [CancelRequest "7" None] [] "7" None
            eq_refl _ eq_refl _ E).
  - now left.
  - repeat constructor.
Defined.

Lemma analyze_refuses_unusable_repository_witness :
  exists msg,
    analyze "7" "1700000000000" (request address "5") unknown (busy polls)
    = (Ok (Json 404 msg (Some "Repository not found or inaccessible") None),
       withAnalyses (deleteFirstOf "7") (snd (suspend (busy polls)))).
Proof.
  apply (analyze_refuses_unusable_repository
           "7" "1700000000000" (request address "5") unknown (busy polls) address "a" "b");
    [reflexivity | reflexivity | now left].
Defined.

Lemma reconciler_fallback_hides_truncation_witness :
  exists owner repo fileTree config w',
    analyze "7" "1700000000000" (request address "1") (github smallRepo None) (world polls)
    = (Ok (Analyzed owner repo fileTree config), w') /\
    existsb Tree.truncated (Tree.nodes fileTree) = true /\
    fallsBack (Analyzed owner repo fileTree config).
Proof.
  destruct (analyze "7" "1700000000000" (request address "1") (github smallRepo None)
                    (world polls)) as [o w'] eqn:E.
  assert (Ho : exists owner repo fileTree config,
             o = Ok (Analyzed owner repo fileTree config) /\
             existsb Tree.truncated (Tree.nodes fileTree) = true).
  { apply (f_equal fst) in E. vm_compute in E. subst o. do 4 eexists. split; reflexivity. }
  destruct Ho as [owner [repo [fileTree [config [-> Ht]]]]].
  exists owner, repo, fileTree, config, w'. split; [reflexivity|]. split; [exact Ht|].
  exact (reconciler_fallback_hides_truncation
           "7" "1700000000000" (request address "1") (github smallRepo None)
           eq_refl eq_refl (world polls) _ w' E).
Defined.

End RouteRuns.

(** ** The star patterns of the denylist *)

Section DenylistStars.
Import Js Api Denylist Listing.

Lemma test_app (re : list Tok) (a s : string) : test re s = true -> test re (a ++ s) = true.
Proof.
  intros H. induction a as [|c a IH]; simpl; [exact H|].
  rewrite IH. apply orb_true_r.
Qed.

Lemma test_prefix (re : list Tok) (s : string) : matchPrefix re s = true -> test re s = true.
Proof. intros H. destruct s; simpl in *; now rewrite H. Qed.

(** X14: the star of a pattern becomes [.*] and its dot stays a dot of the
    regular expression, which is not anchored: [*.log] matches every
    name that holds [log] after at least one character, such as
    [changelog.md], and so do [*.lock] and [*.map].  Both filters skip
    such entries. *)
Theorem star_patterns_match_inside_names (a b word : string) (c : ascii)
        (Hword : In word starWords)
        (Hc : isLineTerminator c = false) :
  shouldSkip (a ++ String c word ++ b) = true /\
  shouldSkipPath (a ++ String c word ++ b) = true.
Proof.
  assert (H : exists pattern,
             In pattern skipPatterns /\ includes pattern "*" = true /\
             test (compile pattern) (a ++ String c word ++ b) = true).
  { destruct Hword as [<- | [<- | [<- | []]]].
    - exists "*.log". split; [simpl; tauto|]. split; [reflexivity|].
      apply test_app, test_prefix. simpl. now rewrite Hc.
    - exists "*.lock". split; [simpl; tauto|]. split; [reflexivity|].
      apply test_app, test_prefix. simpl. now rewrite Hc.
    - exists "*.map". split; [simpl; tauto|]. split; [reflexivity|].
      apply test_app, test_prefix. simpl. now rewrite Hc. }
  destruct H as [pattern [Hin [Hstar Ht]]].
  split; apply existsb_exists; exists pattern; (split; [exact Hin|]); rewrite Hstar.
  - exact Ht.
  - now rewrite Ht.
Qed.

Lemma star_patterns_match_inside_names_witness :
  shouldSkip "changelog.md" = true /\ shouldSkipPath "changelog.md" = true.
Proof.
  apply (star_patterns_match_inside_names "chang" ".md" "log" "e");
    [now left | reflexivity].
Defined.

End DenylistStars.

(** ** The reconciler on the flat listing *)

Section ReconcilerFacts.
Import Js Api Reconciler Listing.

Lemma tree_not_blob (s : string) : (s =? "tree")%string = true -> (s =? "blob")%string = false.
Proof. intros H. apply String.eqb_eq in H. now subst s. Qed.

Lemma countListing_counts tree :
  forall files folders,
    countListing tree files folders
    = (files + count keptBlob tree, folders + count keptTree tree).
Proof.
  unfold count.
  induction tree as [|item rest IH]; intros files folders; simpl.
  - f_equal; lia.
  - unfold keptBlob at 1, keptTree at 1.
    destruct (Denylist.shouldSkipPath (flatPath item)); simpl; [apply IH|].
    destruct (flatType item =? "blob")%string eqn:Eb.
    + destruct (flatType item =? "tree")%string eqn:Et.
      * apply tree_not_blob in Et. congruence.
      * simpl. rewrite IH. f_equal; lia.
    + destruct (flatType item =? "tree")%string; simpl; [|apply IH].
      destruct (negb (flatPath item =? "")%string); simpl; rewrite IH; f_equal; lia.
Qed.

(** X15: the totals of the reconciler are the number of entries of type
    [blob] and the number of entries of type [tree] with a non-empty
    path, among the entries of the flat listing its filter does not
    match. *)
Theorem reconciler_counts_kept_entries (tree : list FlatItem) (fileTree : Tree.TreeNode) :
  totalCounts (Some tree) fileTree = (count keptBlob tree, count keptTree tree).
Proof. unfold totalCounts. rewrite countListing_counts. f_equal; lia. Qed.

Lemma split_nonempty (s : string) : (1 <= List.length (split "/" s))%nat.
Proof.
  induction s as [|c s IH]; simpl; [lia|].
  destruct (c =? "/")%char; simpl; [lia|].
  destruct (split "/" s); simpl in *; lia.
Qed.

Lemma depthOfListing_upper tree :
  forall m, (forall item, In item tree -> keptTree item = true -> level item <= depthOfListing tree m) /\
            (depthOfListing tree m = m \/
             exists item, In item tree /\ keptTree item = true /\
                          level item = depthOfListing tree m).
Proof.
  induction tree as [|item rest IH]; intros m; simpl.
  - split; [intros item []|now left].
  - unfold keptTree.
    destruct (Denylist.shouldSkipPath (flatPath item)) eqn:Es; simpl.
    + destruct (IH m) as [Hall Hex]. split.
      * intros i [<-|Hi] Hk; [rewrite Es in Hk; discriminate | now apply Hall].
      * destruct Hex as [H|[i [Hi [Hk Hl]]]]; [now left|]. right. exists i. tauto.
    + destruct ((flatType item =? "tree")%string && negb (flatPath item =? "")%string) eqn:Et.
      * destruct (IH (Z.max m (level item))) as [Hall Hex].
        fold (level item). split.
        -- intros i [<-|Hi] Hk; [|now apply Hall].
           pose proof (depthOfListing_lower rest (Z.max m (level item))). lia.
        -- destruct Hex as [H|[i [Hi [Hk Hl]]]].
           ++ destruct (Z.max_spec m (level item)) as [[_ Hm]|[_ Hm]].
              ** right. exists item. rewrite Es, Et. split; [now left|]. split; [reflexivity|].
                 congruence.
              ** left. congruence.
           ++ right. exists i. tauto.
      * destruct (IH m) as [Hall Hex]. split.
        -- intros i [<-|Hi] Hk; [rewrite Es, Et in Hk; discriminate | now apply Hall].
        -- destruct Hex as [H|[i [Hi [Hk Hl]]]]; [now left|]. right. exists i. tauto.
Qed.

(** X16: the depth of the repository the reconciler reports is the level of
    its deepest counted folder, the root being level 1 and a folder
    at the root level 2; it is 0 when no folder is counted, and never
    1. *)
Theorem reconciler_depth_is_deepest_folder (tree : list FlatItem) (reached : Z) :
  let depth := realRepositoryDepth (Some tree) reached in
  (forall item, In item tree -> keptTree item = true -> level item <= depth) /\
  (depth = 0 \/ exists item, In item tree /\ keptTree item = true /\ level item = depth) /\
  depth <> 1.
Proof.
  simpl. destruct (depthOfListing_upper tree 0) as [Hall Hex].
  split; [exact Hall|]. split; [exact Hex|].
  destruct Hex as [-> | [item [_ [_ <-]]]]; [discriminate|].
  unfold level. pose proof (split_nonempty (flatPath item)). lia.
Qed.

End ReconcilerFacts.

(** ** The tree and the listings it was made from *)

Section CrawlMirrors.
Import Js Api Run Crawler Props Listing.
Local Open Scope run_scope.

Variable repo : string.
Variable listing : string -> Fetch (list Item).
Variable analysisId : string.
Variable maxDepth : nat.

Local Abbreviation build :=
  (buildFileTreeWithCancellation repo listing analysisId maxDepth).

(** How a kept entry and its node are related, below a folder at
    [depth]. *)
Local Abbreviation made :=
  (fun (depth : nat) (item : Item) (child : Tree.TreeNode) =>
     ((type item =? "dir")%string = true /\
      exists subTree,
        built repo listing maxDepth (path item) (depth + 1) subTree /\
        child = folderNode maxDepth item depth subTree) \/
     ((type item =? "dir")%string = false /\ child = fileNode maxDepth item depth)).

Lemma processItems_built descend depth items :
  (forall p, returns (descend p) (built repo listing maxDepth p (depth + 1))) ->
  forall children,
    returns (processItems analysisId maxDepth descend depth items children)
            (fun cs => exists new,
                 cs = (children ++ new)%list /\ Forall2 (made depth) (keptItems items) new).
Proof.
  intros Hd. induction items as [|item rest IH]; intros children; simpl.
  - apply returns_ret. exists []. split; [now rewrite app_nil_r | constructor].
  - apply returns_bind with (P := fun _ => True); [apply returns_any|]. intros _ _.
    destruct (Denylist.shouldSkip (name item)) eqn:Es; simpl; [now apply IH|].
    destruct (type item =? "dir")%string eqn:Et.
    + eapply returns_bind; [apply Hd|]. intros subTree Hs w cs w' Hrun.
      destruct (IH _ _ _ _ Hrun) as [new [-> Hnew]].
      exists (folderNode maxDepth item depth subTree :: new).
      split; [now rewrite <- app_assoc|]. constructor; [|exact Hnew].
      left. split; [exact Et|]. now exists subTree.
    + intros w cs w' Hrun.
      destruct (IH _ _ _ _ Hrun) as [new [-> Hnew]].
      exists (fileNode maxDepth item depth :: new).
      split; [now rewrite <- app_assoc|]. constructor; [|exact Hnew].
      right. now split.
Qed.

(** Whatever is served meanwhile, a call of the crawler that returns
    returns the tree the listings determine. *)
Lemma build_built fuel :
  forall path depth,
    returns (build fuel path depth) (built repo listing maxDepth path depth).
Proof.
  induction fuel as [|fuel IH]; intros path depth; simpl.
  - intros w a w' H. discriminate.
  - apply returns_tryCatch; [|intros e; apply returns_throw].
    apply returns_bind with (P := fun _ => True); [apply returns_any|]. intros _ _.
    apply returns_bind with (P := fun _ => True); [apply returns_any|]. intros _ _.
    destruct (Nat.leb_spec maxDepth depth) as [Hge|Hlt].
    { apply returns_ret. now constructor. }
    eapply returns_bind; [apply axiosGet_returns|].
    intros [[status txt] items] Hanswer. simpl in Hanswer.
    destruct (Z.eqb_spec status 404) as [E4|E4].
    { apply returns_ret.
      change "Directory not found or access denied" with (refusal 404). rewrite <- E4.
      apply (built_refused repo listing maxDepth path depth status txt items);
        [exact Hlt | exact Hanswer | now left]. }
    destruct (Z.eqb_spec status 403) as [E3|E3].
    { apply returns_ret.
      change "Rate limit exceeded or access denied" with (refusal 403). rewrite <- E3.
      apply (built_refused repo listing maxDepth path depth status txt items);
        [exact Hlt | exact Hanswer | now right]. }
    destruct (Z.leb_spec 400 status) as [Hs|Hs]; [apply returns_throw|].
    eapply returns_bind.
    + apply processItems_built. intros p. apply IH.
    + intros children [new [-> Hnew]]. apply returns_ret.
      apply (built_listed repo listing maxDepth path depth status txt items new);
        [exact Hlt | exact Hanswer | exact Hs | exact Hnew].
Qed.

Lemma made_shape depth items children :
  Forall2 (made depth) items children -> map ofNode children = map ofItem items.
Proof.
  induction 1 as [|item child items children Hm _ IH]; simpl; [reflexivity|].
  rewrite IH. f_equal. unfold ofItem, ofNode, kindOf.
  destruct Hm as [[Et [subTree [_ ->]]]|[Et ->]]; rewrite Et; reflexivity.
Qed.

(** The first level of a tree the listings determine. *)
Lemma built_children p depth tree status statusText items :
  built repo listing maxDepth p depth tree ->
  (depth < maxDepth)%nat ->
  listing p = Responded status statusText items ->
  (status < 400 ->
   Tree.truncated tree = false /\
   map ofNode (Tree.children tree) = map ofItem (keptItems items)) /\
  (status = 404 \/ status = 403 ->
   Tree.truncated tree = false /\ Tree.children tree = []).
Proof.
  intros Hb Hlt Hl. destruct Hb as [p depth Hge|p depth s t i _ Hl' Hs|p depth s t i cs _ Hl' Hs Hm].
  - lia.
  - rewrite Hl in Hl'. injection Hl' as <- _ _. split; [lia|]. intros _. now split.
  - rewrite Hl in Hl'. injection Hl' as <- _ <-. split; [|lia].
    intros _. split; [reflexivity|]. exact (made_shape _ _ _ Hm).
Qed.

Lemma built_reflects p depth tree :
  built repo listing maxDepth p depth tree -> reflects listing maxDepth p depth tree.
Proof.
  intros Hb. split.
  - intros Hge. destruct Hb; try lia. now split.
  - intros Hlt status statusText items Hl.
    destruct (built_children _ _ _ _ _ _ Hb Hlt Hl) as [Hdata Hrefused]. now split.
Qed.

Lemma folderNode_faithful item depth subTree :
  built repo listing maxDepth (path item) (depth + 1) subTree ->
  faithful listing maxDepth (folderNode maxDepth item depth subTree).
Proof.
  intros Hb p _ Hp. simpl in Hp. injection Hp as <-.
  exists (depth + 1)%nat. split; [reflexivity|]. split; [lia|].
  exact (built_reflects _ _ _ Hb).
Qed.

(** Every folder below the root of a tree the listings determine
    shows the listing of its own directory. *)
Lemma built_faithful :
  forall p depth tree,
    built repo listing maxDepth p depth tree ->
    Forall (faithful listing maxDepth) (descendants tree).
Proof.
  fix IH 4. intros p depth tree Hb.
  destruct Hb as [p depth Hge|p depth s t i Hlt Hl Hs|p depth s t i cs Hlt Hl Hs Hm].
  - constructor.
  - constructor.
  - unfold descendants. simpl. clear Hl.
    induction Hm as [|item child items children Hmade _ IHm]; simpl; [constructor|].
    apply Forall_app. split; [|exact IHm].
    destruct Hmade as [[_ [subTree [Hsub ->]]]|[_ ->]].
    + simpl. constructor; [exact (folderNode_faithful _ _ _ Hsub)|].
      exact (IH _ _ _ Hsub).
    + simpl. constructor; [|constructor]. intros q Hty. discriminate.
Qed.

(** X17: every tree a crawl returns is the tree the listings determine,
    at every level.  The root shows the listing of the repository, and
    every folder below it the listing of its own path at its own
    depth: a folder at the depth bound is cut off and has no children;
    a folder within the bound is not cut off, has no children when its
    listing is refused with 404 or 403, and has, when its listing is
    answered with data, one child for each entry of the listing that
    the filter keeps, in the order of the listing and with its name,
    kind and path. *)
Theorem crawl_tree_mirrors_listings (w w' : World) (tree : Tree.TreeNode)
        (Hrun : crawl repo listing analysisId maxDepth w = (Ok tree, w')) :
  built repo listing maxDepth "" 0 tree /\
  reflects listing maxDepth "" 0 tree /\
  Forall (faithful listing maxDepth) (descendants tree).
Proof.
  pose proof (build_built _ _ _ _ _ _ Hrun) as Hb. split; [exact Hb|].
  split; [exact (built_reflects _ _ _ Hb) | exact (built_faithful _ _ _ Hb)].
Qed.

(** X18: no node below the root of a crawled tree has a name on the
    denylist, at any depth. *)
Theorem crawl_tree_has_no_denylisted_name (w w' : World) (tree : Tree.TreeNode)
        (Hrun : crawl repo listing analysisId maxDepth w = (Ok tree, w')) :
  Forall kept (descendants tree).
Proof. exact (build_kept repo listing analysisId maxDepth _ _ _ _ _ _ Hrun). Qed.

End CrawlMirrors.

Section CrawlMirrorRuns.
Import Api Run Crawler Props Listing Samples.

Lemma crawl_tree_mirrors_listings_witness :
  exists tree w',
    crawl "b" smallRepo "7-1" 5 (world polls) = (Ok tree, w') /\
    map ofNode (Tree.children tree)
    = [("README.md", Tree.file, Some "README.md"); ("src", Tree.folder, Some "src")] /\
    built "b" smallRepo 5 "" 0 tree /\
    reflects smallRepo 5 "" 0 tree /\
    Forall (faithful smallRepo 5) (descendants tree).
Proof.
  destruct (crawl "b" smallRepo "7-1" 5 (world polls)) as [o w'] eqn:E.
  assert (Ho : exists tree,
             o = Ok tree /\
             map ofNode (Tree.children tree)
             = [("README.md", Tree.file, Some "README.md"); ("src", Tree.folder, Some "src")]).
  { apply (f_equal fst) in E. vm_compute in E. subst o. eexists. split; reflexivity. }
  destruct Ho as [tree [-> Hc]]. exists tree, w'. split; [reflexivity|]. split; [exact Hc|].
  exact (crawl_tree_mirrors_listings "b" smallRepo "7-1" 5 (world polls) w' tree E).
Defined.

Lemma crawl_tree_has_no_denylisted_name_witness :
  exists tree w',
    crawl "b" smallRepo "7-1" 5 (world polls) = (Ok tree, w') /\
    List.length (descendants tree) = 4%nat /\
    Forall kept (descendants tree).
Proof.
  destruct (crawl "b" smallRepo "7-1" 5 (world polls)) as [o w'] eqn:E.
  assert (Ho : exists tree, o = Ok tree /\ List.length (descendants tree) = 4%nat).
  { apply (f_equal fst) in E. vm_compute in E. subst o. eexists. split; reflexivity. }
  destruct Ho as [tree [-> Hc]]. exists tree, w'. split; [reflexivity|]. split; [exact Hc|].
  exact (crawl_tree_has_no_denylisted_name "b" smallRepo "7-1" 5 (world polls) w' tree E).
Defined.

End CrawlMirrorRuns.

(** ** Listings GitHub refuses *)

Section CrawlContained.
Import Js Api Run Crawler Props Listing.
Local Open Scope run_scope.

Variable repo : string.
Variable listing : string -> Fetch (list Item).
Variable analysisId : string.
Variable maxDepth : nat.

Lemma Forall2_In {A B} (R : A -> B -> Prop) (l : list A) (l' : list B) (x : A) :
  Forall2 R l l' -> In x l -> exists y, In y l' /\ R x y.
Proof.
  induction 1 as [|a b l l' Hab _ IH]; intros Hin; [destruct Hin|].
  destruct Hin as [->|Hin].
  - exists b. split; [now left | exact Hab].
  - destruct (IH Hin) as [y [Hy HR]]. exists y. split; [now right | exact HR].
Qed.


End CrawlContained.

Section CrawlContainedRuns.
Import Js Api Run Crawler Props Listing Samples.

Lemma docs_refused_answered : forall p, answered (docsAnswered 404 "Not Found" p).
Proof.
  intros p. unfold docsAnswered, ok.
  destruct (p =? "")%string; eexists _, _, _; (split; [reflexivity|]); lia.
Qed.


End CrawlContainedRuns.

(** ** Cancel requests and progress polls *)

Section StoreRequests.
Import Js Store Props.

Lemma stripPrefix_longer (u v x : string) :
  forall r, stripPrefix u v = Some r -> stripPrefix u (v ++ x) = Some (r ++ x).
Proof.
  revert v. induction u as [|a u IH]; intros v r; simpl.
  - now intros [= <-].
  - destruct v as [|b v]; simpl; [discriminate|].
    destruct (a =? b)%char; [apply IH | discriminate].
Qed.

Lemma startsWith_longer (u v x : string) :
  startsWith v u = true -> startsWith (v ++ x) u = true.
Proof.
  unfold startsWith. destruct (stripPrefix u v) as [r|] eqn:E; [|discriminate].
  now rewrite (stripPrefix_longer _ _ x _ E).
Qed.

(** X19: the handlers identify the analyses of a user by the prefix of the
    key, so they reach those of every user whose id begins with the
    id of the requester (user 1 and user 12): a cancel request
    cancels them, a progress poll always finds an analysis, and it
    is answered with their progress when their entry comes first. *)
Theorem requests_reach_users_with_prefixed_id
        (u v now : string) (target : option string) (t : Table) (a : Analysis)
        (Hprefix : startsWith v u = true)
        (Hentry : get (Analyze.analysisId v now) t = Some a) :
  get (Analyze.analysisId v now) (fst (cancelAnalysis u target t)) = Some (markCancelled a) /\
  analysisProgress u t <> InactiveReply /\
  (forall later, t = (Analyze.analysisId v now, a) :: later ->
                 analysisProgress u t
                 = ProgressReply (progressOf a) (currentDepth a) (currentPath a) (cancelled a)).
Proof.
  assert (Hid : startsWith (Analyze.analysisId v now) u = true)
    by (apply startsWith_longer; exact Hprefix).
  split; [|split].
  - rewrite cancelAnalysis_table, get_cancel, Hentry, Hid. reflexivity.
  - revert Hentry. induction t as [|[k b] t IH]; simpl; [discriminate|].
    destruct (String.eqb_spec k (Analyze.analysisId v now)) as [->|Hk].
    + intros _. rewrite Hid. discriminate.
    + intros H. destruct (startsWith k u); [discriminate | now apply IH].
  - intros later ->. simpl. now rewrite Hid.
Qed.

Lemma requests_reach_users_with_prefixed_id_witness :
  get "12-1700000000000"
      (fst (cancelAnalysis "1" None [("12-1700000000000", Analyze.freshAnalysis)]))
  = Some (markCancelled Analyze.freshAnalysis) /\
  analysisProgress "1" [("12-1700000000000", Analyze.freshAnalysis)] <> InactiveReply.
Proof.
  pose proof (requests_reach_users_with_prefixed_id
                "1" "12" "1700000000000" None
                [("12-1700000000000", Analyze.freshAnalysis)] Analyze.freshAnalysis
                eq_refl eq_refl) as H.
  split; [exact (proj1 H) | exact (proj1 (proj2 H))].
Defined.

Lemma poll_cancel user (t : Table) :
  analysisProgress user (map (cancelEntry user) t)
  = match analysisProgress user t with
    | ProgressReply p k path _ => ProgressReply p k path true
    | r => r
    end.
Proof.
  induction t as [|[k a] t IH]; simpl; [reflexivity|].
  unfold cancelEntry at 1, ofUser. simpl.
  destruct (startsWith k user) eqn:E; simpl; rewrite E; [reflexivity | exact IH].
Qed.

Lemma cancel_cancel user (t : Table) :
  map (cancelEntry user) (map (cancelEntry user) t) = map (cancelEntry user) t.
Proof.
  rewrite map_map. apply map_ext. intros [k a]. unfold cancelEntry, ofUser. simpl.
  destruct (startsWith k user) eqn:E; simpl; now rewrite E.
Qed.

(** X20: after a cancel request of a user, a progress poll of that user is
    answered as before, with the same percentage, depth and path, but
    with [cancelled] set; a second cancel request changes nothing
    more, and a poll never changes the table. *)
Theorem poll_after_cancel_shows_cancelled (user : string) (target other : option string)
        (t : Table) :
  let t' := fst (cancelAnalysis user target t) in
  analysisProgress user t'
  = match analysisProgress user t with
    | ProgressReply p k path _ => ProgressReply p k path true
    | r => r
    end /\
  fst (cancelAnalysis user other t') = t' /\
  map fst t' = map fst t.
Proof.
  simpl. repeat rewrite cancelAnalysis_table. split; [apply poll_cancel|].
  split; [apply cancel_cancel | apply keys_cancel].
Qed.

End StoreRequests.

(** ** Storing and deleting a record *)

Section RecordFacts.
Import Js Repository Props Records.

Lemma mapSet_fresh {V} (k : Z) (v : V) (m : list (Z * V)) :
  ~ In k (map fst m) ->
  mapSet k v m = (m ++ [(k, v)])%list /\ mapGet k (mapSet k v m) = Some v /\
  mapDelete k (mapSet k v m) = m.
Proof.
  induction m as [|[k' v'] m IH]; simpl; intros H.
  - rewrite Z.eqb_refl. auto.
  - destruct (Z.eqb_spec k' k) as [->|Hk]; [elim H; now left|].
    simpl. destruct (Z.eqb_spec k' k); [contradiction|].
    destruct IH as [H1 [H2 H3]]; [tauto|]. rewrite H1 at 1. rewrite H2, H3. auto.
Qed.

Lemma mapDelete_length {V} (k : Z) (m : list (Z * V)) (v : V) :
  mapGet k m = Some v -> S (List.length (mapDelete k m)) = List.length m.
Proof.
  induction m as [|[k' v'] m IH]; simpl; [discriminate|].
  destruct (k' =? k); [reflexivity|]. intros H. simpl. f_equal. now apply IH.
Qed.

Lemma deleteOne_fresh (_id uid : ObjectId) (docs : list (Doc ObjectId)) (doc : Doc ObjectId) :
  ~ In _id (map id docs) -> id doc = _id -> user_id doc = uid ->
  deleteOne _id uid (docs ++ [doc]) = (docs, 1).
Proof.
  intros Hfresh Hid Hu. induction docs as [|d docs IH]; simpl.
  - rewrite Hid, Hu, !Z.eqb_refl. reflexivity.
  - simpl in Hfresh. destruct (Z.eqb_spec (id d) _id) as [E|E]; [elim Hfresh; now left|].
    simpl. rewrite IH; [reflexivity | tauto].
Qed.

Lemma deleteOne_length (_id uid : ObjectId) (docs : list (Doc ObjectId)) :
  Z.of_nat (List.length (fst (deleteOne _id uid docs)))
  = Z.of_nat (List.length docs) - snd (deleteOne _id uid docs).
Proof.
  induction docs as [|d docs IH]; [reflexivity|].
  cbn [deleteOne].
  destruct ((id d =? _id) && (user_id d =? uid)); cbn [fst snd List.length]; [lia|].
  destruct (deleteOne _id uid docs) as [r n]. cbn [fst snd List.length] in *. lia.
Qed.

(** X21: a record that was just stored can be deleted by its user under
    the identifier it was given, and the store then holds the records
    it held before; storing adds one record, owned by the user, and
    moves the counter on. *)
Theorem create_then_delete_restores (user url id : string) (fileTree : Tree.TreeNode)
        (stats : option Stats) (d : Database) (u : Z)
        (Hunused : unused d)
        (Huser : readsAs d user = Some u)
        (Hid : readsAs d id = Some (nextKey d)) :
  exists d1 d2,
    create user url fileTree stats d = (Returned tt, d1) /\
    countDocuments d1 = countDocuments d + 1 /\
    In (nextKey d, Some u) (owners d1) /\
    deleteById user id d1 = (Returned true, d2) /\
    records d2 = records d /\ nextKey d2 = nextKey d + 1.
Proof.
  destruct d as [storage|db]; simpl in *.
  - unfold unused in Hunused. simpl in Hunused. rewrite map_map in Hunused. simpl in Hunused.
    match goal with |- context [mapSet _ ?doc _] => set (record := doc) end.
    destruct (mapSet_fresh (repoIdCounter storage) record (repositories storage) Hunused)
      as [H1 [H2 H3]].
    eexists _, _. split; [reflexivity|]. simpl. rewrite Hid. simpl. rewrite H2.
    subst record. simpl. rewrite Huser in H1, H2, H3 |- *. simpl. rewrite Z.eqb_refl.
    split; [|split; [|split; [reflexivity|]]].
    + rewrite H1, length_app. simpl. lia.
    + rewrite H1, map_app. apply in_or_app. right. simpl. now left.
    + simpl. rewrite H3. auto.
  - unfold unused in Hunused. simpl in Hunused. rewrite map_map in Hunused. simpl in Hunused.
    rewrite Huser. eexists _, _. split; [reflexivity|]. simpl. rewrite Hid, Huser.
    rewrite deleteOne_fresh; [| exact Hunused | reflexivity | reflexivity].
    split; [|split; [|split; [reflexivity|]]].
    + rewrite length_app. simpl. lia.
    + rewrite map_app. apply in_or_app. right. now left.
    + simpl. auto.
Qed.

(** X22: [deleteById] removes exactly one record when it returns [true]
    and none when it returns [false], and never touches the counter. *)
Theorem delete_removes_one_or_none (user id : string) (d d' : Database) (deleted : bool)
        (Hrun : deleteById user id d = (Returned deleted, d')) :
  countDocuments d' = countDocuments d - (if deleted then 1 else 0) /\
  nextKey d' = nextKey d.
Proof.
  destruct d as [storage|db]; simpl in Hrun.
  - destruct (parseInt id) as [key|]; [|injection Hrun as <- <-; simpl; lia].
    destruct (mapGet key (repositories storage)) as [repo|] eqn:Eg;
      [|injection Hrun as <- <-; simpl; lia].
    destruct (strictEq (user_id repo) (parseInt user));
      injection Hrun as <- <-; simpl; [|lia].
    pose proof (mapDelete_length _ _ _ Eg). lia.
  - destruct (newObjectId db id) as [_id|]; [|discriminate].
    destruct (newObjectId db user) as [uid|]; [|discriminate].
    pose proof (deleteOne_length _id uid (documents db)) as Hl.
    pose proof (deleteOne_count _id uid (documents db)) as Hc.
    destruct (deleteOne _id uid (documents db)) as [docs n]. simpl in *.
    injection Hrun as <- <-. simpl.
    destruct Hc as [[-> _]|[-> _]]; simpl; lia.
Qed.

End RecordFacts.

Section RecordRuns.
Import Js Repository Props Records Samples.

Lemma create_then_delete_restores_witness :
  exists d1 d2,
    create "8" "https://github.com/a/b" leaf None recordOfUser8 = (Returned tt, d1) /\
    countDocuments d1 = 2 /\
    deleteById "8" "4" d1 = (Returned true, d2) /\
    records d2 = records recordOfUser8.
Proof.
  destruct (create_then_delete_restores "8" "https://github.com/a/b" "4" leaf None
                                         recordOfUser8 8) as [d1 [d2 H]].
  - unfold unused. simpl. intros [H|[]]. discriminate.
  - reflexivity.
  - reflexivity.
  - exists d1, d2. tauto.
Defined.

Lemma delete_removes_one_or_none_witness :
  exists d',
    deleteById "8" "3" recordOfUser8 = (Returned true, d') /\ countDocuments d' = 0.
Proof.
  eexists. split; [reflexivity|].
  exact (proj1 (delete_removes_one_or_none "8" "3" recordOfUser8 _ true eq_refl)).
Defined.

End RecordRuns.

(** ** The percentage of a depth *)

Section ProgressByDepth.
Import Store Crawler.

Lemma share_le (d d' m : nat) :
  (1 <= m)%nat -> (d <= d')%nat ->
  (10 + (inject_Z (Z.of_nat d) / inject_Z (Z.of_nat m)) * 80
   <= 10 + (inject_Z (Z.of_nat d') / inject_Z (Z.of_nat m)) * 80)%Q.
Proof.
  intros Hm Hd. apply Qplus_le_r. apply Qmult_le_compat_r; [|discriminate].
  unfold Qdiv. apply Qmult_le_compat_r.
  - rewrite <- Zle_Qle. lia.
  - apply Qinv_le_0_compat. change 0%Q with (inject_Z 0). rewrite <- Zle_Qle. lia.
Qed.

Lemma share_full (m : nat) :
  (1 <= m)%nat ->
  (10 + (inject_Z (Z.of_nat m) / inject_Z (Z.of_nat m)) * 80 == 90)%Q.
Proof.
  intros Hm. unfold Qdiv. rewrite Qmult_inv_r; [reflexivity|].
  intros H. unfold Qeq in H. simpl in H. lia.
Qed.

(** X23: during a crawl with a depth bound of at least 1, the percentage
    stored for a depth is a number from 10 to 90 that does not
    decrease with the depth: 10 at the root and 90 from the depth
    bound on; 100 is only ever stored by the route, after the crawl. *)
Theorem crawl_progress_by_depth (depth depth' maxDepth : nat)
        (Hbound : (1 <= maxDepth)%nat) (Hdeeper : (depth <= depth')%nat) :
  exists p p',
    currentProgress depth maxDepth = Fin p /\
    currentProgress depth' maxDepth = Fin p' /\
    10 <= p <= p' /\ p' <= 90 /\
    currentProgress 0 maxDepth = Fin 10 /\
    ((maxDepth <= depth)%nat -> p = 90).
Proof.
  destruct maxDepth as [|m]; [lia|]. cbn [currentProgress].
  eexists _, _. split; [reflexivity|]. split; [reflexivity|].
  assert (Hlow : (10 <= 10 + (inject_Z (Z.of_nat 0) / inject_Z (Z.of_nat (S m))) * 80)%Q).
  { unfold Qdiv. rewrite Qmult_0_l, Qmult_0_l. discriminate. }
  split; [split|split; [|split]].
  - change 10 with (jsRound (Qmin 10 90)). unfold jsRound.
    apply Qfloor_resp_le, Qplus_le_l, Q.min_le_compat_r.
    apply (Qle_trans _ _ _ Hlow). apply share_le; lia.
  - unfold jsRound. apply Qfloor_resp_le, Qplus_le_l, Q.min_le_compat_r.
    now apply share_le.
  - unfold jsRound. change 90 with (Qfloor (90 + (1 # 2))).
    apply Qfloor_resp_le, Qplus_le_l, Q.le_min_r.
  - f_equal. unfold jsRound.
    assert (E : (Qmin (10 + (inject_Z (Z.of_nat 0) / inject_Z (Z.of_nat (S m))) * 80) 90
                 + (1 # 2) == 10 + (1 # 2))%Q).
    { apply Qplus_inj_r. rewrite Q.min_l.
      - unfold Qdiv. rewrite Qmult_0_l, Qmult_0_l. reflexivity.
      - unfold Qdiv. rewrite Qmult_0_l, Qmult_0_l. discriminate. }
    rewrite (Qfloor_comp _ _ E). reflexivity.
  - intros Hd. unfold jsRound.
    assert (E : (Qmin (10 + (inject_Z (Z.of_nat depth) / inject_Z (Z.of_nat (S m))) * 80) 90
                 + (1 # 2) == 90 + (1 # 2))%Q).
    { apply Qplus_inj_r. apply Q.min_r.
      rewrite <- (share_full (S m)); [|lia]. apply share_le; lia. }
    rewrite (Qfloor_comp _ _ E). reflexivity.
Qed.

Lemma crawl_progress_by_depth_witness :
  exists p p',
    currentProgress 1 3 = Fin p /\ currentProgress 2 3 = Fin p' /\
    10 <= p <= p' /\ p' <= 90 /\ p = 37 /\ p' = 63.
Proof.
  destruct (crawl_progress_by_depth 1 2 3) as [p [p' [H1 [H2 [H3 [H4 _]]]]]]; [lia | lia |].
  exists p, p'. split; [exact H1|]. split; [exact H2|].
  vm_compute in H1, H2. injection H1 as H1. injection H2 as H2. lia.
Defined.

End ProgressByDepth.

(** ** Retrying a request *)

Section RetryFacts.
Import Api Retry.

Context {A : Type}.
Variable fn : nat -> Attempt A.
Variable maxRetries : nat.
Variable baseDelay : Z.

Lemma loop_trace remaining :
  forall attempt,
    (1 <= attempt)%nat -> (attempt + remaining = maxRetries + 1)%nat ->
    let t := loop fn maxRetries baseDelay remaining attempt in
    (calls t <= remaining)%nat /\
    (1 <= remaining -> 1 <= calls t)%nat /\
    waits t = map (delayAfter baseDelay) (seq attempt (calls t - 1)) /\
    match result t with
    | Value a => fn (attempt + calls t - 1)%nat = Resolved a
    | Raised e => fn (attempt + calls t - 1)%nat = Rejected e /\
                  ((attempt + calls t - 1)%nat = maxRetries \/ refused e = true)
    | Undefined => remaining = O
    end /\
    (forall k, (attempt <= k < attempt + calls t - 1)%nat ->
               exists e, fn k = Rejected e /\ refused e = false).
Proof.
  induction remaining as [|remaining IH]; intros attempt Ha Hsum; cbn [loop].
  - simpl. repeat split; lia.
  - destruct (fn attempt) as [a|e] eqn:Ef.
    + cbn [calls waits result]. replace (attempt + 1 - 1)%nat with attempt by lia.
      repeat split; try lia; try reflexivity; try exact Ef.
    + destruct (Nat.eqb_spec attempt maxRetries) as [Em|Em].
      * cbn [calls waits result]. replace (attempt + 1 - 1)%nat with attempt by lia.
        repeat split; try lia; try reflexivity; try exact Ef; try (now left).
      * destruct (refused e) eqn:Er.
        -- cbn [calls waits result]. replace (attempt + 1 - 1)%nat with attempt by lia.
           repeat split; try lia; try reflexivity; try exact Ef; try (now right).
        -- cbn [calls waits result].
           destruct (IH (S attempt)) as [H1 [H2 [H3 [H4 H5]]]]; [lia | lia |].
           assert (Hr : (1 <= remaining)%nat) by lia. specialize (H2 Hr).
           split; [lia|]. split; [lia|]. split; [|split].
           ++ rewrite H3. replace (S (calls (loop fn maxRetries baseDelay remaining (S attempt))) - 1)%nat
                with (S (calls (loop fn maxRetries baseDelay remaining (S attempt)) - 1)) by lia.
              reflexivity.
           ++ replace (attempt + S (calls (loop fn maxRetries baseDelay remaining (S attempt))) - 1)%nat
                with (S attempt + calls (loop fn maxRetries baseDelay remaining (S attempt)) - 1)%nat
                by lia.
              destruct (result (loop fn maxRetries baseDelay remaining (S attempt)));
                [exact H4 | exact H4 | lia].
           ++ intros k Hk. destruct (Nat.eq_dec k attempt) as [->|Hne].
              ** exists e. split; [exact Ef | exact Er].
              ** apply H5. lia.
Qed.

(** X24: a retried request calls the function at most [maxRetries] times
    and at least once, waits [baseDelay], twice that, four times
    that... between the calls, and ends with the result of its last
    call: a value, or the exception of the last permitted call or of
    the first call refused with 404 or 403, which is not retried;
    every call before the last one failed for another reason. *)
Theorem retry_calls_waits_and_result (Hretries : (1 <= maxRetries)%nat) :
  let t := retryWithBackoff fn maxRetries baseDelay in
  (1 <= calls t <= maxRetries)%nat /\
  waits t = map (delayAfter baseDelay) (seq 1 (calls t - 1)) /\
  settles fn maxRetries t /\
  (forall k, (1 <= k < calls t)%nat -> exists e, fn k = Rejected e /\ refused e = false).
Proof.
  simpl. unfold retryWithBackoff, settles.
  destruct (loop_trace maxRetries 1) as [H1 [H2 [H3 [H4 H5]]]]; [lia | lia |].
  specialize (H2 Hretries).
  replace (1 + calls (loop fn maxRetries baseDelay maxRetries 1) - 1)%nat
    with (calls (loop fn maxRetries baseDelay maxRetries 1)) in H4, H5 by lia.
  split; [lia|]. split; [exact H3|]. split; [|exact H5].
  destruct (result (loop fn maxRetries baseDelay maxRetries 1)); [exact H4 | exact H4 | lia].
Qed.

End RetryFacts.

Section RetryRuns.
Import Api Retry.

(** With the defaults, three calls and waits of one and two seconds. *)
Lemma retry_calls_waits_and_result_witness :
  let t := retryWithBackoff
             (fun k => if (k <? 3)%nat then Rejected (newError "timeout") else Resolved k)
             3 1000 in
  (1 <= calls t <= 3)%nat /\ waits t = [1000; 2000] /\ result t = Value 3%nat.
Proof.
  pose proof (retry_calls_waits_and_result
                (fun k => if (k <? 3)%nat then Rejected (newError "timeout") else Resolved k)
                3 1000 (le_S _ _ (le_S _ _ (le_n 1)))) as H.
  simpl in H. split; [exact (proj1 H)|]. split; reflexivity.
Defined.

End RetryRuns.

(** ** The validation of a repository *)

Section ValidationFacts.
Import Js Api Run Props Logic.
Local Open Scope run_scope.

Lemma handler_throws (h : Error -> M RepoData) (e : Error) (w : World)
      (a b : Error) (c : Error -> Error) :
  h = (fun error =>
         match responseStatus error with
         | Some 404 => throw a
         | Some 403 => throw b
         | _ => throw (c error)
         end) ->
  exists e', h e w = (Throw e', w).
Proof.
  intros ->. destruct (responseStatus e) as [z|]; [|now eexists].
  destruct z as [|p|p]; try (now eexists).
  do 9 (destruct p as [p|p|]; try (now eexists)).
Qed.

(** Running a validation, whatever the wording of its two last
    messages: it passes for a usable repository and throws for any
    other, after one suspension. *)
Lemma validation_cases owner repo answer w (empty branchless : string) :
  let validation :=
    tryCatch
      (response <- axiosGet answer ;;
       let '(status, statusText, repoData) := response in
       if status =? 404 then throw (newError (Analyze.notFoundMessage owner repo))
       else if status =? 403 then throw (newError (Analyze.accessDeniedMessage owner repo))
       else if 400 <=? status then
         throw (newError ("GitHub API error: " ++ showZ status ++ " " ++ statusText))
       else if repoSize repoData =? 0 then throw (newError empty)
       else
         match default_branch repoData with
         | Some (String _ _) => ret repoData
         | _ => throw (newError branchless)
         end)
      (fun error =>
         match responseStatus error with
         | Some 404 => throw (newError (Analyze.notFoundMessage owner repo))
         | Some 403 => throw (newError (Analyze.accessDeniedMessage owner repo))
         | _ => throw (newError ("Failed to validate repository: " ++ message error))
         end) in
  (Validate.usable answer /\ exists data, validation w = (Ok data, snd (suspend w))) \/
  (~ Validate.usable answer /\ exists e, validation w = (Throw e, snd (suspend w))).
Proof.
  cbv zeta.
  match goal with |- context [tryCatch _ ?handler] => set (h := handler) end.
  assert (Hh : forall e w1, exists e', h e w1 = (Throw e', w1)).
  { intros e w1. eapply handler_throws with (c := fun error => newError _). reflexivity. }
  clearbody h. unfold tryCatch, axiosGet, bind.
  pose proof (suspend_ok w) as Hs.
  destruct (suspend w) as [o w1]. simpl in Hs. subst o. cbn [snd].
  destruct answer as [status txt data|e]; [|right; split; [intros []|apply Hh]].
  destruct (status <? 500) eqn:E5; [|right; split; [simpl; lia|apply Hh]].
  unfold ret.
  destruct (status =? 404) eqn:E4; [right; split; [simpl; lia|apply Hh]|].
  destruct (status =? 403) eqn:E3; [right; split; [simpl; lia|apply Hh]|].
  destruct (400 <=? status) eqn:E0; [right; split; [simpl; lia|apply Hh]|].
  destruct (repoSize data =? 0) eqn:Ez; [right; split; [simpl; lia|apply Hh]|].
  destruct (default_branch data) as [[|c s]|] eqn:Eb.
  - right. split; [simpl; intros [_ [_ [c [s H]]]]; congruence | apply Hh].
  - left. split; [simpl; repeat split; [lia | lia | now exists c, s] | now exists data].
  - right. split; [simpl; intros [_ [_ [c [s H]]]]; congruence | apply Hh].
Qed.

Lemma analyze_validation owner repo answer w :
  (Validate.usable answer /\
   exists data, Analyze.validateRepositoryExists owner repo answer w
                = (Ok data, snd (suspend w))) \/
  (~ Validate.usable answer /\
   exists e, Analyze.validateRepositoryExists owner repo answer w
             = (Throw e, snd (suspend w))).
Proof. exact (validation_cases owner repo answer w _ _). Qed.

Lemma validate_validation owner repo answer w :
  (Validate.usable answer /\
   exists data, Validate.validateRepositoryExists owner repo answer w
                = (Ok data, snd (suspend w))) \/
  (~ Validate.usable answer /\
   exists e, Validate.validateRepositoryExists owner repo answer w
             = (Throw e, snd (suspend w))).
Proof. exact (validation_cases owner repo answer w _ _). Qed.

(** X25: the validation of the analyze route passes exactly for a
    repository GitHub answers for with a status below 400, a size
    other than 0 and a default branch; it then returns the metadata,
    and in every case it makes one request and changes nothing
    itself. *)
Theorem validation_passes_exactly_usable (owner repo : string) (answer : Fetch RepoData)
        (w : World) :
  ((exists data w', Analyze.validateRepositoryExists owner repo answer w = (Ok data, w'))
   <-> Validate.usable answer) /\
  snd (Analyze.validateRepositoryExists owner repo answer w) = snd (suspend w).
Proof.
  destruct (analyze_validation owner repo answer w) as [[Hu [data H]]|[Hu [e H]]];
    rewrite H; (split; [|reflexivity]); split.
  - intros _. exact Hu.
  - intros _. now exists data, (snd (suspend w)).
  - intros [data [w' H']]. discriminate.
  - intros H'. now elim Hu.
Qed.

Lemma validate_errorResponse e :
  exists status msg err,
    Validate.errorResponse e = Validate.Json status msg err /\ In status [404; 429; 500; 503].
Proof.
  unfold Validate.errorResponse.
  repeat match goal with |- context [if ?c then _ else _] => destruct c end;
    do 3 eexists; (split; [reflexivity|]); simpl; tauto.
Qed.


End ValidationFacts.

(** ** A failure after the record is stored *)

Section RouteOrphans.
Import Js Api Store Run Crawler Analyze Props Logic Orphans.
Local Open Scope run_scope.

Variable user : string.
Variable now : string.
Variable body : Body.
Variable env : Env.
Variable d : Repository.Database.
Variable failure : Error.
Hypothesis uncounted : statisticsFailure env = Some failure.

Local Abbreviation unchanged := (fun w : World => database w = d).

Lemma reportPhase_uncounted url owner repo depth fileTree :
  triple unchanged (reportPhase user now env url owner repo depth fileTree)
         (fun _ _ => False) (atMostStored user (Some url) d).
Proof.
  unfold reportPhase.
  do 6 (apply triple_bind with (R := fun _ => unchanged);
        [eapply triple_weaken;
         [apply (keeps_suspend_database (fun x => x = d)) | | |];
         simpl; intros; try tauto; now left|]; intros _).
  match goal with |- context [saveRepository user url fileTree ?s] => set (stats := s) end.
  apply triple_bind
    with (R := fun _ w => Repository.create user url fileTree (Some stats) d
                         = (Repository.Returned tt, database w)).
  { unfold saveRepository. apply triple_bind with (R := fun _ => unchanged).
    - eapply triple_weaken; [apply (keeps_suspend_database (fun x => x = d)) | | |];
        simpl; intros; try tauto; now left.
    - intros _. intros w o w' H E. simpl in H. rewrite H in E.
      destruct (Repository.create user url fileTree (Some stats) d) as [[[]|msg] d1] eqn:Ec;
        injection E as <- <-; simpl; [reflexivity|]. left.
      destruct d as [storage|db]; simpl in Ec; [discriminate|].
      destruct (Repository.newObjectId db user); [discriminate|]. now injection Ec as _ <-. }
  intros _.
  apply triple_bind with (R := fun _ _ => False);
    [|intros _; apply triple_never; tauto].
  unfold incrementAnalyses. rewrite uncounted.
  apply triple_bind
    with (R := fun _ w => Repository.create user url fileTree (Some stats) d
                         = (Repository.Returned tt, database w)).
  - intros w o w' H E.
    pose proof (keeps_suspend_database
                  (fun x => Repository.create user url fileTree (Some stats) d
                            = (Repository.Returned tt, x)) w o w' H E) as K.
    destruct o; simpl in K |- *; try exact K; try exact I.
    right. now exists url, fileTree, stats.
  - intros _. apply triple_throw. intros w H. right. now exists url, fileTree, stats.
Qed.

Lemma attempt_uncounted :
  triple unchanged (attempt user now body env)
         (fun resp w => statusOf resp <> 200 /\ database w = d)
         (atMostStored user (repoUrl body) d).
Proof.
  unfold attempt.
  destruct (repoUrl body) as [[|c url]|];
    try (apply triple_ret; intros w H; split; [discriminate | exact H]).
  destruct (Parser.parseGitHubUrl (String c url)) as [[owner repo]|];
    [|apply triple_ret; intros w H; split; [discriminate | exact H]].
  apply triple_bind with (R := fun _ => unchanged).
  { eapply triple_weaken;
      [apply keeps_validate, (keeps_suspend_database (fun x => x = d)) | | |];
      simpl; intros; try tauto; now left. }
  intros _. apply triple_bind with (R := fun _ => unchanged).
  { eapply triple_weaken; [apply (keeps_crawlPhase_database user now env (fun x => x = d)) | | |];
      simpl; intros; try tauto; now left. }
  intros fileTree. apply triple_bind with (R := fun _ => unchanged).
  { eapply triple_weaken; [apply (keeps_gets unchanged) | | |];
      simpl; intros; try tauto; now left. }
  intros [|].
  - apply triple_bind with (R := fun _ => unchanged).
    + eapply triple_weaken; [apply (keeps_table (fun x => x = d)) | | |];
        simpl; intros; try tauto; now left.
    + intros _. apply triple_ret. intros w H. split; [discriminate | exact H].
  - eapply triple_weaken; [apply reportPhase_uncounted | | |]; simpl; intros; tauto.
Qed.

End RouteOrphans.

Section RouteOrphansClaim.
Import Js Api Store Run Crawler Analyze Props Logic Orphans Samples Cases.

(** X27: when the statistics update fails, the route never answers with a
    success; the update comes after the record of the analysis is
    stored, so the record, if the analysis got that far, stays in the
    database although the request is answered as an error. *)
Theorem statistics_failure_is_answered_as_error
        (user now : string) (body : Body) (env : Env) (failure : Error)
        (w w' : World) (resp : Response)
        (Hfailure : statisticsFailure env = Some failure)
        (Hrun : analyze user now body env w = (Ok resp, w')) :
  statusOf resp <> 200 /\ atMostStored user (repoUrl body) (database w) w'.
Proof.
  assert (H : triple (fun w0 => database w0 = database w)
                     (analyze user now body env)
                     (fun resp w0 => statusOf resp <> 200 /\
                                     atMostStored user (repoUrl body) (database w) w0)
                     (fun _ => True)).
  { unfold analyze. eapply triple_tryCatch.
    - eapply triple_weaken;
        [apply (attempt_uncounted user now body env (database w) failure Hfailure) | | |];
        simpl; intros; try tauto.
      + split; [tauto|]. left. tauto.
      + exact H.
    - intros e.
      apply triple_bind
        with (R := fun _ => atMostStored user (repoUrl body) (database w)).
      + intros w0 o w1 Hd [= <- <-]. exact Hd.
      + intros _. apply triple_ret. intros w0 Hd. split; [|exact Hd].
        destruct (errorResponse_json e) as [s [m [er [c [-> Hs]]]]]. simpl in *.
        intros ->. intuition discriminate. }
  exact (H w (Ok resp) w' eq_refl Hrun).
Qed.

Lemma statistics_failure_is_answered_as_error_witness :
  exists resp w',
    analyze "7" "1700000000000" (request address "5") (uncounted smallRepo) (world polls)
    = (Ok resp, w') /\
    statusOf resp = 500 /\ Records.countDocuments (database w') = 1 /\
    atMostStored "7" (Some address) emptyStore w'.
Proof.
  destruct (analyze "7" "1700000000000" (request address "5") (uncounted smallRepo)
                    (world polls)) as [o w'] eqn:E.
  assert (Ho : exists resp, o = Ok resp /\ statusOf resp = 500).
  { apply (f_equal fst) in E. vm_compute in E. subst o. eexists. split; reflexivity. }
  assert (Hd : Records.countDocuments (database w') = 1).
  { apply (f_equal snd) in E. simpl in E. subst w'. vm_compute. reflexivity. }
  destruct Ho as [resp [-> Hs]]. exists resp, w'. split; [reflexivity|]. split; [exact Hs|].
  split; [exact Hd|].
  exact (proj2 (statistics_failure_is_answered_as_error
                  "7" "1700000000000" (request address "5") (uncounted smallRepo)
                  (newError "statistics are unavailable") (world polls) w' resp eq_refl E)).
Defined.

End RouteOrphansClaim.

(** ** Requests that do not concern an analysis *)

Section AgreeRules.
Import Api Run Bystanders.
Local Open Scope run_scope.

Context {A B : Type}.

Lemma agree_ret (P Q : World -> World -> Prop) (a : A) :
  (forall w1 w2, P w1 w2 -> Q w1 w2) -> agree P Q (ret a).
Proof. intros H w1 w2 Hw. split; [reflexivity | now apply H]. Qed.

Lemma agree_throw (P Q : World -> World -> Prop) e :
  (forall w1 w2, P w1 w2 -> Q w1 w2) -> agree P Q (@throw A e).
Proof. intros H w1 w2 Hw. split; [reflexivity | now apply H]. Qed.

Lemma agree_bind (P R Q : World -> World -> Prop) (m : M A) (k : A -> M B) :
  agree P R m -> (forall w1 w2, R w1 w2 -> Q w1 w2) -> (forall a, agree R Q (k a)) ->
  agree P Q (bind m k).
Proof.
  intros Hm HRQ Hk w1 w2 Hw. unfold bind. destruct (Hm w1 w2 Hw) as [Ho Hr].
  destruct (m w1) as [o1 w1'], (m w2) as [o2 w2']. simpl in Ho, Hr. subst o2.
  destruct o1 as [a|e|]; [now apply Hk | |]; (split; [reflexivity | now apply HRQ]).
Qed.

Lemma agree_tryCatch (P R Q : World -> World -> Prop) (m : M A) h :
  agree P R m -> (forall w1 w2, R w1 w2 -> Q w1 w2) -> (forall e, agree R Q (h e)) ->
  agree P Q (tryCatch m h).
Proof.
  intros Hm HRQ Hh w1 w2 Hw. unfold tryCatch. destruct (Hm w1 w2 Hw) as [Ho Hr].
  destruct (m w1) as [o1 w1'], (m w2) as [o2 w2']. simpl in Ho, Hr. subst o2.
  destruct o1 as [a|e|]; [| now apply Hh |]; (split; [reflexivity | now apply HRQ]).
Qed.

End AgreeRules.

Section BystanderSteps.
Import Js Api Store Run Crawler Analyze Props Logic Bystanders.
Local Open Scope run_scope.

Variable id : string.

Local Abbreviation stable := (agree (alike id) (alike id)).

Lemma stable_bind {A B} (m : M A) (k : A -> M B) :
  stable m -> (forall a, stable (k a)) -> stable (bind m k).
Proof. intros Hm Hk. apply agree_bind with (R := alike id); auto. Qed.

Lemma stable_tryCatch {A} (m : M A) h :
  stable m -> (forall e, stable (h e)) -> stable (tryCatch m h).
Proof. intros Hm Hh. apply agree_tryCatch with (R := alike id); auto. Qed.

Lemma stable_ret {A} (a : A) : stable (ret a).
Proof. now apply agree_ret. Qed.

Lemma stable_throw {A} e : stable (@throw A e).
Proof. now apply agree_throw. Qed.

Lemma serve_harmless w r :
  harmless id r = true -> get id (activeAnalyses (serve w r)) = get id (activeAnalyses w).
Proof.
  destruct r as [u b|u|u]; simpl; [|reflexivity|]; intros H.
  - pose proof (cancelAnalysis_table u b (activeAnalyses w)) as Ht.
    destruct (cancelAnalysis u b (activeAnalyses w)) as [t r]. simpl in Ht. subst t. simpl.
    rewrite get_cancel. destruct (startsWith id u); [discriminate|].
    now destruct (get id (activeAnalyses w)).
  - apply get_deleteFirstOf. now destruct (startsWith id u).
Qed.

Lemma serve_batch_harmless batch :
  Forall (fun r => harmless id r = true) batch ->
  forall w, get id (activeAnalyses (fold_left serve batch w)) = get id (activeAnalyses w).
Proof.
  induction 1 as [|r batch Hr _ IH]; intros w; simpl; [reflexivity|].
  rewrite IH. now apply serve_harmless.
Qed.

Lemma suspend_calm w :
  calm id w ->
  get id (activeAnalyses (snd (suspend w))) = get id (activeAnalyses w) /\
  database (snd (suspend w)) = database w /\ calm id (snd (suspend w)).
Proof.
  unfold calm, suspend. intros H. destruct (incoming w) as [|batch later] eqn:E; simpl.
  - rewrite E. auto.
  - apply Forall_cons_iff in H. destruct H as [Hb Hl].
    rewrite serve_batch_harmless, database_serve, incoming_serve; auto.
Qed.

Lemma stable_suspend : stable suspend.
Proof.
  intros w1 w2 [Hg [Hd [H1 H2]]].
  destruct (suspend_calm w1 H1) as [G1 [D1 C1]], (suspend_calm w2 H2) as [G2 [D2 C2]].
  split; [now rewrite !suspend_ok|]. repeat split; congruence.
Qed.

Lemma stable_axiosGet {A} (answer : Fetch A) : stable (axiosGet answer).
Proof.
  unfold axiosGet. apply stable_bind; [apply stable_suspend|]. intros _.
  destruct answer as [status txt data|e]; [|apply stable_throw].
  destruct (status <? 500); [apply stable_ret | apply stable_throw].
Qed.

Lemma stable_table f :
  (forall t1 t2, get id t1 = get id t2 -> get id (f t1) = get id (f t2)) ->
  stable (modify (withAnalyses f)).
Proof.
  intros H w1 w2 [Hg [Hd [H1 H2]]]. split; [reflexivity|].
  repeat split; simpl; auto.
Qed.

Lemma stable_checkCancelled : stable (checkCancelled id).
Proof.
  intros w1 w2 Hw. unfold checkCancelled, isCancelled.
  destruct Hw as [Hg Hr]. rewrite Hg.
  destruct (truthy id && _); (split; [reflexivity|]); split; assumption.
Qed.

Lemma stable_updateProgress maxDepth path depth :
  stable (updateProgress id maxDepth path depth).
Proof.
  unfold updateProgress. destruct (truthy id); [|apply stable_ret].
  apply stable_table. intros t1 t2 H. unfold recordProgress.
  now rewrite !get_set_same, H.
Qed.

Lemma stable_processItems maxDepth descend depth items :
  (forall p, stable (descend p)) ->
  forall children, stable (processItems id maxDepth descend depth items children).
Proof.
  intros Hd. induction items as [|item rest IH]; intros children; simpl.
  - apply stable_ret.
  - apply stable_bind; [apply stable_checkCancelled|]. intros _.
    destruct (Denylist.shouldSkip (name item)); [apply IH|].
    destruct (type item =? "dir")%string; [|apply IH].
    apply stable_bind; [apply Hd | intros; apply IH].
Qed.

Lemma stable_build repo listing maxDepth fuel :
  forall path depth,
    stable (buildFileTreeWithCancellation repo listing id maxDepth fuel path depth).
Proof.
  induction fuel as [|fuel IH]; intros path depth; simpl.
  - intros w1 w2 Hw. split; [reflexivity | exact Hw].
  - apply stable_tryCatch; [|intros e; apply stable_throw].
    apply stable_bind; [apply stable_checkCancelled|]. intros _.
    apply stable_bind; [apply stable_updateProgress|]. intros _.
    destruct (maxDepth <=? depth)%nat; [apply stable_ret|].
    apply stable_bind; [apply stable_axiosGet|].
    intros [[status txt] items].
    destruct (status =? 404); [apply stable_ret|].
    destruct (status =? 403); [apply stable_ret|].
    destruct (400 <=? status); [apply stable_throw|].
    apply stable_bind; [|intros; apply stable_ret].
    apply stable_processItems. intros p. apply IH.
Qed.

Lemma stable_validate owner repo answer :
  stable (validateRepositoryExists owner repo answer).
Proof.
  unfold validateRepositoryExists. apply stable_tryCatch.
  - apply stable_bind; [apply stable_axiosGet|]. intros [[status txt] data].
    destruct (status =? 404); [apply stable_throw|].
    destruct (status =? 403); [apply stable_throw|].
    destruct (400 <=? status); [apply stable_throw|].
    destruct (repoSize data =? 0); [apply stable_throw|].
    destruct (default_branch data) as [[|c s]|];
      [apply stable_throw | apply stable_ret | apply stable_throw].
  - intros e. destruct (responseStatus e) as [z|]; [|apply stable_throw].
    destruct z as [|p|p]; try apply stable_throw.
    do 9 (destruct p as [p|p|]; try apply stable_throw).
Qed.

End BystanderSteps.

Section BystanderRoute.
Import Js Api Store Run Crawler Analyze Props Logic Bystanders.
Local Open Scope run_scope.

Variable user : string.
Variable now : string.
Variable body : Body.
Variable env : Env.

Local Abbreviation id := (analysisId user now).

Lemma alike_sameStore w1 w2 : alike id w1 w2 -> sameStore w1 w2.
Proof. intros [_ [H _]]. exact H. Qed.

Lemma last_table {A} f (a : A) :
  agree (alike id) sameStore (modify (withAnalyses f) ;; ret a).
Proof. intros w1 w2 Hw. split; [reflexivity|]. apply alike_sameStore in Hw. exact Hw. Qed.

Lemma stable_saveRepository url fileTree stats :
  agree (alike id) (alike id) (saveRepository user url fileTree stats).
Proof.
  unfold saveRepository. apply stable_bind; [apply stable_suspend|]. intros _.
  intros w1 w2 [Hg [Hd [H1 H2]]]. rewrite Hd.
  destruct (Repository.create user url fileTree (Some stats) (database w2)) as [[u|msg] d];
    (split; [reflexivity|]); repeat split; assumption.
Qed.

Lemma attempt_agrees : agree (alike id) sameStore (attempt user now body env).
Proof.
  unfold attempt.
  destruct (repoUrl body) as [[|c url]|];
    try (apply agree_ret; exact alike_sameStore).
  destruct (Parser.parseGitHubUrl (String c url)) as [[owner repo]|];
    [|apply agree_ret; exact alike_sameStore].
  apply agree_bind with (R := alike id);
    [apply stable_validate | exact alike_sameStore |]. intros _.
  apply agree_bind with (R := alike id); [| exact alike_sameStore |].
  { unfold crawlPhase. apply stable_bind.
    - apply stable_table. intros t1 t2 _. now rewrite !get_set_same.
    - intros _. apply stable_bind; [apply stable_build|]. intros fileTree.
      apply stable_bind; [|intros; apply stable_ret].
      apply stable_table. intros t1 t2 H. unfold completeProgress.
      now rewrite !get_set_same, H. }
  intros fileTree. apply agree_bind with (R := alike id); [| exact alike_sameStore |].
  { intros w1 w2 Hw. simpl. destruct Hw as [Hg Hr]. rewrite Hg. split; [reflexivity|].
    split; assumption. }
  intros [|]; [apply last_table|].
  unfold reportPhase.
  do 6 (apply agree_bind with (R := alike id);
        [apply stable_suspend | exact alike_sameStore |]; intros _).
  apply agree_bind with (R := alike id);
    [apply stable_saveRepository | exact alike_sameStore |]. intros _.
  apply agree_bind with (R := alike id); [| exact alike_sameStore | intros _; apply last_table].
  unfold incrementAnalyses. apply stable_bind; [apply stable_suspend|]. intros _.
  destruct (statisticsFailure env); [apply stable_throw | apply stable_ret].
Qed.


End BystanderRoute.

Section BystanderRuns.
Import Js Api Store Run Crawler Analyze Props Logic Bystanders Samples Cases.


End BystanderRuns.

(** ** Where a success answer comes from *)

Section RouteSuccess.
Import Js Api Store Run Crawler Analyze Props Logic.
Local Open Scope run_scope.

Variable user : string.
Variable now : string.
Variable body : Body.
Variable env : Env.

Lemma reportPhase_returns url owner repo depth fileTree :
  returns (reportPhase user now env url owner repo depth fileTree)
          (fun resp => exists config,
               resp = Analyzed owner repo fileTree config /\ configMaxDepth config = depth).
Proof.
  unfold reportPhase.
  do 9 (apply returns_bind with (P := fun _ => True); [apply returns_any|]; intros _ _).
  apply returns_ret. eexists. split; reflexivity.
Qed.

(** X29: a success answer is only given for an address the parser accepts
    and a repository that passes the validation, and its tree is what
    a crawl of that repository returned under the analysis id of the
    request and the depth bound of the request cut to 1..20; the
    answer names the parsed owner and repository and that bound. *)
Theorem success_answer_comes_from_a_crawl
        (w w' : World) (owner repo : string) (fileTree : Tree.TreeNode)
        (config : AnalysisConfig)
        (Hrun : analyze user now body env w = (Ok (Analyzed owner repo fileTree config), w')) :
  exists url w1 w2,
    repoUrl body = Some url /\
    Parser.parseGitHubUrl url = Some (owner, repo) /\
    Validate.usable (repository env) /\
    configMaxDepth config = Depth.clampDepth (maxDepth body) /\
    crawl repo (contents env) (analysisId user now)
          (Z.to_nat (Depth.clampDepth (maxDepth body))) w1
    = (Ok fileTree, w2).
Proof.
  revert Hrun. unfold analyze, tryCatch.
  destruct (attempt user now body env w) as [[resp|e|] w0] eqn:Ea.
  2:{ unfold bind, modify, ret. intros [= H _].
      destruct (errorResponse_json e) as [s [m [er [c [He _]]]]]. congruence. }
  2:{ discriminate. }
  intros [= -> ->]. revert Ea. unfold attempt.
  destruct (repoUrl body) as [[|c url]|]; try discriminate.
  destruct (Parser.parseGitHubUrl (String c url)) as [[o r]|] eqn:Ep; [|discriminate].
  unfold bind at 1.
  destruct (analyze_validation o r (repository env) w) as [[Hu [data Hv]]|[_ [e Hv]]];
    rewrite Hv; [|discriminate].
  unfold bind at 1.
  destruct (crawlPhase user now env r (Z.to_nat (Depth.clampDepth (maxDepth body)))
                       (snd (suspend w))) as [[tree|e|] w2] eqn:Ec; try discriminate.
  unfold bind at 1, gets.
  match goal with |- context [if ?flag then _ else _] => destruct flag end;
    [discriminate|].
  intros Hr. destruct (reportPhase_returns _ _ _ _ _ _ _ _ Hr) as [cfg [[= <- <- <- <-] Hc]].
  revert Ec. unfold crawlPhase, bind, modify.
  match goal with |- context [crawl ?a ?b ?c ?d ?w1] =>
    destruct (crawl a b c d w1) as [[t|e|] w3] eqn:Ecrawl end; try discriminate.
  intros [= <- _].
  eexists _, _, _. split; [reflexivity|]. split; [exact Ep|]. split; [exact Hu|].
  split; [exact Hc | exact Ecrawl].
Qed.

End RouteSuccess.

Section RouteSuccessRuns.
Import Js Api Store Run Crawler Analyze Props Logic Samples Cases.

Lemma success_answer_comes_from_a_crawl_witness :
  exists fileTree config w' w1 w2,
    analyze "7" "1700000000000" (request address "5") (github smallRepo None) (world polls)
    = (Ok (Analyzed "a" "b" fileTree config), w') /\
    configMaxDepth config = 5 /\
    crawl "b" smallRepo "7-1700000000000" 5 w1 = (Ok fileTree, w2).
Proof.
  destruct (analyze "7" "1700000000000" (request address "5") (github smallRepo None)
                    (world polls)) as [o w'] eqn:E.
  assert (Ho : exists fileTree config, o = Ok (Analyzed "a" "b" fileTree config)).
  { apply (f_equal fst) in E. vm_compute in E. subst o. now eexists _, _. }
  destruct Ho as [fileTree [config ->]].
  destruct (success_answer_comes_from_a_crawl
              "7" "1700000000000" (request address "5") (github smallRepo None)
              (world polls) w' "a" "b" fileTree config E)
    as [url [w1 [w2 [_ [_ [_ [Hc Hcrawl]]]]]]].
  exists fileTree, config, w', w1, w2. split; [reflexivity|]. split; [exact Hc | exact Hcrawl].
Defined.

End RouteSuccessRuns.
